(** * sqlsmith.cc: the run loop of the SQL fuzzer

    A shallow embedding of [main] of [src/sqlsmith.cc]: the set-up of the
    schema, the loggers and the device under test (DUT), the dry-run loop
    and the generate / execute / classify loop with its recovery path.

    The collaborators of [main] that live in other translation units
    (schema loading, the statement factory, the loggers, the DUT, the
    clock) are taken as functions over an abstract world [W]; every call
    to one of them may raise a C++ exception. [main] itself is written in
    a small state-and-exception monad that also records, in order, every
    interaction with a collaborator and every output. *)

From Stdlib Require Import ZArith Ascii Bool Lia.
From stdpp Require Import base option gmap strings list pretty.

Local Open Scope Z_scope.

(** ** Exceptions

    What [main] can observe of an exception object is which of its [catch]
    clauses and [dynamic_cast]s the object matches, and its [what()]
    text. The classes [dut::failure] and [dut::broken] are declared in
    [dut.hh], not in [sqlsmith.cc]; an exception is therefore described by
    the four class tests that [main] performs, whatever the hierarchy. *)

Record exn : Type := Exn {
  what : string;
  (** matched by [catch (const exception &e)], line 245 *)
  is_std_exception : bool;
  (** matched by [catch (runtime_error &e)], line 226 *)
  is_runtime_error : bool;
  (** matched by [catch (const dut::failure &e)], line 222 *)
  is_failure : bool;
  (** matched by [catch (const dut::broken &e)], line 237, and by
      [dynamic_cast<const dut::broken *>(&e)], line 230 *)
  is_broken : bool
}.

(** [std::invalid_argument] and [std::out_of_range] are [std::logic_error]s. *)
Definition logic_error (msg : string) : exn :=
  {| what := msg; is_std_exception := true; is_runtime_error := false;
     is_failure := false; is_broken := false |}.

(** ** [std::stol] and [std::stoi]

    Both call [strtol] in base 10: leading white space is skipped, an
    optional sign is read, then as many decimal digits as there are; what
    follows the digits is ignored. No digit at all is
    [std::invalid_argument], a value out of the range of the result type
    is [std::out_of_range]; [what()] is the name of the function. *)

Definition LONG_MAX : Z := 2 ^ 63 - 1.
Definition LONG_MIN : Z := - 2 ^ 63.
Definition INT_MAX : Z := 2 ^ 31 - 1.
Definition INT_MIN : Z := - 2 ^ 31.

Definition isspace (c : ascii) : bool :=
  let n := Z.of_N (N_of_ascii c) in
  (n =? 32) || ((9 <=? n) && (n <=? 13)).

Definition digit (c : ascii) : option Z :=
  let n := Z.of_N (N_of_ascii c) in
  if (48 <=? n) && (n <=? 57) then Some (n - 48) else None.

Fixpoint skip_space (s : string) : string :=
  match s with
  | String c s' => if isspace c then skip_space s' else s
  | EmptyString => s
  end.

(** [digits s acc]: the value of the longest prefix of decimal digits of
    [s], [acc] being the value read so far ([None]: no digit yet). *)
Fixpoint digits (s : string) (acc : option Z) : option Z :=
  match s with
  | String c s' =>
      match digit c with
      | Some d => digits s' (Some (10 * default 0 acc + d))
      | None => acc
      end
  | EmptyString => acc
  end.

Definition strtol (s : string) : option Z :=
  match skip_space s with
  | String "-" s' => Z.opp <$> digits s' None
  | String "+" s' => digits s' None
  | s' => digits s' None
  end.

Definition stoa (lo hi : Z) (name s : string) : exn + Z :=
  match strtol s with
  | None => inl (logic_error name)
  | Some v => if (lo <=? v) && (v <=? hi) then inr v else inl (logic_error name)
  end.

Definition stol : string -> exn + Z := stoa LONG_MIN LONG_MAX "stol".
Definition stoi : string -> exn + Z := stoa INT_MIN INT_MAX "stoi".

(** [++] and [x++] on a [long]. C++ leaves the overflow of a signed
    integer undefined; the model takes what the 64 bits of the target do,
    two's complement. *)
Definition wrap_long (z : Z) : Z := (z + 2 ^ 63) mod 2 ^ 64 - 2 ^ 63.

(** ** The objects [main] constructs *)

Inductive schema : Type :=
| schema_sqlite (uri : string)
| schema_monetdb (conninfo : string)
| schema_pqxx (conninfo : string).

Inductive logger : Type :=
| impedance_feedback
| pqxx_logger (target conninfo : string) (s : schema)
| cerr_logger
| ast_logger.

Inductive dut_base : Type :=
| dut_sqlite (uri : string)
| dut_monetdb (conninfo : string)
| dut_pqxx (conninfo : string).

(** [config.h] and [gitrev.h]. *)
Record build : Type := Build {
  PACKAGE_NAME : string;
  GITREV : string;
  HAVE_LIBSQLITE3 : bool
}.

Definition endl : string := String (ascii_of_nat 10) "".

(** ** Collaborators

    The parts of the program [main] calls into, as functions over the
    world [W]. A call that can raise returns the exception next to the new
    world. [prod] is the type of the AST that the statement factory
    builds. *)

Record collaborators (W prod : Type) : Type := Collaborators {
  (** the constructors of the three schema classes *)
  schema_new : schema -> W -> option exn * W;
  (** [schema->fill_scope(scope)] *)
  fill_scope : schema -> W -> option exn * W;
  (** the constructors of the logger classes *)
  logger_new : logger -> W -> option exn * W;
  (** [smith::rng.seed(n)] *)
  rng_seed : Z -> W -> W;
  (** [statement_factory(&scope)] *)
  statement_factory : W -> (exn + prod) * W;
  (** Modelled from the spec: [prod::out] is defined with the grammar, not
      in [sqlsmith.cc]; rendering is a pure traversal that never fails and
      gives the same text each time. *)
  out : prod -> string;
  (** the three hooks of a logger *)
  generated : logger -> prod -> W -> option exn * W;
  executed : logger -> prod -> W -> option exn * W;
  error : logger -> prod -> exn -> W -> option exn * W;
  (** [cerr_logger::report()] *)
  report : W -> option exn * W;
  (** the name [typeid] gives for the class of the logger *)
  type_name : logger -> string;
  (** the constructors of the three DUT classes *)
  dut_new : dut_base -> W -> option exn * W;
  (** [dut->test(stmt)] *)
  test : dut_base -> string -> W -> option exn * W;
  (** [clock()] *)
  clock : W -> Z * W;
  (** [this_thread::sleep_for(milliseconds(ms))] *)
  sleep_for : Z -> W -> W
}.

Arguments Collaborators {W prod}.
Arguments schema_new {W prod}.
Arguments fill_scope {W prod}.
Arguments logger_new {W prod}.
Arguments rng_seed {W prod}.
Arguments statement_factory {W prod}.
Arguments out {W prod}.
Arguments generated {W prod}.
Arguments executed {W prod}.
Arguments error {W prod}.
Arguments report {W prod}.
Arguments type_name {W prod}.
Arguments dut_new {W prod}.
Arguments test {W prod}.
Arguments clock {W prod}.
Arguments sleep_for {W prod}.

(** ** What a run does, in order *)

Inductive event (prod : Type) : Type :=
| Cerr (text : string)
| Cout (text : string)
(** [ofstream f(file)]: the file is created or truncated *)
| Open (file : string)
| Write (file text : string)
| Close (file : string)
(** the line [-- TIMING (stop - start) / CLOCKS_PER_SEC seconds] written to
    [ssquery.log], with the two readings of [clock()] it is computed from *)
| Timing (start stop : Z)
| NewSchema (s : schema) (raised : option exn)
| FillScope (s : schema) (raised : option exn)
| NewLogger (l : logger) (raised : option exn)
(** [signal(SIGINT, cerr_log_handler)] *)
| Signal
| Seed (n : Z)
| Factory (r : exn + prod)
| Generated (l : logger) (gen : prod) (raised : option exn)
| Executed (l : logger) (gen : prod) (raised : option exn)
| Error (l : logger) (gen : prod) (e : exn) (raised : option exn)
| Report (raised : option exn)
| NewDut (d : dut_base) (raised : option exn)
| Test (d : dut_base) (stmt : string) (raised : option exn)
| Sleep (ms : Z).

Arguments Cerr {prod}.
Arguments Cout {prod}.
Arguments Open {prod}.
Arguments Write {prod}.
Arguments Close {prod}.
Arguments Timing {prod}.
Arguments NewSchema {prod}.
Arguments FillScope {prod}.
Arguments NewLogger {prod}.
Arguments Signal {prod}.
Arguments Seed {prod}.
Arguments Factory {prod}.
Arguments Generated {prod}.
Arguments Executed {prod}.
Arguments Error {prod}.
Arguments Report {prod}.
Arguments NewDut {prod}.
Arguments Test {prod}.
Arguments Sleep {prod}.

(** ** The monad of [main] *)

(** How a piece of [main] ends. *)
Inductive completion (A : Type) : Type :=
| Normal (a : A)
(** an exception is propagating *)
| Throw (e : exn)
(** [return status] from [main], or [exit(status)] *)
| Exit (status : Z)
(** the model was given too few loop iterations to get further *)
| OutOfFuel.

Arguments Normal {A}.
Arguments Throw {A}.
Arguments Exit {A}.
Arguments OutOfFuel {A}.

(** The variables [main] assigns to, and the world. *)
Record state (W : Type) : Type := State {
  world : W;
  queries_generated : Z;
  (** the global pointer [global_cerr_logger]: null or a [cerr_logger] *)
  global_cerr_logger : bool
}.

Arguments State {W}.
Arguments world {W}.
Arguments queries_generated {W}.
Arguments global_cerr_logger {W}.

Record result (W prod A : Type) : Type := Result {
  outcome : completion A;
  events : list (event prod);
  final : state W
}.

Arguments Result {W prod A}.
Arguments outcome {W prod A}.
Arguments events {W prod A}.
Arguments final {W prod A}.

Definition M (W prod A : Type) : Type := state W -> result W prod A.

(** [after t r]: the run [r], preceded by the events [t]. *)
Definition after {W prod A} (t : list (event prod)) (r : result W prod A)
  : result W prod A :=
  Result (outcome r) (t ++ events r) (final r).

Definition ret {W prod A} (a : A) : M W prod A :=
  fun s => Result (Normal a) [] s.

Definition bind {W prod A B} (m : M W prod A) (f : A -> M W prod B)
  : M W prod B :=
  fun s =>
    let r := m s in
    match outcome r with
    | Normal a => after (events r) (f a (final r))
    | Throw e => Result (Throw e) (events r) (final r)
    | Exit n => Result (Exit n) (events r) (final r)
    | OutOfFuel => Result OutOfFuel (events r) (final r)
    end.

Definition throw {W prod A} (e : exn) : M W prod A :=
  fun s => Result (Throw e) [] s.

(** [return n;] in [main] *)
Definition return_ {W prod A} (n : Z) : M W prod A :=
  fun s => Result (Exit n) [] s.

Definition out_of_fuel {W prod A} : M W prod A :=
  fun s => Result OutOfFuel [] s.

(** [try { m } catch (const T &e) { h e }], [handles] telling whether the
    class of an exception derives from [T]. *)
Definition try_catch {W prod A} (m : M W prod A) (handles : exn -> bool)
    (h : exn -> M W prod A) : M W prod A :=
  fun s =>
    let r := m s in
    match outcome r with
    | Throw e => if handles e then after (events r) (h e (final r)) else r
    | _ => r
    end.

Definition emit {W prod} (ev : event prod) : M W prod unit :=
  fun s => Result (Normal tt) [ev] s.

(** A call to a collaborator that can raise: [ev] is the event recorded
    for it. *)
Definition call {W prod} (f : W -> option exn * W)
    (ev : option exn -> event prod) : M W prod unit :=
  fun s =>
    let (r, w) := f (world s) in
    Result (match r with Some e => Throw e | None => Normal tt end) [ev r]
      (State w (queries_generated s) (global_cerr_logger s)).

#[global] Instance M_ret {W prod} : MRet (M W prod) := @ret W prod.
#[global] Instance M_bind {W prod} : MBind (M W prod) :=
  fun A B f m => bind m f.

(** [for (auto x : xs) f(x);] *)
Fixpoint for_each {W prod A} (xs : list A) (f : A -> M W prod unit)
  : M W prod unit :=
  match xs with
  | [] => ret tt
  | x :: xs' => bind (f x) (fun _ => for_each xs' f)
  end.

(** ** [main] *)

Section Main.

Context {W prod : Type}.
Variable cfg : build.
Variable env : collaborators W prod.
(** The map [options] that lines 63 to 75 fill from [argv]. *)
Variable options : gmap string string.
(** [getpid()] *)
Variable pid : Z.

Local Abbreviation M := (M W prod).

(** [options.count(key)] *)
Definition count (key : string) : bool := bool_decide (is_Some (options !! key)).

(** [options[key]]. Where [main] reads a key that is absent (only
    [target]), [operator[]] adds it with the empty string; [main] never
    counts that key. *)
Definition opt (key : string) : string := default "" (options !! key).

Definition get_queries_generated : M Z :=
  fun s => Result (Normal (queries_generated s)) [] s.

Definition set_queries_generated (q : Z) : M unit :=
  fun s => Result (Normal tt) [] (State (world s) q (global_cerr_logger s)).

Definition get_global_cerr_logger : M bool :=
  fun s => Result (Normal (global_cerr_logger s)) [] s.

Definition set_global_cerr_logger (b : bool) : M unit :=
  fun s => Result (Normal tt) [] (State (world s) (queries_generated s) b).

(** the result of a library function that can raise *)
Definition lift {A} (r : exn + A) : M A :=
  match r with
  | inl e => throw e
  | inr a => ret a
  end.

Definition new_schema (s : schema) : M schema :=
  call (schema_new env s) (NewSchema s);; ret s.

Definition new_logger (l : logger) : M logger :=
  call (logger_new env l) (NewLogger l);; ret l.

Definition new_dut (d : dut_base) : M dut_base :=
  call (dut_new env d) (NewDut d);; ret d.

Definition seed (n : Z) : M unit :=
  fun s =>
    Result (Normal tt) [Seed n]
      (State (rng_seed env n (world s)) (queries_generated s)
         (global_cerr_logger s)).

Definition factory : M prod :=
  fun s =>
    let (r, w) := statement_factory env (world s) in
    Result (match r with inl e => Throw e | inr gen => Normal gen end)
      [Factory r] (State w (queries_generated s) (global_cerr_logger s)).

Definition get_clock : M Z :=
  fun s =>
    let (t, w) := clock env (world s) in
    Result (Normal t) [] (State w (queries_generated s) (global_cerr_logger s)).

Definition sleep (ms : Z) : M unit :=
  fun s =>
    Result (Normal tt) [Sleep ms]
      (State (sleep_for env ms (world s)) (queries_generated s)
         (global_cerr_logger s)).

Definition do_report : M unit := call (report env) Report.

(** Lines 52 to 57, the handler of SIGINT. *)
Definition cerr_log_handler : M unit :=
  g ← get_global_cerr_logger;
  (if g : bool then do_report else ret tt);;
  return_ 1.

(** Lines 78 to 91. *)
Definition help_text : string :=
  "    --target=connstr     postgres database to send queries to" +:+ endl +:+
  (if HAVE_LIBSQLITE3 cfg
   then "    --sqlite=URI         SQLite database to send queries to" +:+ endl
   else "") +:+
  "    --monetdb=connstr    monetdb database to send queries to" +:+ endl +:+
  "    --log-to=connstr     log errors to postgres database" +:+ endl +:+
  "    --seed=int           seed RNG with specified int instead of PID" +:+ endl +:+
  "    --dump-all-graphs    dump generated ASTs" +:+ endl +:+
  "    --dry-run            print queries instead of executing them" +:+ endl +:+
  "    --max-queries=long   terminate after generating this many queries" +:+ endl +:+
  "    --verbose            emit progress output" +:+ endl +:+
  "    --version            print version information and exit" +:+ endl +:+
  "    --help               print available command line options and exit" +:+ endl.

Definition no_sqlite {A} : M A :=
  emit (Cerr ("Sorry, " +:+ PACKAGE_NAME cfg +:+
              " was compiled without SQLite support." +:+ endl));;
  return_ 1.

Definition banner (conn : string) : M unit :=
  emit (Cout ("=====: " +:+ conn +:+ " :======" +:+ endl)).

(** Lines 99 to 118. *)
Definition load_schema : M schema :=
  if count "sqlite" then
    if HAVE_LIBSQLITE3 cfg then
      banner (opt "sqlite");; new_schema (schema_sqlite (opt "sqlite"))
    else no_sqlite
  else if count "monetdb" then
    banner (opt "monetdb");; new_schema (schema_monetdb (opt "monetdb"))
  else
    banner (opt "target");; new_schema (schema_pqxx (opt "target")).

(** Lines 127 to 144. *)
Definition make_loggers (s : schema) : M (list logger) :=
  l ← new_logger impedance_feedback;
  let loggers := [l] in
  loggers ←
    (if count "log-to" then
       l ← new_logger
             (pqxx_logger (if count "sqlite" then opt "sqlite" else opt "target")
                (opt "log-to") s);
       ret (loggers ++ [l])
     else ret loggers);
  loggers ←
    (if count "verbose" then
       l ← new_logger cerr_logger;
       set_global_cerr_logger true;;
       emit Signal;;
       ret (loggers ++ [l])
     else ret loggers);
  if count "dump-all-graphs" then
    l ← new_logger ast_logger;
    ret (loggers ++ [l])
  else ret loggers.

(** Line 146. *)
Definition seed_rng : M unit :=
  n ← (if count "seed" then lift (stoi (opt "seed")) else ret pid);
  seed n.

(** Lines 150 to 159, the body of the dry-run loop. *)
Definition dry_run_step (loggers : list logger) : M unit :=
  gen ← factory;
  emit (Cout (out env gen));;
  for_each loggers (fun l => call (generated env l gen) (Generated l gen));;
  emit (Cout (";" +:+ endl));;
  q ← get_queries_generated;
  set_queries_generated (wrap_long (q + 1));;
  if count "max-queries" then
    q ← get_queries_generated;
    n ← lift (stol (opt "max-queries"));
    if n <=? q then return_ 0 else ret tt
  else ret tt.

(** Lines 149 to 160: [while (1)], at most [fuel] times round. *)
Fixpoint dry_run_loop (fuel : nat) (loggers : list logger) : M unit :=
  match fuel with
  | O => out_of_fuel
  | S fuel' => dry_run_step loggers;; dry_run_loop fuel' loggers
  end.

(** Lines 163 to 178. *)
Definition make_dut : M dut_base :=
  if count "sqlite" then
    if HAVE_LIBSQLITE3 cfg then new_dut (dut_sqlite (opt "sqlite"))
    else no_sqlite
  else if count "monetdb" then new_dut (dut_monetdb (opt "monetdb"))
  else new_dut (dut_pqxx (opt "target")).

(** Lines 187 to 192. *)
Definition check_ceiling : M unit :=
  if count "max-queries" then
    q ← get_queries_generated;
    set_queries_generated (wrap_long (q + 1));;
    q ← get_queries_generated;
    n ← lift (stol (opt "max-queries"));
    if n <? q then
      g ← get_global_cerr_logger;
      (if g : bool then do_report else ret tt);;
      return_ 0
    else ret tt
  else ret tt.

(** Lines 211 to 221, the [try] block. *)
Definition execute (loggers : list logger) (dut : dut_base) (gen : prod)
  : M unit :=
  let s := out env gen in
  emit (Open "ssquery.current");;
  emit (Write "ssquery.current" (s +:+ ";" +:+ endl));;
  emit (Close "ssquery.current");;
  starttime ← get_clock;
  call (test env dut s) (Test dut s);;
  for_each loggers (fun l => call (executed env l gen) (Executed l gen));;
  now ← get_clock;
  emit (Timing starttime now);;
  emit (Write "ssquery.log" (s +:+ ";" +:+ endl)).

(** Lines 224 to 229: the error hook of one logger, inside its own [try]. *)
Definition log_error (gen : prod) (e : exn) (l : logger) : M unit :=
  try_catch (call (error env l gen e) (Error l gen e)) is_runtime_error
    (fun e' =>
       emit (Cerr (endl +:+ "log failed: " +:+ type_name env l +:+ ": " +:+
                   what e' +:+ endl))).

(** Lines 222 to 234, the handler of [dut::failure]. *)
Definition classify (loggers : list logger) (gen : prod) (e : exn) : M unit :=
  for_each loggers (log_error gen e);;
  if is_broken e then throw e else ret tt.

(** Lines 196 to 234: one statement, from the factory to the
    classification of its outcome. *)
Definition generate_and_test (loggers : list logger) (dut : dut_base)
  : M unit :=
  gen ← factory;
  for_each loggers (fun l => call (generated env l gen) (Generated l gen));;
  emit (Write "allqueries.log" (out env gen +:+ ";" +:+ endl));;
  try_catch (execute loggers dut gen) is_failure (classify loggers gen).

(** Lines 187 to 234, the body of the inner loop. *)
Definition iteration (loggers : list logger) (dut : dut_base) : M unit :=
  check_ceiling;; generate_and_test loggers dut.

(** Lines 186 to 235: [while (1)], at most [fuel] times round. *)
Fixpoint inner_loop (fuel : nat) (loggers : list logger) (dut : dut_base)
  : M unit :=
  match fuel with
  | O => out_of_fuel
  | S fuel' => iteration loggers dut;; inner_loop fuel' loggers dut
  end.

(** Lines 185 to 240: one round of the outer loop, the inner loop being
    given [fuel] rounds. *)
Definition session (fuel : nat) (loggers : list logger) (dut : dut_base)
  : M unit :=
  try_catch (inner_loop fuel loggers dut) is_broken (fun _ => sleep 1000).

(** Lines 183 to 241: [while (1)], at most [fuel] times round. *)
Fixpoint outer_loop (fuel : nat) (loggers : list logger) (dut : dut_base)
  : M unit :=
  match fuel with
  | O => out_of_fuel
  | S fuel' => session fuel loggers dut;; outer_loop fuel' loggers dut
  end.

(** Lines 99 to 144: the schema, the scope and the loggers. *)
Definition set_up : M (list logger) :=
  s ← load_schema;
  set_queries_generated 0;;
  call (fill_scope env s) (FillScope s);;
  make_loggers s.

(** Lines 148 to 243: the dry-run loop, or the DUT and the loop that
    drives it. *)
Definition run (fuel : nat) (loggers : list logger) : M unit :=
  (if count "dry-run" then dry_run_loop fuel loggers else ret tt);;
  dut ← make_dut;
  emit (Open "ssquery.log");;
  emit (Open "allqueries.log");;
  outer_loop fuel loggers dut;;
  emit (Close "ssquery.log");;
  emit (Close "allqueries.log").

(** Lines 99 to 244, the outer [try] block. *)
Definition main_body (fuel : nat) : M unit :=
  loggers ← set_up;
  seed_rng;;
  run fuel loggers.

(** Lines 59 to 250. Reaching the end of [main] is [return 0]. *)
Definition main (fuel : nat) : M unit :=
  emit (Cerr (PACKAGE_NAME cfg +:+ " " +:+ GITREV cfg +:+ endl));;
  if count "help" then emit (Cerr help_text);; return_ 0
  else if count "version" then return_ 0
  else
    try_catch (main_body fuel) is_std_exception
      (fun e => emit (Cerr (what e +:+ endl));; return_ 1);;
    return_ 0.

End Main.

(** ** Test doubles

    A scripted world to run [main] in: the statement factory numbers the
    statements it builds from the seed of the generator on, the clock
    advances by one tick per reading and by the duration of each sleep,
    and the DUT is one of three harnesses. *)

(** What a DUT does to a statement. *)
Inductive reaction : Type := accepts | rejects | disconnects.

Record double : Type := Double {
  next : Z;
  script : list reaction;
  ticks : Z
}.

Definition statement_failure : exn :=
  {| what := "syntax error"; is_std_exception := true;
     is_runtime_error := false; is_failure := true; is_broken := false |}.

Definition broken_session : exn :=
  {| what := "connection lost"; is_std_exception := true;
     is_runtime_error := false; is_failure := true; is_broken := true |}.

Definition runtime_error (msg : string) : exn :=
  {| what := msg; is_std_exception := true; is_runtime_error := true;
     is_failure := false; is_broken := false |}.

Definition raised_by (r : reaction) : option exn :=
  match r with
  | accepts => None
  | rejects => Some statement_failure
  | disconnects => Some broken_session
  end.

(** The harness that plays the script, and accepts every statement once
    the script is over. *)
Definition scripted (w : double) : option exn * double :=
  match script w with
  | [] => (None, w)
  | r :: rest => (raised_by r, Double (next w) rest (ticks w))
  end.

(** The harness that accepts every statement. *)
Definition reliable (w : double) : option exn * double := (None, w).

(** The harness whose session is broken at every statement. *)
Definition down (w : double) : option exn * double := (Some broken_session, w).

(** The doubles differ in the harness and in what the hooks of the
    loggers raise. *)
Definition doubles (harness : double -> option exn * double)
    (on_generated on_executed on_error : logger -> option exn)
  : collaborators double Z :=
  {| schema_new _ w := (None, w);
     fill_scope _ w := (None, w);
     logger_new _ w := (None, w);
     rng_seed n w := Double n (script w) (ticks w);
     statement_factory w :=
       (inr (next w), Double (next w + 1) (script w) (ticks w));
     out gen := "select " +:+ pretty gen;
     generated l _ w := (on_generated l, w);
     executed l _ w := (on_executed l, w);
     error l _ _ w := (on_error l, w);
     report w := (None, w);
     type_name l :=
       match l with
       | impedance_feedback => "impedance_feedback"
       | pqxx_logger _ _ _ => "pqxx_logger"
       | cerr_logger => "cerr_logger"
       | ast_logger => "ast_logger"
       end;
     dut_new _ w := (None, w);
     test _ _ w := harness w;
     clock w := (ticks w, Double (next w) (script w) (ticks w + 1));
     sleep_for ms w := Double (next w) (script w) (ticks w + ms) |}.

Definition quiet : logger -> option exn := fun _ => None.

(** The hooks of the [pqxx_logger] raise, those of the others return. *)
Definition log_database_down (l : logger) : option exn :=
  match l with
  | pqxx_logger _ _ _ => Some (runtime_error "connection to log lost")
  | _ => None
  end.

Definition release : build :=
  {| PACKAGE_NAME := "sqlsmith"; GITREV := "unreleased";
     HAVE_LIBSQLITE3 := true |}.

Definition without_sqlite : build :=
  {| PACKAGE_NAME := "sqlsmith"; GITREV := "unreleased";
     HAVE_LIBSQLITE3 := false |}.

(** The world at the start of a run against a DUT that plays [script]. *)
Definition start (script : list reaction) : double := Double 0 script 0.

(** The state [main] starts in: the global pointer is null. *)
Definition initial {W} (w : W) : state W := State w 0 false.

(** The observations [f] makes on the events [t], in order. *)
Fixpoint project {A B} (f : A -> option B) (t : list A) : list B :=
  match t with
  | [] => []
  | x :: t' =>
      match f x with
      | Some y => y :: project f t'
      | None => project f t'
      end
  end.

Section Observations.

Context {prod : Type}.

Inductive hook : Type := on_generated | on_executed | on_error.

(** Which hook of which logger an event is the call of. *)
Definition notice (ev : event prod) : option (hook * logger) :=
  match ev with
  | Generated l _ _ => Some (on_generated, l)
  | Executed l _ _ => Some (on_executed, l)
  | Error l _ _ _ => Some (on_error, l)
  | _ => None
  end.

(** The statement an event is the generation of. *)
Definition statement (ev : event prod) : option prod :=
  match ev with
  | Factory (inr gen) => Some gen
  | _ => None
  end.

(** The outcome of the execution an event is. *)
Definition tested (ev : event prod) : option (option exn) :=
  match ev with
  | Test _ _ raised => Some raised
  | _ => None
  end.

Definition slept (ev : event prod) : option Z :=
  match ev with
  | Sleep ms => Some ms
  | _ => None
  end.

Definition timed (ev : event prod) : option (Z * Z) :=
  match ev with
  | Timing start stop => Some (start, stop)
  | _ => None
  end.

Definition seeded (ev : event prod) : option Z :=
  match ev with
  | Seed n => Some n
  | _ => None
  end.

Definition connected (ev : event prod) : option dut_base :=
  match ev with
  | NewDut d _ => Some d
  | _ => None
  end.

Definition notices (t : list (event prod)) : list (hook * logger) := project notice t.
Definition statements (t : list (event prod)) : list prod := project statement t.
Definition tests (t : list (event prod)) : list (option exn) := project tested t.
Definition sleeps (t : list (event prod)) : list Z := project slept t.
Definition timings (t : list (event prod)) : list (Z * Z) := project timed t.
Definition seeds (t : list (event prod)) : list Z := project seeded t.
Definition connections (t : list (event prod)) : list dut_base := project connected t.

(** The events that precede the first call of the statement factory. *)
Fixpoint before_generation (t : list (event prod)) : list (event prod) :=
  match t with
  | [] => []
  | Factory _ :: _ => []
  | ev :: t' => ev :: before_generation t'
  end.

(** Is a call of the statement factory among the events? *)
Fixpoint generates (t : list (event prod)) : bool :=
  match t with
  | [] => false
  | Factory _ :: _ => true
  | _ :: t' => generates t'
  end.

(** An event of the handler of [dut::failure]: the call of an error hook,
    or the report that one failed. *)
Definition of_classify (ev : event prod) : Prop :=
  match ev with
  | Error _ _ _ _ | Cerr _ => True
  | _ => False
  end.

(** Is every execution of a statement run on a DUT that was constructed
    after the last backoff? [fresh] tells whether one was constructed
    since. *)
Fixpoint recreates (fresh : bool) (t : list (event prod)) : bool :=
  match t with
  | [] => true
  | Sleep _ :: t' => recreates false t'
  | NewDut _ None :: t' => recreates true t'
  | Test _ _ _ :: t' => fresh && recreates fresh t'
  | _ :: t' => recreates fresh t'
  end.

(** Is every execution of a statement followed by the record of its
    timing before the next execution? [pending] tells whether an
    execution awaits its record. *)
Fixpoint all_timed (pending : bool) (t : list (event prod)) : bool :=
  match t with
  | [] => negb pending
  | Test _ _ _ :: t' => negb pending && all_timed true t'
  | Timing _ _ :: t' => all_timed false t'
  | _ :: t' => all_timed pending t'
  end.

End Observations.

(** ** Assumptions on the collaborators *)

(** The statement factory and the loggers do as the program expects: the
    factory builds a statement, the [generated] and [executed] hooks and
    the report return, and an error hook that fails raises a
    [runtime_error]. *)
Record well_behaved {W prod} (env : collaborators W prod) : Prop := WellBehaved {
  factory_builds : forall w, exists gen, (statement_factory env w).1 = inr gen;
  generated_returns : forall l gen w, (generated env l gen w).1 = None;
  executed_returns : forall l gen w, (executed env l gen w).1 = None;
  error_raises_runtime_error :
    forall l gen e w e',
      (error env l gen e w).1 = Some e' -> is_runtime_error e' = true;
  report_returns : forall w, (report env w).1 = None
}.

(** What [dut->test] raises is a [dut::failure]. *)
Definition dut_raises_failures {W prod} (env : collaborators W prod) : Prop :=
  forall d stmt w e, (test env d stmt w).1 = Some e -> is_failure e = true.

(** Every execution succeeds. *)
Definition dut_succeeds {W prod} (env : collaborators W prod) : Prop :=
  forall d stmt w, (test env d stmt w).1 = None.

(** Every execution raises a [dut::broken]. *)
Definition dut_breaks {W prod} (env : collaborators W prod) : Prop :=
  forall d stmt w,
    exists e, (test env d stmt w).1 = Some e /\
              is_failure e = true /\ is_broken e = true.

(** Schema, loggers and DUT can be constructed. *)
Record sets_up {W prod} (env : collaborators W prod) : Prop := SetsUp {
  schema_loads : forall s w, (schema_new env s w).1 = None;
  scope_fills : forall s w, (fill_scope env s w).1 = None;
  logger_starts : forall l w, (logger_new env l w).1 = None;
  dut_connects : forall d w, (dut_new env d w).1 = None
}.

(** ** The events of one statement *)

Section Shapes.

Context {W prod : Type}.
Variable env : collaborators W prod.

(** Lines 211 to 213: the statement is written to [ssquery.current]. *)
Definition opening (gen : prod) : list (event prod) :=
  [Open "ssquery.current";
   Write "ssquery.current" (out env gen +:+ ";" +:+ endl);
   Close "ssquery.current"].

(** What precedes the execution of [gen] when no [generated] hook raises:
    lines 196 to 213. *)
Definition prelude (loggers : list logger) (gen : prod) : list (event prod) :=
  Factory (inr gen) :: map (fun l => Generated l gen None) loggers ++
  Write "allqueries.log" (out env gen +:+ ";" +:+ endl) :: opening gen.

(** What follows a successful execution of [gen] when no [executed] hook
    raises: lines 216 to 221. *)
Definition epilogue (loggers : list logger) (gen : prod) (start stop : Z)
  : list (event prod) :=
  map (fun l => Executed l gen None) loggers ++
  [Timing start stop; Write "ssquery.log" (out env gen +:+ ";" +:+ endl)].

(** How lines 210 to 234 end, from what the execution raised. *)
Definition verdict (raised : option exn) : completion unit :=
  match raised with
  | Some e => if is_broken e then Throw e else Normal tt
  | None => Normal tt
  end.

(** What follows the execution of [gen] in the run of lines 196 to 234,
    from what the execution raised: the successful end of the [try] block,
    or the events of the handler, which calls the error hook of every
    logger. *)
Definition follows (loggers : list logger) (gen : prod)
    (raised : option exn) (tail : list (event prod)) : Prop :=
  match raised with
  | None => exists start stop, tail = epilogue loggers gen start stop
  | Some e =>
      is_failure e = true /\
      Forall of_classify tail /\
      notices tail = map (pair on_error) loggers
  end.

(** The events of a statement that was generated, executed and
    classified. *)
Definition block (loggers : list logger) (dut : dut_base)
    (raised : option exn) (t : list (event prod)) : Prop :=
  exists gen tail,
    t = prelude loggers gen ++ Test dut (out env gen) raised :: tail /\
    follows loggers gen raised tail.

(** Did the execution raise a [dut::broken]? *)
Definition broken (raised : option exn) : bool :=
  match raised with
  | Some e => is_broken e
  | None => false
  end.

(** Lines 237 to 240. *)
Definition backoff (raised : option exn) : list (event prod) :=
  if broken raised then [Sleep 1000] else [].

(** The events of one statement in the outer loop: its block, and the
    backoff when the execution raised a [dut::broken]. *)
Definition round (loggers : list logger) (dut : dut_base)
    (raised : option exn) (t : list (event prod)) : Prop :=
  exists b, block loggers dut raised b /\ t = b ++ backoff raised.

(** [raised] is something the DUT does to some statement in some world. *)
Definition can_raise (dut : dut_base) (raised : option exn) : Prop :=
  exists stmt w, (test env dut stmt w).1 = raised.

(** Lines 189 to 190: the last report, when there is a [cerr_logger]. *)
Definition last_report (g : bool) : list (event prod) :=
  if g then [Report None] else [].

End Shapes.

(** ** What the options configure *)

Section Configured.

Variable cfg : build.
Variable options : gmap string string.

(** The schema lines 100 to 118 construct. *)
Definition configured_schema : schema :=
  if count options "sqlite" then schema_sqlite (opt options "sqlite")
  else if count options "monetdb" then schema_monetdb (opt options "monetdb")
  else schema_pqxx (opt options "target").

(** The loggers lines 127 to 144 construct, in the order of the vector. *)
Definition configured_loggers : list logger :=
  [impedance_feedback] ++
  (if count options "log-to" then
     [pqxx_logger
        (if count options "sqlite" then opt options "sqlite"
         else opt options "target")
        (opt options "log-to") configured_schema]
   else []) ++
  (if count options "verbose" then [cerr_logger] else []) ++
  (if count options "dump-all-graphs" then [ast_logger] else []).

(** The DUT lines 165 to 178 construct. *)
Definition configured_dut : dut_base :=
  if count options "sqlite" then dut_sqlite (opt options "sqlite")
  else if count options "monetdb" then dut_monetdb (opt options "monetdb")
  else dut_pqxx (opt options "target").

(** The options let [main] reach line 148: no help, no version, SQLite
    only where it is built in, and a seed that is a number. *)
Record starts : Prop := Starts {
  no_help : count options "help" = false;
  no_version : count options "version" = false;
  sqlite_built : count options "sqlite" = true -> HAVE_LIBSQLITE3 cfg = true;
  seed_parses :
    count options "seed" = true -> exists n, stoi (opt options "seed") = inr n
}.

(** The options ask for statements to be executed. *)
Definition executes : Prop := starts /\ count options "dry-run" = false.

End Configured.

(** ** Classes of events *)

(** Every event [m] records is a [P]. *)
Definition emits {W prod A} (P : event prod -> Prop) (m : M W prod A) : Prop :=
  forall s, Forall P (events (m s)).

(** [m] does not complete normally. *)
Definition never_returns {W prod A} (m : M W prod A) : Prop :=
  forall s a, outcome (m s) <> Normal a.

(** The events of lines 99 to 144. *)
Definition of_set_up {prod} (ev : event prod) : Prop :=
  match ev with
  | NewSchema _ _ | FillScope _ _ | NewLogger _ _ | Cerr _ | Cout _
  | Signal => True
  | _ => False
  end.

(** The events of the dry-run loop. *)
Definition of_dry_run {prod} (ev : event prod) : Prop :=
  match ev with
  | Factory _ | Generated _ _ _ | Cout _ => True
  | _ => False
  end.

(** The events of lines 148 to 243. *)
Definition of_run {prod} (ev : event prod) : Prop :=
  match ev with
  | NewSchema _ _ | FillScope _ _ | NewLogger _ _ | Signal | Seed _ => False
  | _ => True
  end.

(** The events of the two loops of lines 183 to 241. *)
Definition of_loop {prod} (ev : event prod) : Prop :=
  match ev with
  | NewSchema _ _ | FillScope _ _ | NewLogger _ _ | Signal | Seed _
  | NewDut _ _ | Cout _ => False
  | _ => True
  end.

(** When [m] returns from [main], the status is a [Q]. *)
Definition exits {W prod A} (Q : Z -> Prop) (m : M W prod A) : Prop :=
  forall s n, outcome (m s) = Exit n -> Q n.

(** An event that is not the execution of a statement. *)
Definition untested {prod} (ev : event prod) : Prop := tested ev = None.

(** An event that is neither the construction of a DUT nor an
    execution. *)
Definition off_line {prod} (ev : event prod) : Prop :=
  connected ev = None /\ tested ev = None.

(** A run that ends by an exception or a non-zero status does so before
    any statement is executed. *)
Definition quits_untested {W prod A} (r : result W prod A) : Prop :=
  match outcome r with
  | Throw _ => tests (events r) = []
  | Exit n => n <> 0 -> tests (events r) = []
  | _ => True
  end.

(** The statuses the [return]s of the outer [try] block give: 0, or 1
    where SQLite is asked for and not built in. *)
Definition status_of_body (cfg : build) (options : gmap string string)
    (n : Z) : Prop :=
  n = 0 \/
  n = 1 /\ count options "sqlite" = true /\ HAVE_LIBSQLITE3 cfg = false.

(** How the inner loop can end: out of fuel, by a broken session, or by
    the ceiling. *)
Definition ends_session (o : completion unit) : Prop :=
  match o with
  | Normal _ => False
  | Throw e => is_broken e = true
  | Exit n => n = 0
  | OutOfFuel => True
  end.

(** How the outer loop can end: out of fuel, or by the ceiling. *)
Definition ends_run (o : completion unit) : Prop :=
  match o with
  | Exit n => n = 0
  | OutOfFuel => True
  | _ => False
  end.

(** ** The process and its exit status *)

(** Is the handler of SIGINT installed, line 140? *)
Fixpoint installs {prod} (t : list (event prod)) : bool :=
  match t with
  | [] => false
  | Signal :: _ => true
  | _ :: t' => installs t'
  end.

(** The exception an event records as raised by the construction of the
    schema or by the filling of the scope. *)
Definition load_failure {prod} (ev : event prod) : option exn :=
  match ev with
  | NewSchema _ raised | FillScope _ raised => raised
  | _ => None
  end.

(** An event that is neither an execution nor a sleep. *)
Definition idle {prod} (ev : event prod) : Prop :=
  tested ev = None /\ slept ev = None.

(** One sleep of 1000 ms for each execution that broke the session, and no
    other. *)
Definition heals {prod} (t : list (event prod)) : Prop :=
  sleeps t =
    map (fun _ => 1000) (filter (fun raised => broken raised = true) (tests t)).

Section Process.

Context {W prod : Type}.
Variable cfg : build.
Variable env : collaborators W prod.
Variable options : gmap string string.
Variable pid : Z.

(** The process: [main], and the handler of SIGINT when the signal arrives
    ([sigint]) while [main] is in one of its loops, which is where the
    fuel leaves a run, and line 140 has installed the handler. Without the
    handler the signal kills the process, which then has no exit status:
    this is left out. *)
Definition process (sigint : bool) (fuel : nat) : M W prod unit :=
  fun s =>
    let r := main cfg env options pid fuel s in
    match outcome r with
    | OutOfFuel =>
        if sigint && installs (events r)
        then after (events r) (cerr_log_handler env (final r))
        else r
    | _ => r
    end.

End Process.

(** ** A claim as it is stated *)

(** The process ends with a non-zero status only when the schema could not
    be loaded (its construction or the filling of the scope raised, or it
    is an SQLite schema in a build without SQLite) or when an exception
    left the outer [try] block. *)
Definition nonzero_only_on_failure {W prod} (cfg : build)
    (env : collaborators W prod) (options : gmap string string) (pid : Z)
    (sigint : bool) (fuel : nat) (s : state W) : Prop :=
  forall n,
    outcome (process cfg env options pid sigint fuel s) = Exit n -> n <> 0 ->
    project load_failure
      (events (process cfg env options pid sigint fuel s)) <> [] \/
    (count options "sqlite" = true /\ HAVE_LIBSQLITE3 cfg = false) \/
    (exists e, outcome (main_body cfg env options pid fuel s) = Throw e).

(** ** Regular expressions

    [main] recognises its arguments with a regular expression of the
    ECMAScript grammar, matched by [std::regex] or, where [config.h]
    defines [HAVE_BOOST_REGEX], by Boost (lines 7 to 14). The expression
    uses literal characters, [.], alternation, the greedy [*] and [?], and
    capturing groups. *)

Inductive regex : Type :=
(** the characters of [s], one after the other *)
| Lit (s : string)
(** [.] *)
| Dot
| Seq (r1 r2 : regex)
(** [r1|r2] *)
| Alt (r1 r2 : regex)
(** [r*] *)
| Star (r : regex)
(** [r?] *)
| Opt (r : regex)
(** [(r)], the [n]-th capturing group *)
| Group (n : nat) (r : regex).

(** One way to match a prefix of a string: the prefix, what is left of the
    string, and the text of every group that took part. *)
Record path : Type := Path {
  matched : string;
  rest : string;
  caps : gmap nat string
}.

(** What is left of [s] after its prefix [p], if [p] is one. *)
Fixpoint strip_prefix (p s : string) : option string :=
  match p, s with
  | EmptyString, _ => Some s
  | String a p', String b s' => if Ascii.eqb a b then strip_prefix p' s' else None
  | String _ _, EmptyString => None
  end.

(** The line terminators of a narrow string: line feed and carriage
    return. *)
Definition line_terminator (a : ascii) : bool :=
  Ascii.eqb a "010" || Ascii.eqb a "013".

(** [.] matches any character but a line terminator in [std::regex]; in
    Boost, with the flags [main] leaves at their defaults, it matches any
    character. *)
Definition dot (boost : bool) (a : ascii) : bool :=
  boost || negb (line_terminator a).

(** The iterations of [r*] on [s], [step] being the matcher of [r]: as
    many as possible first, an iteration that matches the empty string
    being refused. Every iteration takes a character, so [fuel], the
    length of [s], is never spent. *)
Fixpoint iterate (step : string -> gmap nat string -> list path)
    (fuel : nat) (s : string) (c : gmap nat string) : list path :=
  match fuel with
  | O => [Path "" s c]
  | S fuel' =>
      (p1 ← step s c;
       match matched p1 with
       | EmptyString => []
       | _ =>
           p2 ← iterate step fuel' (rest p1) (caps p1);
           [Path (matched p1 +:+ matched p2) (rest p2) (caps p2)]
       end) ++
      [Path "" s c]
  end.

(** The ways [r] matches a prefix of [s], in the order a backtracking
    matcher tries them. [c] holds the groups matched so far. The groups of
    a repetition are not reset from one iteration to the next: no
    repetition of [main] holds a group. *)
Fixpoint paths (boost : bool) (r : regex) (s : string) (c : gmap nat string)
  : list path :=
  match r with
  | Lit p =>
      match strip_prefix p s with
      | Some s' => [Path p s' c]
      | None => []
      end
  | Dot =>
      match s with
      | String a s' => if dot boost a then [Path (String a "") s' c] else []
      | EmptyString => []
      end
  | Seq r1 r2 =>
      p1 ← paths boost r1 s c;
      p2 ← paths boost r2 (rest p1) (caps p1);
      [Path (matched p1 +:+ matched p2) (rest p2) (caps p2)]
  | Alt r1 r2 => paths boost r1 s c ++ paths boost r2 s c
  | Star r => iterate (paths boost r) (String.length s) s c
  | Opt r => paths boost r s c ++ [Path "" s c]
  | Group n r =>
      p ← paths boost r s c;
      [Path (matched p) (rest p) (<[n := matched p]> (caps p))]
  end.

(** [regex_match(s, match, r)]: the groups of the first way to match all
    of [s], if there is one. *)
Definition regex_match (boost : bool) (s : string) (r : regex)
  : option (gmap nat string) :=
  caps <$> head (filter (fun p => rest p = "") (paths boost r s ∅)).

(** [match[n]] as a string: empty when the group took no part. *)
Definition sub_match (m : gmap nat string) (n : nat) : string :=
  default "" (m !! n).

(** Line 64: the names of the options. *)
Definition option_names : list string :=
  ["help"; "log-to"; "verbose"; "target"; "sqlite"; "monetdb"; "version";
   "dump-all-graphs"; "seed"; "dry-run"; "max-queries"].

(** Line 64: two dashes, the name of an option as the first group and, if
    an equals sign follows, any characters and line feeds as the second
    group. The compiler has replaced the escape of the string literal by a
    line feed. *)
Definition optregex : regex :=
  Seq (Lit "--")
    (Seq
       (Group 1
          (Alt (Lit "help") (Alt (Lit "log-to") (Alt (Lit "verbose")
          (Alt (Lit "target") (Alt (Lit "sqlite") (Alt (Lit "monetdb")
          (Alt (Lit "version") (Alt (Lit "dump-all-graphs") (Alt (Lit "seed")
          (Alt (Lit "dry-run") (Lit "max-queries"))))))))))))
       (Opt (Seq (Lit "=") (Group 2 (Star (Alt Dot (Lit endl))))))).

(** The characters [(?:.|\n)] matches: all of them for Boost, all but the
    carriage return for [std::regex]. *)
Definition value_char (boost : bool) (a : ascii) : bool :=
  boost || negb (Ascii.eqb a "013").

(** Does [f] hold of every character of [s]? *)
Fixpoint every (f : ascii -> bool) (s : string) : bool :=
  match s with
  | EmptyString => true
  | String a s' => f a && every f s'
  end.

(** ** The options of the command line *)

Section Options.

Context {W prod : Type}.
(** Lines 7 to 14: is the regular expression matched by Boost? *)
Variable HAVE_BOOST_REGEX : bool.

(** Lines 67 to 74, the body of the loop over [argv]. *)
Definition parse_option (options : gmap string string) (arg : string)
  : M W prod (gmap string string) :=
  match regex_match HAVE_BOOST_REGEX arg optregex with
  | Some m => ret (<[sub_match m 1 := sub_match m 2]> options)
  | None =>
      emit (Cerr ("Cannot parse option: " +:+ arg +:+ endl));;
      ret (<["help" := ""]> options)
  end.

(** Lines 66 to 75: [for (char **opt = argv+1; opt < argv+argc; opt++)]. *)
Fixpoint parse_options (args : list string) (options : gmap string string)
  : M W prod (gmap string string) :=
  match args with
  | [] => ret options
  | arg :: args' =>
      options ← parse_option options arg;
      parse_options args' options
  end.

Variable cfg : build.
Variable env : collaborators W prod.
Variable pid : Z.

(** Lines 77 to 250: what [main] does once [options] is filled. [main]
    above is the banner of line 61 followed by this. *)
Definition usage_or_run (options : gmap string string) (fuel : nat)
  : M W prod unit :=
  if count options "help" then emit (Cerr (help_text cfg));; return_ 0
  else if count options "version" then return_ 0
  else
    try_catch (main_body cfg env options pid fuel) is_std_exception
      (fun e => emit (Cerr (what e +:+ endl));; return_ 1);;
    return_ 0.

(** Lines 59 to 250: [main] from its arguments, [argv[0]] being the name
    of the program. *)
Definition main_argv (argv : list string) (fuel : nat) : M W prod unit :=
  emit (Cerr (PACKAGE_NAME cfg +:+ " " +:+ GITREV cfg +:+ endl));;
  options ← parse_options (tail argv) ∅;
  usage_or_run options fuel.

End Options.

(** What an argument assigns in [options]: the option it names and the
    value it gives, or [help] when it cannot be parsed. *)
Definition assignment (boost : bool) (arg : string) : string * string :=
  match regex_match boost arg optregex with
  | Some m => (sub_match m 1, sub_match m 2)
  | None => ("help", "")
  end.

(** The messages of line 72 for the arguments that cannot be parsed. *)
Definition cannot_parse {prod} (boost : bool) (args : list string)
  : list (event prod) :=
  project (fun arg =>
             match regex_match boost arg optregex with
             | Some _ => None
             | None => Some (Cerr ("Cannot parse option: " +:+ arg +:+ endl))
             end) args.

(** The map the loop over [argv] leaves in [options]. *)
Definition options_of (boost : bool) (args : list string)
    (options : gmap string string) : gmap string string :=
  foldl (fun o arg => <[(assignment boost arg).1 := (assignment boost arg).2]> o)
    options args.

(** The values the arguments give to the option [key], in the order of
    the command line. *)
Definition assigned (boost : bool) (key : string) (args : list string)
  : list string :=
  project (fun arg =>
             if decide ((assignment boost arg).1 = key)
             then Some (assignment boost arg).2 else None) args.

(** ** More observations *)

Section Files.

Context {prod : Type}.

(** The file an event closes. *)
Definition closed (ev : event prod) : option string :=
  match ev with
  | Close file => Some file
  | _ => None
  end.

(** The schema an event is the construction of. *)
Definition loaded (ev : event prod) : option schema :=
  match ev with
  | NewSchema s _ => Some s
  | _ => None
  end.

Definition closes (t : list (event prod)) : list string := project closed t.
Definition schemas (t : list (event prod)) : list schema := project loaded t.

(** An event of lines 183 to 241, the two loops. *)
Definition of_rounds (ev : event prod) : Prop :=
  match ev with
  | Factory _ | Generated _ _ _ | Executed _ _ _ | Error _ _ _ _ | Report _
  | Test _ _ _ | Timing _ _ | Cerr _ => True
  | Sleep ms => ms = 1000
  | Open file | Close file => file = "ssquery.current"
  | Write file _ =>
      file = "allqueries.log" \/ file = "ssquery.current" \/ file = "ssquery.log"
  | _ => False
  end.

(** An event of a run that prints its statements: no DUT, no execution, no
    file, no sleep. *)
Definition of_dry_main (ev : event prod) : Prop :=
  match ev with
  | Cerr _ | Cout _ | NewSchema _ _ | FillScope _ _ | NewLogger _ _ | Signal
  | Seed _ | Factory _ | Generated _ _ _ => True
  | _ => False
  end.

End Files.

(** Do the schema and the DUT stand for the same database? *)
Definition same_database (s : schema) (d : dut_base) : Prop :=
  match s, d with
  | schema_sqlite uri, dut_sqlite uri' => uri = uri'
  | schema_monetdb conninfo, dut_monetdb conninfo' => conninfo = conninfo'
  | schema_pqxx conninfo, dut_pqxx conninfo' => conninfo = conninfo'
  | _, _ => False
  end.

(** How [main] can end: with status 0 or 1, by an exception that does not
    derive from [std::exception], or not within the fuel. *)
Definition ends_main (o : completion unit) : Prop :=
  match o with
  | Normal _ => False
  | Throw e => is_std_exception e = false
  | Exit n => n = 0 \/ n = 1
  | OutOfFuel => True
  end.

(** [m] records at most [n] events that [f] observes. *)
Definition at_most {W prod A B} (n : nat) (f : event prod -> option B)
    (m : M W prod A) : Prop :=
  forall s, (length (project f (events (m s))) <= n)%nat.

(** ** The events of a run that meets no failure *)

Section Traces.

Context {W prod : Type}.
Variable cfg : build.
Variable env : collaborators W prod.
Variable options : gmap string string.

(** The connection string of the database lines 100 to 118 choose. *)
Definition database : string :=
  if count options "sqlite" then opt options "sqlite"
  else if count options "monetdb" then opt options "monetdb"
  else opt options "target".

(** Line 61. *)
Definition greeting : event prod :=
  Cerr (PACKAGE_NAME cfg +:+ " " +:+ GITREV cfg +:+ endl).

(** The events of lines 99 to 144 when every constructor returns. *)
Definition set_up_events : list (event prod) :=
  [Cout ("=====: " +:+ database +:+ " :======" +:+ endl);
   NewSchema (configured_schema options) None;
   FillScope (configured_schema options) None] ++
  concat (map (fun l => NewLogger l None ::
                        match l with
                        | cerr_logger => [Signal]
                        | _ => []
                        end)
            (configured_loggers options)).

(** The events of one round of the dry-run loop, lines 150 to 155, when no
    [generated] hook raises. *)
Definition dry_block (loggers : list logger) (gen : prod)
  : list (event prod) :=
  Factory (inr gen) :: Cout (out env gen) ::
  map (fun l => Generated l gen None) loggers ++ [Cout (";" +:+ endl)].

(** The events that precede the two loops in a run that executes its
    statements and is seeded with [n]. *)
Definition preamble (n : Z) : list (event prod) :=
  greeting :: set_up_events ++
  [Seed n; NewDut (configured_dut options) None;
   Open "ssquery.log"; Open "allqueries.log"].

End Traces.

Section Outputs.

Context {prod : Type}.

(** What an event writes to [cout]. *)
Definition printed (ev : event prod) : option string :=
  match ev with
  | Cout text => Some text
  | _ => None
  end.

(** What an event writes to the file [file]. *)
Definition written (file : string) (ev : event prod) : option string :=
  match ev with
  | Write file' text => if decide (file' = file) then Some text else None
  | _ => None
  end.

Definition prints (t : list (event prod)) : list string := project printed t.
Definition writes (file : string) (t : list (event prod)) : list string :=
  project (written file) t.

End Outputs.

(** The number the generator is seeded with. *)
Definition seed_of (options : gmap string string) (pid n : Z) : Prop :=
  if count options "seed" then stoi (opt options "seed") = inr n else n = pid.

(** The ceiling, if there is one, is a [long] below [LONG_MAX] that the
    loop reaches within the fuel. *)
Definition ceiling_within (options : gmap string string) (fuel : nat) : Prop :=
  if count options "max-queries" then
    exists N,
      stol (opt options "max-queries") = inr N /\ N < LONG_MAX /\
      (Z.to_nat N < fuel)%nat
  else True.

Section Lines.

Context {W prod : Type}.
Variable env : collaborators W prod.

(** The line of a statement in the files [main] writes. *)
Definition line (gen : prod) : string := out env gen +:+ ";" +:+ endl.

(** The line of a statement in [ssquery.log], from the statement and what
    its execution raised. *)
Definition accepted (p : prod * option exn) : option string :=
  match p.2 with
  | None => Some (line p.1)
  | Some _ => None
  end.

End Lines.

(** Is every execution in [t] preceded by the record of its statement,
    first in [allqueries.log], then in [ssquery.current], opened, written
    and closed? *)
Inductive journaled {prod : Type} : list (event prod) -> Prop :=
| journaled_nil : journaled []
| journaled_other ev t :
    tested ev = None -> journaled t -> journaled (ev :: t)
| journaled_test d stmt x t :
    journaled t ->
    journaled (Write "allqueries.log" (stmt +:+ ";" +:+ endl) ::
               Open "ssquery.current" ::
               Write "ssquery.current" (stmt +:+ ";" +:+ endl) ::
               Close "ssquery.current" ::
               Test d stmt x :: t).

(** The events [m] records are journaled. *)
Definition journals {W prod A} (m : M W prod A) : Prop :=
  forall s, journaled (events (m s)).

(** [m] leaves the pointer [global_cerr_logger] set when it starts with
    the pointer set or installs the handler of SIGINT. *)
Definition guards {W prod A} (m : M W prod A) : Prop :=
  forall s,
    global_cerr_logger s = true \/ Signal ∈ events (m s) ->
    global_cerr_logger (final (m s)) = true.

(** ** The files

    [main] writes to three files through [std::ofstream]s and never tests
    the state of a stream. Constructing the stream creates or truncates
    the file; when that fails the stream is not open, and whatever is
    inserted into it is dropped without any sign. Every insertion of
    [main] ends with [std::endl], which flushes the stream: what an event
    writes is in the file when the next event takes place. *)

(** A file and the stream on it: what the file holds ([None]: there is no
    such file), and whether the stream is open. *)
Record stream : Type := Stream {
  content : option string;
  is_open : bool
}.

(** The lines [lines], one after the other. *)
Definition joined (lines : list string) : string :=
  foldr String.append "" lines.

Section Streams.

Context {prod : Type}.

(** Can the file be created or truncated, and written? The answer is taken
    to be the same during the whole run. *)
Variable writable : string -> bool.

(** The text [operator<<] gives for the [double]
    [((double)stop - start) / (double) CLOCKS_PER_SEC]. *)
Variable seconds : Z -> Z -> string.

(** Line 220. *)
Definition timing_line (start stop : Z) : string :=
  "-- TIMING " +:+ seconds start stop +:+ " seconds " +:+ endl.

(** What an event inserts into the stream on the file [f]. *)
Definition appended (f : string) (ev : event prod) : option string :=
  match ev with
  | Write f' text => if decide (f' = f) then Some text else None
  | Timing start stop =>
      if decide ("ssquery.log" = f) then Some (timing_line start stop)
      else None
  | _ => None
  end.

(** What an event does to the file [f] and its stream. *)
Definition record_on (f : string) (st : stream) (ev : event prod) : stream :=
  match ev with
  | Open f' =>
      if decide (f' = f) then
        if writable f then Stream (Some "") true
        else Stream (content st) false
      else st
  | Close f' => if decide (f' = f) then Stream (content st) false else st
  | _ =>
      match appended f ev with
      | Some text =>
          if is_open st
          then Stream (Some (default "" (content st) +:+ text)) true
          else st
      | None => st
      end
  end.

(** What the file [f] holds after the events [t], when it held [old]
    before the run. *)
Definition file_after (f : string) (old : option string)
    (t : list (event prod)) : option string :=
  content (foldl (record_on f) (Stream old false) t).

(** An event that neither opens nor closes a stream on [f]. *)
Definition steady (f : string) (ev : event prod) : Prop :=
  match ev with
  | Open f' | Close f' => f' <> f
  | _ => True
  end.

End Streams.

(** What [ssquery.log] receives for a statement whose execution
    succeeded, lines 220 and 221: the timing, from the two readings [tm]
    of the clock, and the line of the statement. *)
Definition log_entry (seconds : Z -> Z -> string) (tm : Z * Z)
    (line : string) : string :=
  timing_line seconds tm.1 tm.2 +:+ line.

(** The events of [main] up to the two loops, which execute nothing, and
    those of the loops, once the two log files are opened. *)
Definition opens_logs {prod} (t : list (event prod)) : Prop :=
  exists pre loop,
    t = pre ++ loop /\
    Forall untested pre /\
    (loop = [] \/
     exists loop',
       loop = Open "ssquery.log" :: Open "allqueries.log" :: loop' /\
       Forall of_rounds loop' /\ journaled loop').

(** ** Two runs

    What makes two runs of [main] generate the same statements lies
    outside [sqlsmith.cc], in the generator and in everything the
    statement factory reads. It is stated with two relations between the
    worlds of the two runs: [alike] when the worlds differ at most in the
    state of the random generator and in the time, [in_step] when the
    generator is in the same state in both as well. *)

(** [f] returns the same in worlds that [R] relates, and leaves them
    related. *)
Definition respects {W A} (R : relation W) (f : W -> A * W) : Prop :=
  forall w1 w2, R w1 w2 -> (f w1).1 = (f w2).1 /\ R (f w1).2 (f w2).2.

(** The collaborators behave in one run as in the other: what lines 99 to
    144 call does not look at the generator, seeding it with the same
    number brings two generators in step, and from then on every
    collaborator keeps them so and returns the same in both runs, up to
    the readings of the clock. *)
Record reproducible {W prod} (env : collaborators W prod)
    (alike in_step : relation W) : Prop := Reproducible {
  schema_new_alike : forall s, respects alike (schema_new env s);
  fill_scope_alike : forall s, respects alike (fill_scope env s);
  logger_new_alike : forall l, respects alike (logger_new env l);
  rng_seed_in_step :
    forall n w1 w2, alike w1 w2 -> in_step (rng_seed env n w1) (rng_seed env n w2);
  statement_factory_in_step : respects in_step (statement_factory env);
  generated_in_step : forall l gen, respects in_step (generated env l gen);
  executed_in_step : forall l gen, respects in_step (executed env l gen);
  error_in_step : forall l gen e, respects in_step (error env l gen e);
  report_in_step : respects in_step (report env);
  dut_new_in_step : forall d, respects in_step (dut_new env d);
  test_in_step : forall d stmt, respects in_step (test env d stmt);
  clock_in_step :
    forall w1 w2, in_step w1 w2 -> in_step (clock env w1).2 (clock env w2).2;
  sleep_for_in_step :
    forall ms w1 w2,
      in_step w1 w2 -> in_step (sleep_for env ms w1) (sleep_for env ms w2)
}.

(** An event without the readings of the clock. *)
Definition untimed {prod} (ev : event prod) : event prod :=
  match ev with
  | Timing _ _ => Timing 0 0
  | _ => ev
  end.

Section Parallel.

Context {W prod : Type}.
Variable R : relation W.

(** Two states with the same values of the variables of [main], in worlds
    that [R] relates. *)
Definition agree (s1 s2 : state W) : Prop :=
  R (world s1) (world s2) /\
  queries_generated s1 = queries_generated s2 /\
  global_cerr_logger s1 = global_cerr_logger s2.

(** Two runs that end the same way, with values that [Q] relates, after
    the same events up to the readings of the clock. *)
Definition same_run {A} (Q : A -> A -> Prop) (r1 r2 : result W prod A)
  : Prop :=
  match outcome r1, outcome r2 with
  | Normal a1, Normal a2 => Q a1 a2
  | Throw e1, Throw e2 => e1 = e2
  | Exit n1, Exit n2 => n1 = n2
  | OutOfFuel, OutOfFuel => True
  | _, _ => False
  end /\
  map untimed (events r1) = map untimed (events r2).

(** [m1] and [m2] run the same from states that agree, and leave states
    that agree. *)
Definition parallel {A} (Q : A -> A -> Prop) (m1 m2 : M W prod A) : Prop :=
  forall s1 s2,
    agree s1 s2 ->
    same_run Q (m1 s1) (m2 s2) /\ agree (final (m1 s1)) (final (m2 s2)).

End Parallel.

(** * Properties *)

(** ** The monad *)

Section Laws.

Context {W prod : Type}.

Local Abbreviation M := (M W prod).

Lemma after_nil {A} (r : result W prod A) : after [] r = r.
Proof. by destruct r. Qed.

Lemma after_after {A} (t1 t2 : list (event prod)) (r : result W prod A) :
  after t1 (after t2 r) = after (t1 ++ t2) r.
Proof. unfold after; simpl. by rewrite app_assoc. Qed.

Lemma bind_normal {A B} (m : M A) (f : A -> M B) s a t s' :
  m s = Result (Normal a) t s' -> (m ≫= f) s = after t (f a s').
Proof. intros H. unfold mbind, M_bind, bind. by rewrite H. Qed.

Lemma bind_throw {A B} (m : M A) (f : A -> M B) s e t s' :
  m s = Result (Throw e) t s' -> (m ≫= f) s = Result (Throw e) t s'.
Proof. intros H. unfold mbind, M_bind, bind. by rewrite H. Qed.

Lemma bind_exit {A B} (m : M A) (f : A -> M B) s n t s' :
  m s = Result (Exit n) t s' -> (m ≫= f) s = Result (Exit n) t s'.
Proof. intros H. unfold mbind, M_bind, bind. by rewrite H. Qed.

Lemma bind_out_of_fuel {A B} (m : M A) (f : A -> M B) s t s' :
  m s = Result OutOfFuel t s' -> (m ≫= f) s = Result OutOfFuel t s'.
Proof. intros H. unfold mbind, M_bind, bind. by rewrite H. Qed.

Lemma try_catch_normal {A} (m : M A) handles h s a t s' :
  m s = Result (Normal a) t s' ->
  try_catch m handles h s = Result (Normal a) t s'.
Proof. intros H. unfold try_catch. by rewrite H. Qed.

Lemma try_catch_caught {A} (m : M A) handles h s e t s' :
  m s = Result (Throw e) t s' -> handles e = true ->
  try_catch m handles h s = after t (h e s').
Proof. intros H He. unfold try_catch. rewrite H; simpl. by rewrite He. Qed.

Lemma try_catch_passed {A} (m : M A) handles h s e t s' :
  m s = Result (Throw e) t s' -> handles e = false ->
  try_catch m handles h s = Result (Throw e) t s'.
Proof. intros H He. unfold try_catch. rewrite H; simpl. by rewrite He. Qed.

Lemma try_catch_exit {A} (m : M A) handles h s n t s' :
  m s = Result (Exit n) t s' ->
  try_catch m handles h s = Result (Exit n) t s'.
Proof. intros H. unfold try_catch. by rewrite H. Qed.

Lemma try_catch_out_of_fuel {A} (m : M A) handles h s t s' :
  m s = Result OutOfFuel t s' ->
  try_catch m handles h s = Result OutOfFuel t s'.
Proof. intros H. unfold try_catch. by rewrite H. Qed.

Lemma call_returns (f : W -> option exn * W) (ev : option exn -> event prod)
    w q g :
  (f w).1 = None ->
  call f ev (State w q g) = Result (Normal tt) [ev None] (State (f w).2 q g).
Proof. unfold call; simpl. destruct (f w) as [r w']; simpl. by intros ->. Qed.

Lemma call_raises (f : W -> option exn * W) (ev : option exn -> event prod)
    w q g e :
  (f w).1 = Some e ->
  call f ev (State w q g) =
    Result (Throw e) [ev (Some e)] (State (f w).2 q g).
Proof. unfold call; simpl. destruct (f w) as [r w']; simpl. by intros ->. Qed.

Lemma bind_emit {A} (ev : event prod) (f : unit -> M A) s :
  (emit ev ≫= f) s = after [ev] (f tt s).
Proof. reflexivity. Qed.

Lemma bind_ret {A B} (a : A) (f : A -> M B) s : (ret a ≫= f) s = f a s.
Proof.
  unfold mbind, M_bind, bind, ret; simpl. apply after_nil.
Qed.

Lemma project_app {A B} (f : A -> option B) (t1 t2 : list A) :
  project f (t1 ++ t2) = project f t1 ++ project f t2.
Proof.
  induction t1 as [|x t1 IH]; simpl; [done|].
  destruct (f x); simpl; by rewrite IH.
Qed.

Lemma project_map_none {A B C} (f : B -> option C) (g : A -> B) (xs : list A) :
  (forall x, f (g x) = None) -> project f (map g xs) = [].
Proof.
  intros H. induction xs as [|x xs IH]; simpl; [done|]. by rewrite H.
Qed.

Lemma project_map_some {A B C} (f : B -> option C) (g : A -> B) (h : A -> C)
    (xs : list A) :
  (forall x, f (g x) = Some (h x)) -> project f (map g xs) = map h xs.
Proof.
  intros H. induction xs as [|x xs IH]; simpl; [done|]. by rewrite H, IH.
Qed.

Lemma project_of_classify {C} (f : event prod -> option C)
    (t : list (event prod)) :
  (forall ev, of_classify ev -> f ev = None) ->
  Forall of_classify t -> project f t = [].
Proof.
  intros H Ht. induction Ht as [|ev t Hev _ IH]; simpl; [done|].
  by rewrite (H ev Hev).
Qed.

Lemma bind_assoc {A B C} (m : M A) (f : A -> M B) (k : B -> M C) s :
  ((m ≫= f) ≫= k) s = (m ≫= fun a => f a ≫= k) s.
Proof.
  unfold mbind, M_bind, bind.
  destruct (m s) as [[a|e|n|] t s']; simpl; try reflexivity.
  destruct (f a s') as [[b|e|n|] t' s'']; simpl; try reflexivity.
  unfold after; simpl. by rewrite app_assoc.
Qed.

Lemma bind_set_global_cerr_logger {A} b (k : unit -> M A) w q g :
  (set_global_cerr_logger b ≫= k) (State w q g) = k tt (State w q b).
Proof.
  unfold mbind, M_bind, bind, set_global_cerr_logger; simpl. apply after_nil.
Qed.

Lemma bind_set_queries_generated {A} n (k : unit -> M A) w q g :
  (set_queries_generated n ≫= k) (State w q g) = k tt (State w n g).
Proof.
  unfold mbind, M_bind, bind, set_queries_generated; simpl. apply after_nil.
Qed.

Lemma bind_get_queries_generated {A} (k : Z -> M A) w q g :
  (get_queries_generated ≫= k) (State w q g) = k q (State w q g).
Proof.
  unfold mbind, M_bind, bind, get_queries_generated; simpl. apply after_nil.
Qed.

(** A loop over hooks that all return. *)
Lemma for_each_returns {A} (f : A -> W -> option exn * W)
    (ev : A -> option exn -> event prod) (xs : list A) w q g :
  (forall x w, (f x w).1 = None) ->
  exists w',
    for_each xs (fun x => call (f x) (ev x)) (State w q g) =
      Result (Normal tt) (map (fun x => ev x None) xs) (State w' q g).
Proof.
  intros Hf. revert w. induction xs as [|x xs IH]; intros w; simpl.
  - by exists w.
  - destruct (IH (f x w).2) as [w' Hw'].
    exists w'. unfold bind. rewrite (call_returns _ _ _ _ _ (Hf x w)); simpl.
    rewrite Hw'. reflexivity.
Qed.

End Laws.

(** ** One statement *)

Ltac step H := rewrite (bind_normal _ _ _ _ _ _ H).

Section Statement.

Context {W prod : Type}.
Variable env : collaborators W prod.
Variable options : gmap string string.

Local Abbreviation M := (M W prod).

Lemma log_error_returns gen e l w q g :
  (forall e', (error env l gen e w).1 = Some e' -> is_runtime_error e' = true) ->
  exists t,
    log_error env gen e l (State w q g) =
      Result (Normal tt) (Error l gen e (error env l gen e w).1 :: t)
        (State (error env l gen e w).2 q g) /\
    Forall of_classify t /\ notices t = [].
Proof.
  intros Hrt. unfold log_error.
  destruct (error env l gen e w).1 as [e'|] eqn:Hr.
  - eexists. split; [|split].
    + erewrite try_catch_caught;
        [| apply call_raises; exact Hr | by apply Hrt ].
      unfold after, emit; simpl. reflexivity.
    + by repeat constructor.
    + reflexivity.
  - exists []. split; [|split]; [| constructor | reflexivity].
    erewrite try_catch_normal; [| apply call_returns; exact Hr ].
    reflexivity.
Qed.

(** The handler notifies every logger, whatever their error hooks do, as
    long as what they raise is a [runtime_error]. *)
Lemma classify_notifies loggers gen e w q g :
  (forall l w e',
     (error env l gen e w).1 = Some e' -> is_runtime_error e' = true) ->
  exists t w',
    for_each loggers (log_error env gen e) (State w q g) =
      Result (Normal tt) t (State w' q g) /\
    Forall of_classify t /\
    notices t = map (pair on_error) loggers.
Proof.
  intros Hrt. revert w. induction loggers as [|l ls IH]; intros w; simpl.
  - exists [], w. by repeat split.
  - destruct (log_error_returns gen e l w q g (Hrt l w)) as (t1 & H1 & Ht1 & Hn1).
    destruct (IH (error env l gen e w).2) as (t2 & w' & H2 & Ht2 & Hn2).
    eexists _, w'. unfold bind. rewrite H1; simpl. rewrite H2; simpl.
    split; [reflexivity|]. split.
    + constructor; [done|]. by apply Forall_app.
    + unfold notices in *. simpl. rewrite project_app, Hn1, Hn2. reflexivity.
Qed.

Lemma factory_builds_one w q g :
  well_behaved env ->
  exists gen w',
    factory env (State w q g) =
      Result (Normal gen) [Factory (inr gen)] (State w' q g).
Proof.
  intros Hwb. destruct (factory_builds env Hwb w) as [gen Hgen].
  exists gen, (statement_factory env w).2.
  unfold factory; simpl.
  destruct (statement_factory env w) as [r w']; simpl in *.
  by subst r.
Qed.

Lemma get_clock_reads w q g :
  get_clock env (State w q g) =
    Result (Normal (clock env w).1) [] (State (clock env w).2 q g).
Proof. unfold get_clock; simpl. by destruct (clock env w). Qed.

Lemma execute_raises loggers dut gen w q g e :
  (test env dut (out env gen) (clock env w).2).1 = Some e ->
  execute env loggers dut gen (State w q g) =
    Result (Throw e) (opening env gen ++ [Test dut (out env gen) (Some e)])
      (State (test env dut (out env gen) (clock env w).2).2 q g).
Proof.
  intros He. unfold execute. do 3 rewrite bind_emit.
  step (get_clock_reads w q g).
  rewrite (bind_throw _ _ _ _ _ _ (call_raises (prod:=prod) _ _ _ _ _ _ He)).
  reflexivity.
Qed.

Lemma execute_returns loggers dut gen w q g :
  well_behaved env ->
  (test env dut (out env gen) (clock env w).2).1 = None ->
  exists stop w',
    execute env loggers dut gen (State w q g) =
      Result (Normal tt)
        (opening env gen ++ Test dut (out env gen) None ::
         epilogue env loggers gen (clock env w).1 stop)
        (State w' q g).
Proof.
  intros Hwb He.
  destruct (for_each_returns (fun l => executed env l gen)
              (fun l => Executed l gen) loggers
              (test env dut (out env gen) (clock env w).2).2 q g
              (fun l w => executed_returns env Hwb l gen w)) as [w2 Hw2].
  exists (clock env w2).1, (clock env w2).2.
  unfold execute. do 3 rewrite bind_emit. step (get_clock_reads w q g).
  step (call_returns (prod:=prod) _ (Test dut (out env gen)) _ q g He).
  step Hw2. step (get_clock_reads w2 q g). rewrite bind_emit.
  unfold after, emit, epilogue; simpl. reflexivity.
Qed.

(** Lines 210 to 234: the execution of [gen] and the classification of
    its outcome. [start] is the reading of the clock that precedes the
    execution. *)
Lemma execute_cases loggers dut gen w q g :
  well_behaved env -> dut_raises_failures env ->
  let start := (clock env w).1 in
  let raised := (test env dut (out env gen) (clock env w).2).1 in
  exists tail w',
    try_catch (execute env loggers dut gen) is_failure
      (classify env loggers gen) (State w q g) =
      Result (verdict raised)
        (opening env gen ++ Test dut (out env gen) raised :: tail)
        (State w' q g) /\
    match raised with
    | None => exists stop, tail = epilogue env loggers gen start stop
    | Some e =>
        is_failure e = true /\
        Forall of_classify tail /\
        notices tail = map (pair on_error) loggers
    end.
Proof.
  intros Hwb Hdut start raised.
  destruct raised as [e|] eqn:Hraised; subst raised.
  - pose proof (Hdut _ _ _ _ Hraised) as Hfail.
    destruct (classify_notifies loggers gen e
                (test env dut (out env gen) (clock env w).2).2 q g
                (fun l w e' => error_raises_runtime_error env Hwb l gen e w e'))
      as (tail & w' & Hrun & Htail & Hnotices).
    exists tail, w'. split; [|done].
    rewrite (try_catch_caught _ _ _ _ _ _ _
               (execute_raises loggers dut gen w q g e Hraised) Hfail).
    unfold classify. step Hrun.
    unfold after; simpl.
    destruct (is_broken e); simpl; by rewrite app_nil_r.
  - destruct (execute_returns loggers dut gen w q g Hwb Hraised)
      as (stop & w' & Hrun).
    exists (epilogue env loggers gen start stop), w'.
    split; [|by exists stop].
    by rewrite (try_catch_normal _ _ _ _ _ _ _ Hrun).
Qed.

(** Lines 196 to 234 when factory and loggers are well behaved: the
    statement is generated, announced, written down and executed once, and
    what follows depends on what the execution raised. *)
Lemma generate_and_test_cases loggers dut w q g :
  well_behaved env -> dut_raises_failures env ->
  exists raised t w',
    generate_and_test env loggers dut (State w q g) =
      Result (verdict raised) t (State w' q g) /\
    block env loggers dut raised t /\ can_raise env dut raised.
Proof.
  intros Hwb Hdut.
  destruct (factory_builds_one w q g Hwb) as (gen & w1 & Hgen).
  destruct (for_each_returns (fun l => generated env l gen)
              (fun l => Generated l gen) loggers w1 q g
              (fun l w => generated_returns env Hwb l gen w)) as [w2 Hw2].
  destruct (execute_cases loggers dut gen w2 q g Hwb Hdut)
    as (tail & w' & Hrun & Htail).
  exists (test env dut (out env gen) (clock env w2).2).1.
  eexists _, w'. split.
  - unfold generate_and_test. step Hgen. step Hw2. rewrite bind_emit.
    rewrite Hrun. unfold after; simpl. reflexivity.
  - split; [|by eexists _, _].
    exists gen, tail. split.
    + unfold prelude; simpl. by rewrite <- app_assoc.
    + unfold follows.
      destruct (test env dut (out env gen) (clock env w2).2).1; [done|].
      destruct Htail as [stop ->]. by eexists _, _.
Qed.

End Statement.

(** ** What the events of a statement show *)

Section Blocks.

Context {W prod : Type}.
Variable env : collaborators W prod.

Ltac open_block H :=
  destruct H as (?gen & ?tail & -> & ?Htail);
  unfold statements, tests, sleeps, connections, seeds, timings, notices;
  unfold prelude; rewrite project_app; simpl; rewrite project_app.

Ltac close_block raised Htail :=
  unfold follows in Htail;
  destruct raised as [?e|];
  [ destruct Htail as (_ & ?Hclass & ?Hnotices)
  | destruct Htail as (?start & ?stop & ->);
    unfold epilogue; rewrite project_app; simpl ].

Lemma block_statements loggers dut raised t :
  block env loggers dut raised t -> length (statements t) = 1%nat.
Proof.
  intros H. open_block H. rewrite project_map_none by done. simpl.
  close_block raised Htail.
  - by rewrite project_of_classify; [| intros [] | ].
  - by rewrite project_map_none.
Qed.

Lemma block_tests loggers dut raised t :
  block env loggers dut raised t -> tests t = [raised].
Proof.
  intros H. open_block H. rewrite project_map_none by done. simpl.
  close_block raised Htail.
  - by rewrite project_of_classify; [| intros [] | ].
  - by rewrite project_map_none.
Qed.

Lemma block_sleeps loggers dut raised t :
  block env loggers dut raised t -> sleeps t = [].
Proof.
  intros H. open_block H. rewrite project_map_none by done. simpl.
  close_block raised Htail.
  - by rewrite project_of_classify; [| intros [] | ].
  - by rewrite project_map_none.
Qed.

Lemma block_connections loggers dut raised t :
  block env loggers dut raised t -> connections t = [].
Proof.
  intros H. open_block H. rewrite project_map_none by done. simpl.
  close_block raised Htail.
  - by rewrite project_of_classify; [| intros [] | ].
  - by rewrite project_map_none.
Qed.

Lemma block_timings loggers dut raised t :
  block env loggers dut raised t ->
  length (timings t) = match raised with Some _ => 0%nat | None => 1%nat end.
Proof.
  intros H. open_block H. rewrite project_map_none by done. simpl.
  close_block raised Htail.
  - by rewrite project_of_classify; [| intros [] | ].
  - by rewrite project_map_none.
Qed.

Lemma block_notices loggers dut raised t :
  block env loggers dut raised t ->
  notices t =
    map (pair on_generated) loggers ++
    map (pair match raised with Some _ => on_error | None => on_executed end)
      loggers.
Proof.
  intros H. open_block H.
  rewrite (project_map_some _ _ (pair on_generated)) by done. simpl.
  rewrite app_nil_r. f_equal. close_block raised Htail.
  - exact Hnotices.
  - rewrite (project_map_some _ _ (pair on_executed)) by done. simpl.
    by rewrite app_nil_r.
Qed.

End Blocks.

(** ** The statement-count ceiling *)

Lemma wrap_long_in_range z : LONG_MIN <= z <= LONG_MAX -> wrap_long z = z.
Proof.
  unfold wrap_long, LONG_MIN, LONG_MAX. intros H.
  rewrite Z.mod_small; lia.
Qed.

Lemma stol_in_range s n : stol s = inr n -> LONG_MIN <= n <= LONG_MAX.
Proof.
  unfold stol, stoa. destruct (strtol s) as [v|]; [|done].
  destruct (LONG_MIN <=? v) eqn:Hlo; destruct (v <=? LONG_MAX) eqn:Hhi;
    simpl; intros [= <-]; lia.
Qed.

Section Ceiling.

Context {W prod : Type}.
Variable env : collaborators W prod.
Variable options : gmap string string.

Lemma check_ceiling_off w q g :
  count options "max-queries" = false ->
  check_ceiling env options (State w q g) = Result (Normal tt) [] (State w q g).
Proof. intros H. unfold check_ceiling. by rewrite H. Qed.

Lemma check_ceiling_invalid w q g e :
  count options "max-queries" = true ->
  stol (opt options "max-queries") = inl e ->
  check_ceiling env options (State w q g) =
    Result (Throw e) [] (State w (wrap_long (q + 1)) g).
Proof. intros H He. unfold check_ceiling. rewrite H, He. reflexivity. Qed.

Lemma check_ceiling_below w q g n :
  count options "max-queries" = true ->
  stol (opt options "max-queries") = inr n ->
  wrap_long (q + 1) <= n ->
  check_ceiling env options (State w q g) =
    Result (Normal tt) [] (State w (wrap_long (q + 1)) g).
Proof.
  intros H Hn Hq. unfold check_ceiling. rewrite H, Hn.
  unfold mbind, M_bind, bind; simpl.
  destruct (n <? wrap_long (q + 1)) eqn:Hlt; [lia|]. reflexivity.
Qed.

Lemma check_ceiling_reached w q g n :
  well_behaved env ->
  count options "max-queries" = true ->
  stol (opt options "max-queries") = inr n ->
  n < wrap_long (q + 1) ->
  check_ceiling env options (State w q g) =
    Result (Exit 0) (last_report g)
      (State (if g then (report env w).2 else w) (wrap_long (q + 1)) g).
Proof.
  intros Hwb H Hn Hq. unfold check_ceiling. rewrite H, Hn.
  unfold mbind, M_bind, bind; simpl.
  destruct (n <? wrap_long (q + 1)) eqn:Hlt; [|lia]. simpl.
  destruct g; simpl; [|reflexivity].
  unfold do_report, call; simpl.
  pose proof (report_returns env Hwb w) as Hr.
  destruct (report env w) as [r w']; simpl in *. by subst r.
Qed.

End Ceiling.

(** ** The loops *)

Section Loop.

Context {W prod : Type}.
Variable env : collaborators W prod.
Variable options : gmap string string.
Variable loggers : list logger.
Variable dut : dut_base.
Hypothesis Hwb : well_behaved env.
Hypothesis Hdut : dut_raises_failures env.

Lemma verdict_normal raised : broken raised = false -> verdict raised = Normal tt.
Proof. destruct raised as [e|]; simpl; [|done]. by intros ->. Qed.

Lemma verdict_throw raised :
  broken raised = true -> exists e, raised = Some e /\ is_broken e = true /\ verdict raised = Throw e.
Proof.
  destruct raised as [e|]; simpl; [|done]. intros H. exists e. by rewrite H.
Qed.

Section Unbounded.

Hypothesis Hoff : count options "max-queries" = false.

Lemma iteration_unbounded w q g :
  exists raised t w',
    iteration env options loggers dut (State w q g) =
      Result (verdict raised) t (State w' q g) /\
    block env loggers dut raised t /\ can_raise env dut raised.
Proof.
  destruct (generate_and_test_cases env loggers dut w q g Hwb Hdut)
    as (raised & t & w' & Hrun & Hblock & Hcan).
  exists raised, t, w'. split; [|done].
  unfold iteration. step (check_ceiling_off env options w q g Hoff).
  rewrite Hrun. apply after_nil.
Qed.

(** The inner loop without ceiling: statements are generated and executed
    until one breaks the session or the fuel is spent. *)
Lemma inner_loop_unbounded fuel w q g :
  exists outcomes blocks o t w',
    inner_loop env options fuel loggers dut (State w q g) =
      Result o (concat blocks ++ t) (State w' q g) /\
    Forall2 (round env loggers dut) outcomes blocks /\
    Forall (can_raise env dut) outcomes /\
    (o = OutOfFuel /\ t = [] /\ length outcomes = fuel \/
     exists raised e,
       raised = Some e /\ is_broken e = true /\ o = Throw e /\
       block env loggers dut raised t /\ can_raise env dut raised).
Proof.
  revert w. induction fuel as [|fuel IH]; intros w.
  - exists [], [], OutOfFuel, [], w.
    split; [done|]. split; [constructor|]. split; [constructor|]. by left.
  - destruct (iteration_unbounded w q g) as (raised & b & w1 & Hrun & Hb & Hcan).
    destruct (broken raised) eqn:Hbroken.
    + destruct (verdict_throw raised Hbroken) as (e & -> & He & Hv).
      exists [], [], (Throw e), b, w1. simpl.
      rewrite Hv in Hrun. rewrite (bind_throw _ _ _ _ _ _ Hrun).
      split; [done|]. split; [constructor|]. split; [constructor|].
      right. by exists (Some e), e.
    + rewrite (verdict_normal raised Hbroken) in Hrun.
      destruct (IH w1) as (outcomes & blocks & o & t & w' & Hloop & Hrounds & Hcans & Hend).
      exists (raised :: outcomes), (b :: blocks), o, t, w'. simpl.
      step Hrun. rewrite Hloop. unfold after; simpl. rewrite <- app_assoc.
      split; [done|]. split; [|split].
      * constructor; [|done]. exists b. split; [done|].
        unfold backoff. rewrite Hbroken. by rewrite app_nil_r.
      * by constructor.
      * destruct Hend as [(-> & -> & <-)|Hend]; [by left|by right].
Qed.

Lemma sleep_runs ms w q g :
  sleep env ms (State w q g) =
    Result (Normal tt) [Sleep ms] (State (sleep_for env ms w) q g).
Proof. reflexivity. Qed.

(** A session whose inner loop raised [e], a [dut::broken]: the backoff. *)
Lemma session_backoff fuel s e t w q g :
  inner_loop env options fuel loggers dut s = Result (Throw e) t (State w q g) ->
  is_broken e = true ->
  session env options fuel loggers dut s =
    Result (Normal tt) (t ++ [Sleep 1000]) (State (sleep_for env 1000 w) q g).
Proof.
  intros Hrun He. unfold session.
  by rewrite (try_catch_caught _ _ _ _ _ _ _ Hrun He).
Qed.

Lemma round_of_broken raised e b :
  raised = Some e -> is_broken e = true ->
  block env loggers dut raised b ->
  round env loggers dut raised (b ++ [Sleep 1000]).
Proof.
  intros -> He Hb. exists b. split; [done|]. unfold backoff; simpl.
  by rewrite He.
Qed.

(** The outer loop without ceiling never ends: whatever the executions
    raise, it is still running when the fuel is spent, and has gone
    through at least as many statements as it was given fuel. *)
Lemma outer_loop_unbounded fuel w q g :
  exists outcomes rounds w',
    outer_loop env options fuel loggers dut (State w q g) =
      Result OutOfFuel (concat rounds) (State w' q g) /\
    Forall2 (round env loggers dut) outcomes rounds /\
    Forall (can_raise env dut) outcomes /\
    (fuel <= length outcomes)%nat.
Proof.
  revert w. induction fuel as [|fuel IH]; intros w.
  - exists [], [], w. split; [done|]. split; [constructor|].
    split; [constructor|]. done.
  - destruct (inner_loop_unbounded (S fuel) w q g)
      as (outcomes & blocks & o & t & w1 & Hloop & Hrounds & Hcans & Hend).
    destruct Hend as [(-> & -> & Hlen)|(raised & e & Hr & He & -> & Hb & Hcan)].
    + exists outcomes, blocks, w1.
      change (outer_loop env options (S fuel) loggers dut) with
        (session env options (S fuel) loggers dut;;
         outer_loop env options fuel loggers dut).
      unfold session.
      rewrite (bind_out_of_fuel _ _ _ _ _
                 (try_catch_out_of_fuel _ _ _ _ _ _ Hloop)).
      rewrite app_nil_r. split; [done|]. split; [done|]. split; [done|]. lia.
    + destruct (IH (sleep_for env 1000 w1))
        as (outcomes' & rounds' & w' & Hrest & Hrounds' & Hcans' & Hlen).
      exists (outcomes ++ raised :: outcomes'),
             (blocks ++ (t ++ [Sleep 1000]) :: rounds'), w'.
      change (outer_loop env options (S fuel) loggers dut) with
        (session env options (S fuel) loggers dut;;
         outer_loop env options fuel loggers dut).
      step (session_backoff _ _ _ _ _ _ _ Hloop He).
      rewrite Hrest. unfold after; simpl.
      split; [|split; [|split]].
      * rewrite concat_app; simpl. by rewrite <- !app_assoc.
      * apply Forall2_app; [done|]. constructor; [|done].
        by apply (round_of_broken raised e).
      * apply Forall_app. split; [done|]. by constructor.
      * rewrite length_app; simpl. lia.
Qed.

End Unbounded.

Section Bounded.

Variable N : Z.
Hypothesis Hon : count options "max-queries" = true.
Hypothesis Hstol : stol (opt options "max-queries") = inr N.
Hypothesis Hmax : N < LONG_MAX.

Lemma iteration_below w q g :
  0 <= q < N ->
  exists raised t w',
    iteration env options loggers dut (State w q g) =
      Result (verdict raised) t (State w' (q + 1) g) /\
    block env loggers dut raised t /\ can_raise env dut raised.
Proof.
  intros Hq.
  assert (Hwrap : wrap_long (q + 1) = q + 1)
    by (apply wrap_long_in_range; unfold LONG_MIN, LONG_MAX in *; lia).
  destruct (generate_and_test_cases env loggers dut w (q + 1) g Hwb Hdut)
    as (raised & t & w' & Hrun & Hblock & Hcan).
  exists raised, t, w'. split; [|done].
  unfold iteration.
  rewrite (bind_normal _ _ _ _ _ _
             (check_ceiling_below env options w q g N Hon Hstol ltac:(lia))).
  rewrite Hwrap, Hrun. apply after_nil.
Qed.

Lemma iteration_at_ceiling w q g :
  0 <= q -> N <= q < LONG_MAX ->
  exists w',
    iteration env options loggers dut (State w q g) =
      Result (Exit 0) (last_report g) (State w' (q + 1) g).
Proof.
  intros Hq0 Hq.
  assert (Hwrap : wrap_long (q + 1) = q + 1)
    by (apply wrap_long_in_range; unfold LONG_MIN, LONG_MAX in *; lia).
  eexists. unfold iteration.
  rewrite (bind_exit _ _ _ _ _ _
             (check_ceiling_reached env options w q g N Hwb Hon Hstol
                ltac:(lia))).
  by rewrite Hwrap.
Qed.

(** The inner loop under the ceiling [N]: it ends, by the ceiling or by a
    broken session. *)
Lemma inner_loop_bounded fuel w q g :
  0 <= q <= Z.max 0 N -> (Z.to_nat (N - q) < fuel)%nat ->
  exists outcomes blocks o t w' q',
    inner_loop env options fuel loggers dut (State w q g) =
      Result o (concat blocks ++ t) (State w' q' g) /\
    Forall2 (round env loggers dut) outcomes blocks /\
    Forall (can_raise env dut) outcomes /\
    (o = Exit 0 /\ t = last_report g /\
     length outcomes = Z.to_nat (N - q) /\ q' = Z.max q N + 1 \/
     exists raised e,
       raised = Some e /\ is_broken e = true /\ o = Throw e /\
       block env loggers dut raised t /\ can_raise env dut raised /\
       q' = q + Z.of_nat (length outcomes) + 1 /\ q' <= N).
Proof.
  revert w q. induction fuel as [|fuel IH]; intros w q Hq Hfuel; [lia|].
  destruct (Z.lt_ge_cases q N) as [Hlt|Hge].
  - destruct (iteration_below w q g ltac:(lia))
      as (raised & b & w1 & Hrun & Hb & Hcan).
    destruct (broken raised) eqn:Hbroken.
    + destruct (verdict_throw raised Hbroken) as (e & -> & He & Hv).
      exists [], [], (Throw e), b, w1, (q + 1). simpl.
      rewrite Hv in Hrun. rewrite (bind_throw _ _ _ _ _ _ Hrun).
      split; [done|]. split; [constructor|]. split; [constructor|].
      right. exists (Some e), e. repeat split; try done; lia.
    + rewrite (verdict_normal raised Hbroken) in Hrun.
      destruct (IH w1 (q + 1) ltac:(lia) ltac:(lia))
        as (outcomes & blocks & o & t & w' & q' & Hloop & Hrounds & Hcans & Hend).
      exists (raised :: outcomes), (b :: blocks), o, t, w', q'. simpl.
      step Hrun. rewrite Hloop. unfold after; simpl. rewrite <- app_assoc.
      split; [done|]. split; [|split].
      * constructor; [|done]. exists b. split; [done|].
        unfold backoff. rewrite Hbroken. by rewrite app_nil_r.
      * by constructor.
      * destruct Hend as [(-> & -> & Hlen & ->)|(r & e & ? & ? & ? & ? & ? & ? & ?)].
        -- left. repeat split; try done; lia.
        -- right. exists r, e. repeat split; try done; lia.
  - assert (Hq' : q < LONG_MAX) by (unfold LONG_MAX in *; lia).
    destruct (iteration_at_ceiling w q g ltac:(lia) ltac:(lia)) as [w' Hrun].
    exists [], [], (Exit 0), (last_report g), w', (q + 1). simpl.
    rewrite (bind_exit _ _ _ _ _ _ Hrun).
    split; [done|]. split; [constructor|]. split; [constructor|].
    left. repeat split; try done; lia.
Qed.

(** The outer loop under the ceiling [N]: given enough fuel it returns 0
    after [N] statements, whatever their executions raised. *)
Lemma outer_loop_bounded fuel w q g :
  0 <= q <= Z.max 0 N -> (Z.to_nat (N - q) < fuel)%nat ->
  exists outcomes rounds w',
    outer_loop env options fuel loggers dut (State w q g) =
      Result (Exit 0) (concat rounds ++ last_report g)
        (State w' (Z.max q N + 1) g) /\
    Forall2 (round env loggers dut) outcomes rounds /\
    Forall (can_raise env dut) outcomes /\
    length outcomes = Z.to_nat (N - q).
Proof.
  revert w q. induction fuel as [|fuel IH]; intros w q Hq Hfuel; [lia|].
  destruct (inner_loop_bounded (S fuel) w q g Hq Hfuel)
    as (outcomes & blocks & o & t & w1 & q1 & Hloop & Hrounds & Hcans & Hend).
  change (outer_loop env options (S fuel) loggers dut) with
    (session env options (S fuel) loggers dut;;
     outer_loop env options fuel loggers dut).
  destruct Hend as [(-> & -> & Hlen & ->)
                   |(raised & e & Hr & He & -> & Hb & Hcan & Hq1 & Hle)].
  - exists outcomes, blocks, w1. unfold session.
    by rewrite (bind_exit _ _ _ _ _ _ (try_catch_exit _ _ _ _ _ _ _ Hloop)).
  - destruct (IH (sleep_for env 1000 w1) q1 ltac:(lia) ltac:(lia))
      as (outcomes' & rounds' & w' & Hrest & Hrounds' & Hcans' & Hlen).
    exists (outcomes ++ raised :: outcomes'),
           (blocks ++ (t ++ [Sleep 1000]) :: rounds'), w'.
    step (session_backoff _ _ _ _ _ _ _ Hloop He).
    rewrite Hrest. unfold after; simpl.
    replace (Z.max q1 N) with (Z.max q N) by lia.
    split; [|split; [|split]].
    + rewrite concat_app; simpl. by rewrite <- !app_assoc.
    + apply Forall2_app; [done|]. constructor; [|done].
      by apply (round_of_broken raised e).
    + apply Forall_app. split; [done|]. by constructor.
    + rewrite length_app; simpl. lia.
Qed.

End Bounded.
End Loop.

(** ** What the events of a run show *)

Section Rounds.

Context {W prod : Type}.
Variable env : collaborators W prod.
Variable loggers : list logger.
Variable dut : dut_base.

Lemma round_statements raised t :
  round env loggers dut raised t -> length (statements t) = 1%nat.
Proof.
  intros (b & Hb & ->). unfold statements. rewrite project_app.
  fold (statements b). rewrite length_app, (block_statements _ _ _ _ _ Hb).
  unfold backoff. by destruct (broken raised).
Qed.

Lemma round_tests raised t :
  round env loggers dut raised t -> tests t = [raised].
Proof.
  intros (b & Hb & ->). unfold tests. rewrite project_app.
  fold (tests b). rewrite (block_tests _ _ _ _ _ Hb).
  unfold backoff. by destruct (broken raised).
Qed.

Lemma round_sleeps raised t :
  round env loggers dut raised t ->
  sleeps t = if broken raised then [1000] else [].
Proof.
  intros (b & Hb & ->). unfold sleeps. rewrite project_app.
  fold (sleeps b). rewrite (block_sleeps _ _ _ _ _ Hb).
  unfold backoff. by destruct (broken raised).
Qed.

Lemma round_connections raised t :
  round env loggers dut raised t -> connections t = [].
Proof.
  intros (b & Hb & ->). unfold connections. rewrite project_app.
  fold (connections b). rewrite (block_connections _ _ _ _ _ Hb).
  unfold backoff. by destruct (broken raised).
Qed.

Lemma rounds_statements outcomes rounds :
  Forall2 (round env loggers dut) outcomes rounds ->
  length (statements (concat rounds)) = length outcomes.
Proof.
  induction 1 as [|raised t outcomes rounds Hround _ IH]; simpl; [done|].
  unfold statements in *. rewrite project_app, length_app, IH.
  fold (statements t). by rewrite (round_statements _ _ Hround).
Qed.

Lemma rounds_tests outcomes rounds :
  Forall2 (round env loggers dut) outcomes rounds ->
  tests (concat rounds) = outcomes.
Proof.
  induction 1 as [|raised t outcomes rounds Hround _ IH]; simpl; [done|].
  unfold tests in *. rewrite project_app, IH.
  fold (tests t). by rewrite (round_tests _ _ Hround).
Qed.

Lemma rounds_sleeps outcomes rounds :
  Forall2 (round env loggers dut) outcomes rounds ->
  sleeps (concat rounds) = map (fun _ => 1000) (filter (fun r => broken r = true) outcomes).
Proof.
  induction 1 as [|raised t outcomes rounds Hround _ IH]; simpl; [done|].
  unfold sleeps in *. rewrite project_app, IH.
  fold (sleeps t). rewrite (round_sleeps _ _ Hround).
  rewrite filter_cons. by destruct (broken raised).
Qed.

Lemma rounds_connections outcomes rounds :
  Forall2 (round env loggers dut) outcomes rounds ->
  connections (concat rounds) = [].
Proof.
  induction 1 as [|raised t outcomes rounds Hround _ IH]; simpl; [done|].
  unfold connections in *. rewrite project_app, IH.
  fold (connections t). by rewrite (round_connections _ _ Hround).
Qed.

End Rounds.

(** ** The events each part of [main] records *)

Section Emits.

Context {W prod : Type}.
Variable P : event prod -> Prop.

Local Abbreviation M := (M W prod).

Lemma emits_silent {A} (m : M A) : (forall s, events (m s) = []) -> emits P m.
Proof. intros H s. rewrite H. constructor. Qed.

Lemma emits_lift {A} (r : exn + A) : emits P (lift r : M A).
Proof. destruct r; by apply emits_silent. Qed.

Lemma emits_emit ev : P ev -> emits P (emit ev : M unit).
Proof. intros H s; simpl. by repeat constructor. Qed.

Lemma emits_call g ev : (forall r, P (ev r)) -> emits P (call g ev : M unit).
Proof.
  intros H s. unfold call. destruct (g (world s)) as [r w]; simpl.
  by repeat constructor.
Qed.

Lemma emits_bind {A C} (m : M A) (k : A -> M C) :
  emits P m -> (forall a, emits P (k a)) -> emits P (m ≫= k).
Proof.
  intros Hm Hk s. unfold mbind, M_bind, bind.
  specialize (Hm s). destruct (outcome (m s)) as [a| | |]; simpl; try done.
  apply Forall_app. split; [done|apply Hk].
Qed.

Lemma emits_try_catch {A} (m : M A) handles h :
  emits P m -> (forall e, emits P (h e)) -> emits P (try_catch m handles h).
Proof.
  intros Hm Hh s. unfold try_catch.
  specialize (Hm s). destruct (outcome (m s)) as [|e| |]; simpl; try done.
  destruct (handles e); simpl; [|done].
  apply Forall_app. split; [done|apply Hh].
Qed.

Lemma emits_for_each {A} (xs : list A) (k : A -> M unit) :
  (forall x, emits P (k x)) -> emits P (for_each xs k).
Proof.
  intros Hk. induction xs as [|x xs IH]; simpl.
  - by apply emits_silent.
  - apply (emits_bind (k x) (fun _ => for_each xs k)); [apply Hk|done].
Qed.

Lemma emits_if {A} (b : bool) (m1 m2 : M A) :
  emits P m1 -> emits P m2 -> emits P (if b then m1 else m2).
Proof. by destruct b. Qed.

Lemma emits_factory (env : collaborators W prod) :
  (forall r, P (Factory r)) -> emits P (factory env).
Proof.
  intros H s. unfold factory. destruct (statement_factory env (world s)).
  by repeat constructor.
Qed.

Lemma emits_get_clock (env : collaborators W prod) :
  emits P (get_clock (prod:=prod) env).
Proof.
  intros s. unfold get_clock. destruct (clock env (world s)). constructor.
Qed.

Lemma project_emitted {B} (f : event prod -> option B) (t : list (event prod)) :
  (forall ev, P ev -> f ev = None) -> Forall P t -> project f t = [].
Proof.
  intros H Ht. induction Ht as [|ev t Hev _ IH]; simpl; [done|].
  by rewrite (H ev Hev).
Qed.

End Emits.

Ltac emission :=
  repeat first
    [ apply emits_lift
    | apply emits_get_clock
    | apply emits_factory; intros; done
    | apply emits_emit; done
    | apply emits_call; intros; done
    | apply emits_for_each; intros
    | apply emits_try_catch; [|intros]
    | apply emits_bind; [|intros]
    | apply emits_if
    | apply emits_silent; intros; reflexivity ].

Section Parts.

Context {W prod : Type}.
Variable cfg : build.
Variable env : collaborators W prod.
Variable options : gmap string string.
Variable pid : Z.

Lemma set_up_emits : emits of_set_up (set_up cfg env options).
Proof.
  unfold set_up, load_schema, make_loggers, new_schema, new_logger,
    no_sqlite, banner.
  emission.
Qed.

Lemma seed_rng_emits :
  emits (fun ev => exists n, ev = Seed n) (seed_rng env options pid).
Proof.
  unfold seed_rng. emission. intros s. simpl. repeat constructor. by eexists.
Qed.

Lemma dry_run_loop_emits fuel loggers :
  emits of_dry_run (dry_run_loop env options fuel loggers).
Proof.
  induction fuel as [|fuel IH]; simpl; [emission|].
  apply emits_bind; [|done]. unfold dry_run_step. emission.
Qed.

Lemma inner_loop_emits fuel loggers dut :
  emits of_loop (inner_loop env options fuel loggers dut).
Proof.
  induction fuel as [|fuel IH]; simpl; [emission|].
  apply emits_bind; [|done].
  unfold iteration, check_ceiling, generate_and_test, execute, classify,
    log_error, do_report.
  emission.
Qed.

Lemma outer_loop_emits fuel loggers dut :
  emits of_loop (outer_loop env options fuel loggers dut).
Proof.
  induction fuel as [|fuel IH]; [emission|].
  change (outer_loop env options (S fuel) loggers dut) with
    (session env options (S fuel) loggers dut;;
     outer_loop env options fuel loggers dut).
  apply emits_bind; [|done]. unfold session.
  apply emits_try_catch; [apply inner_loop_emits|].
  intros e s. unfold sleep; simpl. by repeat constructor.
Qed.

Lemma emits_weaken {A} (P Q : event prod -> Prop) (m : M W prod A) :
  (forall ev, P ev -> Q ev) -> emits P m -> emits Q m.
Proof. intros HPQ Hm s. eapply Forall_impl; [apply Hm|done]. Qed.

Lemma run_emits fuel loggers : emits of_run (run cfg env options fuel loggers).
Proof.
  unfold run, make_dut, new_dut, no_sqlite.
  apply emits_bind.
  { apply emits_if; [|emission].
    apply (emits_weaken of_dry_run); [by intros []|].
    apply dry_run_loop_emits. }
  intros _. emission.
  apply (emits_weaken of_loop); [by intros []|]. apply outer_loop_emits.
Qed.

End Parts.

(** ** From [main] to the loop *)

Section Setup.

Context {W prod : Type}.
Variable cfg : build.
Variable env : collaborators W prod.
Variable options : gmap string string.
Variable pid : Z.
Hypothesis Hsets : sets_up env.
Hypothesis Hstarts : starts cfg options.

Lemma new_schema_succeeds s w q g :
  new_schema env s (State w q g) =
    Result (Normal s) [NewSchema s None] (State (schema_new env s w).2 q g).
Proof.
  unfold new_schema.
  step (call_returns (prod:=prod) _ (NewSchema s) w q g (schema_loads env Hsets s w)).
  reflexivity.
Qed.

Lemma new_logger_succeeds l w q g :
  new_logger env l (State w q g) =
    Result (Normal l) [NewLogger l None] (State (logger_new env l w).2 q g).
Proof.
  unfold new_logger.
  step (call_returns (prod:=prod) _ (NewLogger l) w q g (logger_starts env Hsets l w)).
  reflexivity.
Qed.

Lemma new_dut_succeeds d w q g :
  new_dut env d (State w q g) =
    Result (Normal d) [NewDut d None] (State (dut_new env d w).2 q g).
Proof.
  unfold new_dut.
  step (call_returns (prod:=prod) _ (NewDut d) w q g (dut_connects env Hsets d w)).
  reflexivity.
Qed.

Lemma load_schema_succeeds w q g :
  exists t w',
    load_schema cfg env options (State w q g) =
      Result (Normal (configured_schema options)) t (State w' q g).
Proof.
  unfold load_schema, configured_schema, banner.
  destruct (count options "sqlite") eqn:Hsqlite.
  - rewrite (sqlite_built cfg options Hstarts Hsqlite).
    rewrite bind_emit, new_schema_succeeds.
    by eexists _, _.
  - destruct (count options "monetdb");
      rewrite bind_emit, new_schema_succeeds; by eexists _, _.
Qed.

Lemma make_loggers_succeeds w q g :
  exists t w',
    make_loggers env options (configured_schema options) (State w q g) =
      Result (Normal (configured_loggers options)) t
        (State w' q (count options "verbose" || g)).
Proof.
  unfold make_loggers, configured_loggers.
  step (new_logger_succeeds impedance_feedback w q g).
  destruct (count options "log-to"), (count options "verbose"),
    (count options "dump-all-graphs"); simpl;
  repeat first
    [ rewrite bind_assoc
    | rewrite bind_ret
    | rewrite bind_emit
    | rewrite (bind_normal (new_logger env _) _ _ _ _ _ (new_logger_succeeds _ _ _ _))
    | rewrite bind_set_global_cerr_logger
    | rewrite new_logger_succeeds ]; by eexists _, _.
Qed.

Lemma set_up_succeeds w q g :
  exists t w',
    set_up cfg env options (State w q g) =
      Result (Normal (configured_loggers options)) t
        (State w' 0 (count options "verbose" || g)).
Proof.
  destruct (load_schema_succeeds w q g) as (t1 & w1 & H1).
  destruct (make_loggers_succeeds (fill_scope env (configured_schema options) w1).2 0 g)
    as (t2 & w2 & H2).
  unfold set_up. step H1.
  rewrite bind_set_queries_generated.
  step (call_returns (prod:=prod) _ (FillScope (configured_schema options)) w1 0 g
          (scope_fills env Hsets (configured_schema options) w1)).
  rewrite H2. by eexists _, _.
Qed.

Lemma make_dut_succeeds w q g :
  make_dut cfg env options (State w q g) =
    Result (Normal (configured_dut options))
      [NewDut (configured_dut options) None]
      (State (dut_new env (configured_dut options) w).2 q g).
Proof.
  unfold make_dut, configured_dut.
  destruct (count options "sqlite") eqn:Hsqlite.
  - rewrite (sqlite_built cfg options Hstarts Hsqlite).
    apply new_dut_succeeds.
  - destruct (count options "monetdb"); apply new_dut_succeeds.
Qed.


Lemma seed_rng_succeeds w q g :
  exists n,
    seed_rng env options pid (State w q g) =
      Result (Normal tt) [Seed n] (State (rng_seed env n w) q g).
Proof.
  unfold seed_rng. destruct (count options "seed") eqn:Hseed.
  - destruct (seed_parses cfg options Hstarts Hseed) as [n Hn].
    exists n. rewrite Hn. simpl. by rewrite bind_ret.
  - exists pid. by rewrite bind_ret.
Qed.

(** With options that ask for statements to be executed, and a schema,
    loggers and a DUT that can be constructed, [main] reaches the outer
    loop, and ends as the loop does when that returns 0 or is still
    running. *)
Lemma main_runs_loop w :
  count options "dry-run" = false ->
  exists pre w0,
    statements pre = [] /\ tests pre = [] /\ sleeps pre = [] /\
    forall fuel o t s',
      outer_loop env options fuel (configured_loggers options)
        (configured_dut options)
        (State w0 0 (count options "verbose")) = Result o t s' ->
      o = Exit 0 \/ o = OutOfFuel ->
      main cfg env options pid fuel (initial w) = Result o (pre ++ t) s'.
Proof.
  intros Hdry.
  destruct (set_up_succeeds w 0 false) as (t1 & w1 & H1).
  destruct (seed_rng_succeeds w1 0 (count options "verbose" || false))
    as (n & Hn).
  pose proof (set_up_emits cfg env options (State w 0 false)) as Ht1.
  rewrite H1 in Ht1; simpl in Ht1.
  rewrite orb_false_r in *.
  exists (Cerr (PACKAGE_NAME cfg +:+ " " +:+ GITREV cfg +:+ endl) ::
          t1 ++ [Seed n; NewDut (configured_dut options) None;
                 Open "ssquery.log"; Open "allqueries.log"]),
    (dut_new env (configured_dut options) (rng_seed env n w1)).2.
  split; [|split; [|split]]; cycle 3.
  - intros fuel o t s' Hloop Ho.
    unfold main. rewrite bind_emit.
    rewrite (no_help cfg options Hstarts), (no_version cfg options Hstarts).
    assert (Hbody : main_body cfg env options pid fuel (initial w) =
              Result o (t1 ++ Seed n :: NewDut (configured_dut options) None ::
                        Open "ssquery.log" :: Open "allqueries.log" :: t) s').
    { unfold main_body, initial. step H1. step Hn. unfold run.
      rewrite Hdry, bind_ret.
      step (make_dut_succeeds (rng_seed env n w1) 0 (count options "verbose")).
      do 2 rewrite bind_emit.
      destruct Ho as [-> | ->].
      - rewrite (bind_exit _ _ _ _ _ _ Hloop). reflexivity.
      - rewrite (bind_out_of_fuel _ _ _ _ _ Hloop). reflexivity. }
    destruct Ho as [-> | ->].
    + rewrite (bind_exit _ _ _ _ _ _ (try_catch_exit _ _ _ _ _ _ _ Hbody)).
      unfold after; simpl. by rewrite <- app_assoc.
    + rewrite (bind_out_of_fuel _ _ _ _ _
                 (try_catch_out_of_fuel _ _ _ _ _ _ Hbody)).
      unfold after; simpl. by rewrite <- app_assoc.
  - unfold statements; simpl. rewrite project_app; simpl.
    rewrite app_nil_r. apply (project_emitted of_set_up); [by intros []|done].
  - unfold tests; simpl. rewrite project_app; simpl.
    rewrite app_nil_r. apply (project_emitted of_set_up); [by intros []|done].
  - unfold sleeps; simpl. rewrite project_app; simpl.
    rewrite app_nil_r. apply (project_emitted of_set_up); [by intros []|done].
Qed.
End Setup.


(** ** The statuses [main] returns *)

Section Exits.

Context {W prod : Type}.
Variable Q : Z -> Prop.

Local Abbreviation M := (M W prod).

Lemma exits_never {A} (m : M A) :
  (forall s n, outcome (m s) <> Exit n) -> exits Q m.
Proof. intros H s n Hn. by destruct (H s n). Qed.

Lemma exits_return {A} n : Q n -> exits Q (return_ n : M A).
Proof. intros H s n'. simpl. by intros [= <-]. Qed.

Lemma exits_lift {A} (r : exn + A) : exits Q (lift r : M A).
Proof. destruct r; by apply exits_never. Qed.

Lemma exits_call g (ev : option exn -> event prod) : exits Q (call g ev : M unit).
Proof.
  apply exits_never. intros s n. unfold call.
  by destruct (g (world s)) as [[e|] w].
Qed.

Lemma exits_factory (env : collaborators W prod) : exits Q (factory env).
Proof.
  apply exits_never. intros s n. unfold factory.
  by destruct (statement_factory env (world s)) as [[e|gen] w].
Qed.

Lemma exits_get_clock (env : collaborators W prod) :
  exits Q (get_clock (prod:=prod) env).
Proof.
  apply exits_never. intros s n. unfold get_clock.
  by destruct (clock env (world s)).
Qed.

Lemma exits_bind {A C} (m : M A) (k : A -> M C) :
  exits Q m -> (forall a, exits Q (k a)) -> exits Q (m ≫= k).
Proof.
  intros Hm Hk s n. unfold mbind, M_bind, bind.
  specialize (Hm s). destruct (outcome (m s)) as [a| |n'|]; simpl; try done.
  - apply Hk.
  - intros [= <-]. by apply Hm.
Qed.

Lemma exits_try_catch {A} (m : M A) handles h :
  exits Q m -> (forall e, exits Q (h e)) -> exits Q (try_catch m handles h).
Proof.
  intros Hm Hh s n. unfold try_catch.
  specialize (Hm s). destruct (outcome (m s)) as [|e|n'|] eqn:Ho; simpl;
    rewrite ?Ho; try done.
  - destruct (handles e); simpl; [apply Hh|by rewrite Ho].
  - intros [= <-]. by apply Hm.
Qed.

Lemma exits_for_each {A} (xs : list A) (k : A -> M unit) :
  (forall x, exits Q (k x)) -> exits Q (for_each xs k).
Proof.
  intros Hk. induction xs as [|x xs IH]; simpl.
  - by apply exits_never.
  - apply (exits_bind (k x) (fun _ => for_each xs k)); [apply Hk|done].
Qed.

Lemma exits_if {A} (b : bool) (m1 m2 : M A) :
  exits Q m1 -> exits Q m2 -> exits Q (if b then m1 else m2).
Proof. by destruct b. Qed.

End Exits.

Ltac exiting :=
  repeat first
    [ apply exits_lift
    | apply exits_get_clock
    | apply exits_factory
    | apply exits_call
    | apply exits_for_each; intros
    | apply exits_try_catch; [|intros]
    | apply exits_bind; [|intros]
    | apply exits_if
    | apply exits_never; intros; discriminate ].


Section Statuses.

Context {W prod : Type}.
Variable cfg : build.
Variable env : collaborators W prod.
Variable options : gmap string string.
Variable pid : Z.

Lemma no_sqlite_exits {A} :
  count options "sqlite" = true -> HAVE_LIBSQLITE3 cfg = false ->
  exits (status_of_body cfg options) (no_sqlite cfg : M W prod A).
Proof.
  intros H1 H2. unfold no_sqlite. apply exits_bind; [exiting|].
  intros _. apply exits_return. by right.
Qed.

Lemma set_up_exits : exits (status_of_body cfg options) (set_up cfg env options).
Proof.
  unfold set_up. apply exits_bind.
  - unfold load_schema.
    destruct (count options "sqlite") eqn:H1;
      [destruct (HAVE_LIBSQLITE3 cfg) eqn:H2|].
    + unfold banner, new_schema. exiting.
    + by apply no_sqlite_exits.
    + unfold banner, new_schema. exiting.
  - intros s. unfold make_loggers, new_logger. exiting.
Qed.

Lemma make_dut_exits : exits (status_of_body cfg options) (make_dut cfg env options).
Proof.
  unfold make_dut.
  destruct (count options "sqlite") eqn:H1;
    [destruct (HAVE_LIBSQLITE3 cfg) eqn:H2|].
  - unfold new_dut. exiting.
  - by apply no_sqlite_exits.
  - unfold new_dut. exiting.
Qed.

Lemma dry_run_loop_exits fuel loggers :
  exits (status_of_body cfg options) (dry_run_loop env options fuel loggers).
Proof.
  induction fuel as [|fuel IH]; simpl; [exiting|].
  apply exits_bind; [|done]. unfold dry_run_step. exiting.
  apply exits_return. by left.
Qed.

Lemma outer_loop_exits fuel loggers dut :
  exits (status_of_body cfg options) (outer_loop env options fuel loggers dut).
Proof.
  induction fuel as [|fuel IH]; [exiting|].
  change (outer_loop env options (S fuel) loggers dut) with
    (session env options (S fuel) loggers dut;;
     outer_loop env options fuel loggers dut).
  apply exits_bind; [|done]. unfold session.
  apply exits_try_catch; [|intros; by apply exits_never].
  generalize (S fuel). clear IH. intros n.
  induction n as [|n IH]; simpl; [exiting|].
  apply exits_bind; [|done].
  unfold iteration, check_ceiling, generate_and_test, execute, classify,
    log_error, do_report.
  exiting. apply exits_return. by left.
Qed.

Lemma main_body_exits fuel : exits (status_of_body cfg options) (main_body cfg env options pid fuel).
Proof.
  unfold main_body. apply exits_bind; [apply set_up_exits|].
  intros loggers. apply exits_bind; [unfold seed_rng; exiting|].
  intros _. unfold run. apply exits_bind.
  { apply exits_if; [apply dry_run_loop_exits|exiting]. }
  intros _. apply exits_bind; [apply make_dut_exits|].
  intros dut. exiting. apply outer_loop_exits.
Qed.

Lemma quits_untested_emits {A} (m : M W prod A) :
  emits untested m -> forall s, quits_untested (m s).
Proof.
  intros Hm s. unfold quits_untested.
  assert (H : tests (events (m s)) = [])
    by (apply (project_emitted untested); [done|apply Hm]).
  by destruct (outcome (m s)).
Qed.

Lemma quits_untested_bind {A C} (m : M W prod A) (k : A -> M W prod C) :
  emits untested m -> (forall a s, quits_untested (k a s)) ->
  forall s, quits_untested ((m ≫= k) s).
Proof.
  intros Hm Hk s.
  assert (H : tests (events (m s)) = [])
    by (apply (project_emitted untested); [done|apply Hm]).
  unfold mbind, M_bind, bind, quits_untested in *.
  destruct (outcome (m s)) as [a|e|n|]; simpl; try done.
  specialize (Hk a (final (m s))).
  unfold tests in *. rewrite project_app, H. simpl.
  by destruct (outcome (k a (final (m s)))).
Qed.

Lemma quits_untested_never {A C} (m : M W prod A) (k : A -> M W prod C) :
  never_returns m -> (forall s, quits_untested (m s)) ->
  forall s, quits_untested ((m ≫= k) s).
Proof.
  intros Hm Hq s. specialize (Hq s). specialize (Hm s).
  unfold mbind, M_bind, bind, quits_untested in *.
  destruct (outcome (m s)) as [a|e|n|]; simpl; try done.
  by destruct (Hm a).
Qed.

Lemma stol_raises str e : stol str = inl e -> is_broken e = false.
Proof.
  unfold stol, stoa. destruct (strtol str) as [v|]; [|by intros [= <-]].
  destruct (_ && _); [done|by intros [= <-]].
Qed.

Section Loops.

Variable loggers : list logger.
Variable dut : dut_base.
Hypothesis Hwb : well_behaved env.
Hypothesis Hdut : dut_raises_failures env.

Section Valid.

Hypothesis Hvalid :
  count options "max-queries" = false \/
  exists N, stol (opt options "max-queries") = inr N.

Lemma check_ceiling_valid w q g :
  (exists q',
     check_ceiling env options (State w q g) =
       Result (Normal tt) [] (State w q' g)) \/
  (exists t s',
     check_ceiling env options (State w q g) = Result (Exit 0) t s').
Proof.
  destruct (count options "max-queries") eqn:Hon.
  - destruct Hvalid as [|[N HN]]; [done|].
    destruct (Z.lt_ge_cases N (wrap_long (q + 1))).
    + right. eexists _, _.
      by apply (check_ceiling_reached env options w q g N).
    + left. eexists. apply (check_ceiling_below env options w q g N); try done.
  - left. eexists. by apply check_ceiling_off.
Qed.

Lemma iteration_valid s :
  match outcome (iteration env options loggers dut s) with
  | Normal _ => True
  | o => ends_session o
  end.
Proof.
  destruct s as [w q g].
  destruct (check_ceiling_valid w q g) as [[q' Hc]|(t & s' & Hc)].
  - destruct (generate_and_test_cases env loggers dut w q' g Hwb Hdut)
      as (raised & t & w' & Hrun & _).
    unfold iteration. step Hc. rewrite Hrun. simpl.
    destruct raised as [e|]; simpl; [|done].
    by destruct (is_broken e) eqn:He.
  - unfold iteration. by rewrite (bind_exit _ _ _ _ _ _ Hc).
Qed.

Lemma inner_loop_valid fuel s :
  ends_session (outcome (inner_loop env options fuel loggers dut s)).
Proof.
  revert s. induction fuel as [|fuel IH]; intros s; simpl; [done|].
  pose proof (iteration_valid s) as Hit.
  unfold mbind, M_bind, bind.
  destruct (outcome (iteration env options loggers dut s)); simpl; done.
Qed.

Lemma outer_loop_valid fuel s :
  ends_run (outcome (outer_loop env options fuel loggers dut s)).
Proof.
  revert s. induction fuel as [|fuel IH]; intros s; [done|].
  change (outer_loop env options (S fuel) loggers dut) with
    (session env options (S fuel) loggers dut;;
     outer_loop env options fuel loggers dut).
  pose proof (inner_loop_valid (S fuel) s) as Hin.
  destruct (inner_loop env options (S fuel) loggers dut s)
    as [[a|e|n|] t [w q g]] eqn:Hrun; simpl in Hin; [done| | |].
  - step (session_backoff env options loggers dut _ _ _ _ _ _ _ Hrun Hin).
    simpl. apply IH.
  - unfold session.
    by rewrite (bind_exit _ _ _ _ _ _ (try_catch_exit _ _ _ _ _ _ _ Hrun)).
  - unfold session.
    by rewrite (bind_out_of_fuel _ _ _ _ _
                  (try_catch_out_of_fuel _ _ _ _ _ _ Hrun)).
Qed.

End Valid.

(** The outer loop does not complete, and when it ends by an exception no
    statement has been executed. *)
Lemma outer_loop_quits fuel s :
  let r := outer_loop env options fuel loggers dut s in
  (forall a, outcome r <> Normal a) /\ quits_untested r.
Proof.
  destruct (count options "max-queries") eqn:Hon;
    [destruct (stol (opt options "max-queries")) as [e|N] eqn:Hstol|].
  - destruct fuel as [|fuel]; [done|]. destruct s as [w q g].
    change (outer_loop env options (S fuel) loggers dut) with
      (session env options (S fuel) loggers dut;;
       outer_loop env options fuel loggers dut).
    assert (Hin : inner_loop env options (S fuel) loggers dut (State w q g) =
                  Result (Throw e) [] (State w (wrap_long (q + 1)) g)).
    { change (inner_loop env options (S fuel) loggers dut) with
        (iteration env options loggers dut;;
         inner_loop env options fuel loggers dut).
      apply bind_throw. unfold iteration. apply bind_throw.
      by apply check_ceiling_invalid. }
    unfold session.
    rewrite (bind_throw _ _ _ _ _ _
               (try_catch_passed _ _ _ _ _ _ _ Hin (stol_raises _ _ Hstol))).
    by split.
  - pose proof (outer_loop_valid (or_intror (ex_intro _ N Hstol)) fuel s) as H.
    unfold quits_untested. simpl.
    destruct (outcome (outer_loop env options fuel loggers dut s));
      simpl in *; try done; by subst.
  - pose proof (outer_loop_valid (or_introl Hon) fuel s) as H.
    unfold quits_untested. simpl.
    destruct (outcome (outer_loop env options fuel loggers dut s));
      simpl in *; try done; by subst.
Qed.

End Loops.

Lemma main_body_quits fuel s :
  well_behaved env -> dut_raises_failures env ->
  quits_untested (main_body cfg env options pid fuel s).
Proof.
  intros Hwb Hdut. revert s. unfold main_body.
  apply quits_untested_bind.
  { apply (emits_weaken of_set_up); [by intros []|apply set_up_emits]. }
  intros loggers. apply quits_untested_bind.
  { eapply emits_weaken; [|apply seed_rng_emits]. by intros ev [n ->]. }
  intros _. unfold run. apply quits_untested_bind.
  { apply emits_if; [|emission].
    apply (emits_weaken of_dry_run); [by intros []|apply dry_run_loop_emits]. }
  intros _. apply quits_untested_bind.
  { unfold make_dut, new_dut, no_sqlite. emission. }
  intros dut. apply quits_untested_bind; [by apply emits_emit|].
  intros _. apply quits_untested_bind; [by apply emits_emit|].
  intros _. apply quits_untested_never.
  - intros s a. by apply outer_loop_quits.
  - intros s. by apply outer_loop_quits.
Qed.




End Statuses.

(** ** The seed of the generator *)

Section Seeds.

Context {prod : Type}.
Implicit Types t pre rest : list (event prod).

Lemma before_generation_set_up pre t :
  Forall of_set_up pre ->
  before_generation (pre ++ t) = pre ++ before_generation t.
Proof.
  induction 1 as [|ev pre Hev _ IH]; simpl; [done|].
  rewrite IH. by destruct ev.
Qed.

Lemma generates_set_up pre t :
  Forall of_set_up pre -> generates (pre ++ t) = generates t.
Proof.
  induction 1 as [|ev pre Hev _ IH]; simpl; [done|]. by destruct ev.
Qed.

Lemma before_generation_of_run rest :
  Forall of_run rest -> Forall of_run (before_generation rest).
Proof.
  induction 1 as [|ev rest Hev _ IH]; simpl; [constructor|].
  destruct ev; by constructor.
Qed.

(** The events of a run that seeds the generator with [n] at most once,
    after the set-up and before anything else. *)
Lemma seeded_once pre post n :
  Forall of_set_up pre ->
  post = [] \/ (exists rest, post = Seed n :: rest /\ Forall of_run rest) ->
  let t := pre ++ post in
  (generates t = true -> seeds (before_generation t) = [n]) /\
  (seeds t = [] \/ seeds t = [n]).
Proof.
  intros Hpre Hpost t. subst t.
  assert (Hseeds : seeds pre = [])
    by (apply (project_emitted of_set_up); [by intros []|done]).
  rewrite generates_set_up, before_generation_set_up by done.
  unfold seeds in *. rewrite !project_app, Hseeds. simpl.
  destruct Hpost as [->|(rest & -> & Hrest)]; simpl.
  - split; [done|by left].
  - rewrite !(project_emitted of_run seeded);
      [by split; [|right] | by intros [] | done | by intros []
      | by apply before_generation_of_run ].
Qed.

End Seeds.

Section Seeded.

Context {W prod : Type}.
Variable cfg : build.
Variable env : collaborators W prod.
Variable options : gmap string string.
Variable pid : Z.
Variable n : Z.
Hypothesis Hseed :
  count options "seed" = true /\ stoi (opt options "seed") = inr n \/
  count options "seed" = false /\ n = pid.

Lemma seed_rng_seeds w q g :
  seed_rng env options pid (State w q g) =
    Result (Normal tt) [Seed n] (State (rng_seed env n w) q g).
Proof.
  unfold seed_rng. destruct Hseed as [[-> ->]|[-> ->]]; simpl;
    by rewrite bind_ret.
Qed.

Lemma main_body_seeded fuel s :
  exists pre post,
    events (main_body cfg env options pid fuel s) = pre ++ post /\
    Forall of_set_up pre /\
    (post = [] \/ exists rest, post = Seed n :: rest /\ Forall of_run rest).
Proof.
  pose proof (set_up_emits cfg env options s) as Hpre.
  unfold main_body, mbind at 1, M_bind, bind.
  destruct (set_up cfg env options s) as [[loggers|e|k|] t [w q g]];
    simpl in *;
    try (exists t, []; rewrite app_nil_r; by repeat split; [|left]).
  exists t. eexists. split; [reflexivity|]. split; [done|]. right.
  step (seed_rng_seeds w q g). simpl. eexists. split; [reflexivity|].
  apply run_emits.
Qed.

Lemma main_seeded fuel s :
  exists pre post,
    events (main cfg env options pid fuel s) = pre ++ post /\
    Forall of_set_up pre /\
    (post = [] \/ exists rest, post = Seed n :: rest /\ Forall of_run rest).
Proof.
  unfold main. rewrite bind_emit.
  destruct (count options "help").
  { eexists _, []. rewrite app_nil_r. split; [reflexivity|].
    split; [by repeat constructor|by left]. }
  destruct (count options "version").
  { eexists _, []. rewrite app_nil_r. split; [reflexivity|].
    split; [by repeat constructor|by left]. }
  destruct (main_body_seeded fuel s) as (pre & post & Hev & Hpre & Hpost).
  destruct (main_body cfg env options pid fuel s)
    as [[a|e|k|] t s'] eqn:Hbody; simpl in Hev; subst t.
  - rewrite (bind_normal _ _ _ _ _ _ (try_catch_normal _ _ _ _ _ _ _ Hbody)).
    exists (Cerr (PACKAGE_NAME cfg +:+ " " +:+ GITREV cfg +:+ endl) :: pre), post.
    simpl. rewrite app_nil_r. split; [done|]. split; [by constructor|done].
  - destruct (is_std_exception e) eqn:He.
    + assert (Hcaught :
        try_catch (main_body cfg env options pid fuel) is_std_exception
          (fun e => emit (Cerr (what e +:+ endl));; return_ 1) s =
        Result (Exit 1) ((pre ++ post) ++ [Cerr (what e +:+ endl)]) s')
        by (by rewrite (try_catch_caught _ _ _ _ _ _ _ Hbody He)).
      rewrite (bind_exit _ _ _ _ _ _ Hcaught). simpl.
      destruct Hpost as [->|(rest & -> & Hrest)].
      * exists (Cerr (PACKAGE_NAME cfg +:+ " " +:+ GITREV cfg +:+ endl) ::
                pre ++ [Cerr (what e +:+ endl)]), [].
        rewrite !app_nil_r. split; [done|]. split; [|by left].
        constructor; [done|]. apply Forall_app. by repeat constructor.
      * exists (Cerr (PACKAGE_NAME cfg +:+ " " +:+ GITREV cfg +:+ endl) :: pre),
               (Seed n :: rest ++ [Cerr (what e +:+ endl)]).
        split; [by rewrite <- app_assoc|]. split; [by constructor|].
        right. eexists. split; [done|]. apply Forall_app. by repeat constructor.
    + rewrite (bind_throw _ _ _ _ _ _ (try_catch_passed _ _ _ _ _ _ _ Hbody He)).
      exists (Cerr (PACKAGE_NAME cfg +:+ " " +:+ GITREV cfg +:+ endl) :: pre), post.
      simpl. split; [done|]. split; [by constructor|done].
  - rewrite (bind_exit _ _ _ _ _ _ (try_catch_exit _ _ _ _ _ _ _ Hbody)).
    exists (Cerr (PACKAGE_NAME cfg +:+ " " +:+ GITREV cfg +:+ endl) :: pre), post.
    simpl. split; [done|]. split; [by constructor|done].
  - rewrite (bind_out_of_fuel _ _ _ _ _
               (try_catch_out_of_fuel _ _ _ _ _ _ Hbody)).
    exists (Cerr (PACKAGE_NAME cfg +:+ " " +:+ GITREV cfg +:+ endl) :: pre), post.
    simpl. split; [done|]. split; [by constructor|done].
Qed.

End Seeded.

Lemma seed_rng_of_option {W prod} (env : collaborators W prod) options pid pid' :
  count options "seed" = true ->
  seed_rng env options pid' = seed_rng env options pid.
Proof. intros H. unfold seed_rng. by rewrite H. Qed.


(** ** The dry run *)

Section DryRun.

Context {W prod : Type}.
Variable cfg : build.
Variable env : collaborators W prod.
Variable options : gmap string string.
Variable pid : Z.

Lemma emits_bind_never {A C} (P : event prod -> Prop) (m : M W prod A)
    (k : A -> M W prod C) :
  never_returns m -> emits P m -> emits P (m ≫= k).
Proof.
  intros Hnever Hm s. specialize (Hnever s). specialize (Hm s).
  unfold mbind, M_bind, bind.
  destruct (outcome (m s)) as [a| | |]; simpl; try done. by destruct (Hnever a).
Qed.

Lemma dry_run_loop_never_returns fuel loggers :
  never_returns (dry_run_loop env options fuel loggers).
Proof.
  induction fuel as [|fuel IH]; intros s a; simpl; [done|].
  unfold mbind, M_bind, bind.
  destruct (outcome (dry_run_step env options loggers s)); simpl; done.
Qed.

Hypothesis Hdry : count options "dry-run" = true.

Lemma run_dry_emits fuel loggers :
  emits of_dry_run (run cfg env options fuel loggers).
Proof.
  unfold run. rewrite Hdry.
  apply emits_bind_never;
    [apply dry_run_loop_never_returns|apply dry_run_loop_emits].
Qed.

(** A dry run neither constructs a DUT nor executes a statement. *)
Lemma dry_run_stays_off_line fuel s :
  let t := events (main cfg env options pid fuel s) in
  connections t = [] /\ tests t = [].
Proof.
  assert (H : emits off_line (main cfg env options pid fuel)).
  { unfold main. apply emits_bind; [by apply emits_emit|intros _].
    apply emits_if; [emission|]. apply emits_if; [emission|].
    apply emits_bind; [|intros; emission].
    apply emits_try_catch; [|intros; emission].
    unfold main_body. apply emits_bind.
    { apply (emits_weaken of_set_up); [by intros []|apply set_up_emits]. }
    intros loggers. apply emits_bind.
    { eapply emits_weaken; [|apply seed_rng_emits]. by intros ev [n ->]. }
    intros _. apply (emits_weaken of_dry_run); [by intros []|].
    apply run_dry_emits. }
  split; apply (project_emitted off_line); try apply H; by intros ev [].
Qed.

Section Bounded.

Variable loggers : list logger.
Variable N : Z.
Hypothesis Hwb : well_behaved env.
Hypothesis Hon : count options "max-queries" = true.
Hypothesis Hstol : stol (opt options "max-queries") = inr N.

Lemma dry_run_step_counts w q g :
  0 <= q < N ->
  exists gen w',
    dry_run_step env options loggers (State w q g) =
      Result (if N <=? q + 1 then Exit 0 else Normal tt)
        (Factory (inr gen) :: Cout (out env gen) ::
         map (fun l => Generated l gen None) loggers ++ [Cout (";" +:+ endl)])
        (State w' (q + 1) g).
Proof.
  intros Hq.
  assert (Hwrap : wrap_long (q + 1) = q + 1).
  { apply wrap_long_in_range. pose proof (stol_in_range _ _ Hstol).
    unfold LONG_MIN, LONG_MAX in *. lia. }
  destruct (factory_builds_one env w q g Hwb) as (gen & w1 & Hgen).
  destruct (for_each_returns (fun l => generated env l gen)
              (fun l => Generated l gen) loggers w1 q g
              (fun l w => generated_returns env Hwb l gen w)) as [w2 Hw2].
  exists gen, w2. unfold dry_run_step.
  step Hgen. rewrite bind_emit. step Hw2. rewrite bind_emit.
  rewrite bind_get_queries_generated, bind_set_queries_generated.
  rewrite Hon, bind_get_queries_generated, Hstol. simpl. rewrite bind_ret.
  rewrite Hwrap. unfold after; simpl.
  by destruct (N <=? q + 1).
Qed.

(** With a ceiling of at least one, the dry-run loop prints as many
    statements as the ceiling says and returns 0. *)
Lemma dry_run_loop_bounded fuel w q g :
  0 <= q < N -> (Z.to_nat (N - q) <= fuel)%nat ->
  exists t w',
    dry_run_loop env options fuel loggers (State w q g) =
      Result (Exit 0) t (State w' N g) /\
    length (statements t) = Z.to_nat (N - q).
Proof.
  revert w q. induction fuel as [|fuel IH]; intros w q Hq Hfuel; [lia|].
  destruct (dry_run_step_counts w q g Hq) as (gen & w1 & Hstep).
  assert (Hone : forall t, length (statements
            (Factory (inr gen) :: Cout (out env gen) ::
             map (fun l => Generated l gen None) loggers ++
             [Cout (";" +:+ endl)] ++ t)) = S (length (statements t))).
  { intros t. unfold statements. simpl. rewrite !project_app.
    by rewrite project_map_none. }
  simpl. destruct (N <=? q + 1) eqn:Hlast.
  - rewrite (bind_exit _ _ _ _ _ _ Hstep).
    replace (q + 1) with N by lia. eexists _, _. split; [reflexivity|].
    specialize (Hone []). rewrite app_nil_r in Hone.
    rewrite Hone. simpl. lia.
  - step Hstep.
    destruct (IH w1 (q + 1) ltac:(lia) ltac:(lia)) as (t & w' & Hloop & Hlen).
    rewrite Hloop. unfold after; simpl. eexists _, _. split; [reflexivity|].
    rewrite <- app_assoc. rewrite Hone, Hlen. lia.
Qed.

End Bounded.
(** With [--dry-run], a ceiling of at least one, and a schema and loggers
    that can be constructed, [main] prints as many statements as the
    ceiling says and returns 0. *)
Lemma dry_run_prints_the_ceiling N w fuel :
  sets_up env -> well_behaved env -> starts cfg options ->
  count options "max-queries" = true ->
  stol (opt options "max-queries") = inr N ->
  1 <= N -> (Z.to_nat N <= fuel)%nat ->
  let r := main cfg env options pid fuel (initial w) in
  outcome r = Exit 0 /\ length (statements (events r)) = Z.to_nat N.
Proof.
  intros Hsets Hwb Hstarts Hon Hstol HN Hfuel r. subst r.
  destruct (set_up_succeeds cfg env options Hsets Hstarts w 0 false)
    as (t1 & w1 & H1).
  destruct (seed_rng_succeeds cfg env options pid Hstarts w1 0
              (count options "verbose" || false)) as (n & Hn).
  destruct (dry_run_loop_bounded (configured_loggers options) N Hwb Hon Hstol
              fuel (rng_seed env n w1) 0 (count options "verbose" || false)
              ltac:(lia) ltac:(by rewrite Z.sub_0_r))
    as (t & w' & Hloop & Hlen).
  pose proof (set_up_emits cfg env options (State w 0 false)) as Ht1.
  rewrite H1 in Ht1; simpl in Ht1.
  assert (Hbody : main_body cfg env options pid fuel (initial w) =
            Result (Exit 0) (t1 ++ Seed n :: t)
              (State w' N (count options "verbose" || false))).
  { unfold main_body, initial. step H1. step Hn. unfold run.
    rewrite Hdry. by rewrite (bind_exit _ _ _ _ _ _ Hloop). }
  unfold main. rewrite bind_emit.
  rewrite (no_help cfg options Hstarts), (no_version cfg options Hstarts).
  rewrite (bind_exit _ _ _ _ _ _ (try_catch_exit _ _ _ _ _ _ _ Hbody)).
  simpl. split; [done|].
  unfold statements in *. simpl. rewrite project_app; simpl.
  rewrite (project_emitted of_set_up) by (done || by intros []).
  simpl. rewrite Hlen. by rewrite Z.sub_0_r.
Qed.

End DryRun.

(** * The run loop under a statement-count ceiling *)

Lemma last_report_silent {prod B} (f : event prod -> option B) g :
  (forall r, f (Report r) = None) -> project f (last_report g) = [].
Proof. intros H. destruct g; simpl; [by rewrite H|done]. Qed.

Lemma succeeds_raises_failures {W prod} (env : collaborators W prod) :
  dut_succeeds env -> dut_raises_failures env.
Proof. intros H d stmt w e He. by rewrite H in He. Qed.

(** C1. With [--max-queries=N] and a DUT on which every execution
    succeeds, [main] generates N statements, executes each of them with
    success, never sleeps, and returns 0: given more than N rounds of
    fuel, the run ends with [Exit 0] and its events hold exactly N
    generated statements and N executions, none of which raised (none at
    all when N is negative). N is any [long] but [LONG_MAX], which the
    counter cannot exceed. *)
Theorem C1_ceiling_reached_after_N_successes
    {W prod} (cfg : build) (env : collaborators W prod)
    (options : gmap string string) (pid N : Z) (w : W) (fuel : nat) :
  sets_up env -> well_behaved env -> dut_succeeds env ->
  executes cfg options ->
  count options "max-queries" = true ->
  stol (opt options "max-queries") = inr N ->
  N < LONG_MAX ->
  (Z.to_nat N < fuel)%nat ->
  let r := main cfg env options pid fuel (initial w) in
  outcome r = Exit 0 /\
  length (statements (events r)) = Z.to_nat N /\
  tests (events r) = replicate (Z.to_nat N) None /\
  sleeps (events r) = [].
Proof.
  intros Hsets Hwb Hok [Hstarts Hdry] Hon Hstol HN Hfuel r. subst r.
  destruct (main_runs_loop cfg env options pid Hsets Hstarts w Hdry)
    as (pre & w0 & Hpre1 & Hpre2 & Hpre3 & Hmain).
  destruct (outer_loop_bounded env options (configured_loggers options)
              (configured_dut options) Hwb (succeeds_raises_failures env Hok)
              N Hon Hstol ltac:(lia) fuel w0 0 (count options "verbose")
              ltac:(lia) ltac:(by rewrite Z.sub_0_r))
    as (outcomes & rounds & w' & Hloop & Hrounds & Hcans & Hlen).
  rewrite (Hmain fuel _ _ _ Hloop (or_introl eq_refl)); simpl.
  rewrite Z.sub_0_r in Hlen.
  assert (Hnone : outcomes = replicate (Z.to_nat N) None).
  { symmetry. apply replicate_as_Forall. split; [done|].
    eapply Forall_impl; [exact Hcans|].
    intros raised (stmt & w1 & <-). by rewrite Hok. }
  unfold statements, tests, sleeps in *.
  rewrite !project_app, Hpre1, Hpre2, Hpre3; simpl.
  rewrite !last_report_silent by done. rewrite !app_nil_r.
  fold (statements (concat rounds)) (tests (concat rounds))
    (sleeps (concat rounds)).
  rewrite (rounds_statements _ _ _ _ _ Hrounds).
  rewrite (rounds_tests _ _ _ _ _ Hrounds).
  rewrite (rounds_sleeps _ _ _ _ _ Hrounds).
  repeat split; try done.
  rewrite Hnone. clear. induction (Z.to_nat N) as [|n IH]; [done|].
  simpl. by rewrite filter_cons_False.
Qed.

(** C9. The ceiling counts generated statements, whatever becomes of
    them: with [--max-queries=N] and a DUT that raises statement failures
    and broken sessions as it likes, [main] returns 0 after exactly N
    generated statements and N executions, and the counter, incremented
    once before each generation and once more by the check that ends the
    loop, is N + 1. *)
Theorem C9_ceiling_counts_generated_statements
    {W prod} (cfg : build) (env : collaborators W prod)
    (options : gmap string string) (pid N : Z) (w : W) (fuel : nat) :
  sets_up env -> well_behaved env -> dut_raises_failures env ->
  executes cfg options ->
  count options "max-queries" = true ->
  stol (opt options "max-queries") = inr N ->
  0 <= N < LONG_MAX ->
  (Z.to_nat N < fuel)%nat ->
  let r := main cfg env options pid fuel (initial w) in
  outcome r = Exit 0 /\
  length (statements (events r)) = Z.to_nat N /\
  length (tests (events r)) = Z.to_nat N /\
  queries_generated (final r) = N + 1.
Proof.
  intros Hsets Hwb Hdut [Hstarts Hdry] Hon Hstol HN Hfuel r. subst r.
  destruct (main_runs_loop cfg env options pid Hsets Hstarts w Hdry)
    as (pre & w0 & Hpre1 & Hpre2 & Hpre3 & Hmain).
  destruct (outer_loop_bounded env options (configured_loggers options)
              (configured_dut options) Hwb Hdut
              N Hon Hstol ltac:(lia) fuel w0 0 (count options "verbose")
              ltac:(lia) ltac:(by rewrite Z.sub_0_r))
    as (outcomes & rounds & w' & Hloop & Hrounds & Hcans & Hlen).
  rewrite (Hmain fuel _ _ _ Hloop (or_introl eq_refl)); simpl.
  rewrite Z.sub_0_r in Hlen.
  unfold statements, tests in *.
  rewrite !project_app, Hpre1, Hpre2; simpl.
  rewrite !last_report_silent by done. rewrite !app_nil_r.
  fold (statements (concat rounds)) (tests (concat rounds)).
  rewrite (rounds_statements _ _ _ _ _ Hrounds).
  rewrite (rounds_tests _ _ _ _ _ Hrounds).
  repeat split; try done. lia.
Qed.

(** * The run loop without ceiling *)

(** C5. Without [--max-queries], no number of failures ends the loop:
    whatever the DUT raises, [main] is still running when the fuel is
    spent, has executed at least as many statements as it was given
    rounds, and has slept 1000 ms once for each execution that broke the
    session; on a DUT that breaks the session at every execution, every
    execution is followed by such a sleep and by another attempt. *)
Theorem C5_recovery_is_unbounded
    {W prod} (cfg : build) (env : collaborators W prod)
    (options : gmap string string) (pid : Z) (w : W) (fuel : nat) :
  sets_up env -> well_behaved env -> dut_raises_failures env ->
  executes cfg options ->
  count options "max-queries" = false ->
  let r := main cfg env options pid fuel (initial w) in
  outcome r = OutOfFuel /\
  (fuel <= length (tests (events r)))%nat /\
  sleeps (events r) =
    map (fun _ => 1000) (filter (fun raised => broken raised = true)
                           (tests (events r))) /\
  (dut_breaks env ->
   sleeps (events r) = replicate (length (tests (events r))) 1000).
Proof.
  intros Hsets Hwb Hdut [Hstarts Hdry] Hoff r. subst r.
  destruct (main_runs_loop cfg env options pid Hsets Hstarts w Hdry)
    as (pre & w0 & Hpre1 & Hpre2 & Hpre3 & Hmain).
  destruct (outer_loop_unbounded env options (configured_loggers options)
              (configured_dut options) Hwb Hdut Hoff fuel w0 0
              (count options "verbose"))
    as (outcomes & rounds & w' & Hloop & Hrounds & Hcans & Hlen).
  rewrite <- (app_nil_r (concat rounds)) in Hloop.
  rewrite (Hmain fuel _ _ _ Hloop (or_intror eq_refl)); simpl.
  unfold tests, sleeps in *.
  rewrite !project_app, Hpre2, Hpre3; simpl. rewrite !app_nil_r.
  fold (tests (concat rounds)) (sleeps (concat rounds)).
  rewrite (rounds_tests _ _ _ _ _ Hrounds).
  rewrite (rounds_sleeps _ _ _ _ _ Hrounds).
  repeat split; try done.
  intros Hbreaks.
  assert (Hall : Forall (fun raised => broken raised = true) outcomes).
  { eapply Forall_impl; [exact Hcans|].
    intros raised (stmt & w1 & <-).
    destruct (Hbreaks (configured_dut options) stmt w1) as (e & -> & _ & He).
    exact He. }
  clear -Hall. induction Hall as [|raised outcomes Hr _ IH]; [done|].
  rewrite filter_cons_True by done. simpl. by rewrite IH.
Qed.


(** * One statement: classification, timing, recovery *)

Lemma project_elem_of {A B} (f : A -> option B) (t : list A) x y :
  x ∈ t -> f x = Some y -> y ∈ project f t.
Proof.
  intros Hx Hf. induction Hx as [x t|x z t Hx IH]; simpl.
  - rewrite Hf. by left.
  - destruct (f z); [right|]; by apply IH.
Qed.


Section Recovery.

Context {W prod : Type}.
Variable env : collaborators W prod.
Variable options : gmap string string.

(** The check of the ceiling lets the loop go on without a trace, or ends
    the round, at most after the last report. *)
Lemma check_ceiling_cases w q g :
  (exists q',
     check_ceiling env options (State w q g) =
       Result (Normal tt) [] (State w q' g)) \/
  (exists o t s',
     check_ceiling env options (State w q g) = Result o t s' /\
     (forall a, o <> Normal a) /\
     Forall (fun ev => exists x, ev = Report x) t).
Proof.
  unfold check_ceiling.
  destruct (count options "max-queries"); [|left; by eexists].
  rewrite bind_get_queries_generated, bind_set_queries_generated,
    bind_get_queries_generated.
  destruct (stol (opt options "max-queries")) as [e|n]; simpl.
  - right. eexists _, _, _. split; [reflexivity|]. split; [done|constructor].
  - rewrite bind_ret.
    destruct (n <? wrap_long (q + 1)); [|left; by eexists].
    right. unfold mbind, M_bind, bind. simpl. destruct g; simpl.
    + unfold do_report, call; simpl. destruct (report env w) as [[e|] w']; simpl;
        eexists _, _, _; (split; [reflexivity|]); split; try done;
        repeat constructor; by eexists.
    + eexists _, _, _. split; [reflexivity|]. split; [done|constructor].
Qed.


(** C2 (amended). When the execution of a statement raises a
    [dut::broken], the exception leaves the inner loop, the outer loop
    sleeps 1000 ms, and then goes on as the same loop, with the same
    loggers and the same DUT object: nothing in the round constructs a
    DUT, and what follows the sleep is the outer loop on [dut] again, from
    the state the sleep left. *)
Theorem C2_backoff_then_same_harness loggers dut s stmt e n :
  well_behaved env -> dut_raises_failures env ->
  let r := iteration env options loggers dut s in
  Test dut stmt (Some e) ∈ events r -> is_broken e = true ->
  outcome r = Throw e /\
  connections (events r) = [] /\
  outer_loop env options (S n) loggers dut s =
    after (events r ++ [Sleep 1000])
      (outer_loop env options n loggers dut
         (State (sleep_for env 1000 (world (final r)))
            (queries_generated (final r)) (global_cerr_logger (final r)))).
Proof.
  intros Hwb Hdut r Hin He. subst r. destruct s as [w q g].
  destruct (check_ceiling_cases w q g)
    as [[q' Hcheck]|(o & t & s' & Hcheck & Ho & Ht)].
  - destruct (generate_and_test_cases env loggers dut w q' g Hwb Hdut)
      as (raised & t & w' & Hrun & Hblock & _).
    assert (Hit : iteration env options loggers dut (State w q g) =
                  Result (verdict raised) t (State w' q' g)).
    { unfold iteration. step Hcheck. rewrite Hrun. apply after_nil. }
    rewrite Hit in *; simpl in *.
    pose proof (project_elem_of tested _ _ _ Hin eq_refl) as Hraised.
    fold (tests t) in Hraised. rewrite (block_tests _ _ _ _ _ Hblock) in Hraised.
    apply list_elem_of_singleton in Hraised as <-. simpl in *. rewrite He in *.
    split; [done|]. split; [by apply (block_connections _ _ _ _ _ Hblock)|].
    change (outer_loop env options (S n) loggers dut) with
      (session env options (S n) loggers dut;;
       outer_loop env options n loggers dut).
    assert (Hinner : inner_loop env options (S n) loggers dut (State w q g) =
                     Result (Throw e) t (State w' q' g)).
    { simpl. by rewrite (bind_throw _ _ _ _ _ _ Hit). }
    by step (session_backoff env options loggers dut _ _ _ _ _ _ _ Hinner He).
  - exfalso.
    assert (Hit : iteration env options loggers dut (State w q g) =
                  Result o t s').
    { unfold iteration, mbind, M_bind, bind. rewrite Hcheck; simpl.
      destruct o; try done. by destruct (Ho a). }
    rewrite Hit in Hin; simpl in Hin.
    rewrite Forall_forall in Ht. destruct (Ht _ Hin) as [x Hx]. done.
Qed.

End Recovery.

Lemma iteration_after_check {W prod} (env : collaborators W prod) options
    loggers dut s0 s :
  check_ceiling env options s0 = Result (Normal tt) [] s ->
  iteration env options loggers dut s0 = generate_and_test env loggers dut s.
Proof. intros H. unfold iteration. step H. apply after_nil. Qed.


(** C6. The outcome of an execution is dispatched three ways. On success
    every logger is notified [executed] and the inner loop goes on to its
    next round; on a [dut::failure] that is not a [dut::broken] every
    logger is notified [error] and the inner loop goes on to its next
    round; on a [dut::broken] every logger is notified [error], the
    exception leaves the inner loop, and the session catches it and
    sleeps. *)
Theorem C6_classification_dispatch
    {W prod} (env : collaborators W prod) (options : gmap string string)
    (loggers : list logger) (dut : dut_base) (s0 s : state W) (n : nat) :
  well_behaved env -> dut_raises_failures env ->
  check_ceiling env options s0 = Result (Normal tt) [] s ->
  let r := generate_and_test env loggers dut s in
  exists raised,
    tests (events r) = [raised] /\
    match raised with
    | None =>
        notices (events r) =
          map (pair on_generated) loggers ++ map (pair on_executed) loggers /\
        outcome r = Normal tt /\
        inner_loop env options (S n) loggers dut s0 =
          after (events r) (inner_loop env options n loggers dut (final r))
    | Some e =>
        notices (events r) =
          map (pair on_generated) loggers ++ map (pair on_error) loggers /\
        if is_broken e then
          outcome r = Throw e /\
          inner_loop env options (S n) loggers dut s0 =
            Result (Throw e) (events r) (final r) /\
          outcome (session env options (S n) loggers dut s0) = Normal tt /\
          events (session env options (S n) loggers dut s0) =
            events r ++ [Sleep 1000]
        else
          outcome r = Normal tt /\
          inner_loop env options (S n) loggers dut s0 =
            after (events r) (inner_loop env options n loggers dut (final r))
    end.
Proof.
  intros Hwb Hdut Hcheck r. subst r.
  pose proof (iteration_after_check env options loggers dut s0 s Hcheck) as Hit.
  destruct s as [w q g].
  destruct (generate_and_test_cases env loggers dut w q g Hwb Hdut)
    as (raised & t & w' & Hrun & Hblock & _).
  rewrite Hrun in *; simpl.
  exists raised. split; [by apply (block_tests _ _ _ _ _ Hblock)|].
  pose proof (block_notices _ _ _ _ _ Hblock) as Hnotices.
  destruct raised as [e|]; simpl in *.
  - split; [done|]. destruct (is_broken e) eqn:He.
    + assert (Hinner : inner_loop env options (S n) loggers dut s0 =
                       Result (Throw e) t (State w' q g)).
      { simpl. by rewrite (bind_throw _ _ _ _ _ _ Hit). }
      repeat split; try done;
        by rewrite (session_backoff env options loggers dut _ _ _ _ _ _ _
                      Hinner He).
    + split; [done|]. by step Hit.
  - split; [done|]. split; [done|]. by step Hit.
Qed.



(** * The doubles meet the assumptions *)

Lemma doubles_set_up harness on_generated on_executed on_error :
  sets_up (doubles harness on_generated on_executed on_error).
Proof. by constructor. Qed.

Lemma doubles_well_behaved harness on_error :
  (forall l e, on_error l = Some e -> is_runtime_error e = true) ->
  well_behaved (doubles harness quiet quiet on_error).
Proof.
  intros H. constructor; try done.
  - intros w. by eexists.
  - intros l gen e w e'. apply H.
Qed.

Lemma quiet_raises_nothing l e : quiet l = Some e -> is_runtime_error e = true.
Proof. done. Qed.

Lemma log_database_down_at_run_time l e :
  log_database_down l = Some e -> is_runtime_error e = true.
Proof. destruct l; simpl; by intros [= <-]. Qed.

Lemma reliable_succeeds on_generated on_executed on_error :
  dut_succeeds (doubles reliable on_generated on_executed on_error).
Proof. by intros d stmt w. Qed.

Lemma scripted_raises_failures on_generated on_executed on_error :
  dut_raises_failures (doubles scripted on_generated on_executed on_error).
Proof.
  intros d stmt w e. simpl. unfold scripted.
  destruct (script w) as [|[] rest]; simpl; try done; by intros [= <-].
Qed.

Lemma down_breaks on_generated on_executed on_error :
  dut_breaks (doubles down on_generated on_executed on_error).
Proof. intros d stmt w. by exists broken_session. Qed.

Lemma down_raises_failures on_generated on_executed on_error :
  dut_raises_failures (doubles down on_generated on_executed on_error).
Proof. intros d stmt w e. simpl. by intros [= <-]. Qed.

(** * Runs of the doubles *)

Lemma C1_witness :
  let r := main release (doubles reliable quiet quiet quiet)
             {[ "max-queries" := "3" ]} 42 4 (initial (start [])) in
  outcome r = Exit 0 /\
  length (statements (events r)) = Z.to_nat 3 /\
  tests (events r) = replicate (Z.to_nat 3) None /\
  sleeps (events r) = [].
Proof.
  apply (C1_ceiling_reached_after_N_successes release
           (doubles reliable quiet quiet quiet)
           {[ "max-queries" := "3" ]} 42 3 (start []) 4).
  - apply doubles_set_up.
  - apply doubles_well_behaved, quiet_raises_nothing.
  - apply reliable_succeeds.
  - repeat constructor; try (vm_compute; reflexivity); vm_compute;
      discriminate.
  - vm_compute; reflexivity.
  - vm_compute; reflexivity.
  - unfold LONG_MAX; lia.
  - simpl; lia.
Defined.

Lemma C9_witness :
  let r := main release (doubles scripted quiet quiet quiet)
             {[ "max-queries" := "3" ]} 42 4
             (initial (start [rejects; disconnects; accepts])) in
  outcome r = Exit 0 /\
  length (statements (events r)) = Z.to_nat 3 /\
  length (tests (events r)) = Z.to_nat 3 /\
  queries_generated (final r) = 3 + 1.
Proof.
  apply (C9_ceiling_counts_generated_statements release
           (doubles scripted quiet quiet quiet)
           {[ "max-queries" := "3" ]} 42 3
           (start [rejects; disconnects; accepts]) 4).
  - apply doubles_set_up.
  - apply doubles_well_behaved, quiet_raises_nothing.
  - apply scripted_raises_failures.
  - repeat constructor; try (vm_compute; reflexivity); vm_compute;
      discriminate.
  - vm_compute; reflexivity.
  - vm_compute; reflexivity.
  - unfold LONG_MAX; lia.
  - simpl; lia.
Defined.

Lemma C5_witness :
  let r := main release (doubles down quiet quiet quiet)
             {[ "target" := "dbname=regression" ]} 42 5 (initial (start [])) in
  outcome r = OutOfFuel /\
  (5 <= length (tests (events r)))%nat /\
  sleeps (events r) =
    map (fun _ => 1000) (filter (fun raised => broken raised = true)
                           (tests (events r))) /\
  sleeps (events r) = replicate (length (tests (events r))) 1000.
Proof.
  destruct (C5_recovery_is_unbounded release (doubles down quiet quiet quiet)
              {[ "target" := "dbname=regression" ]} 42 (start []) 5)
    as (Hrunning & Htests & Hsleeps & Hbroken).
  - apply doubles_set_up.
  - apply doubles_well_behaved, quiet_raises_nothing.
  - apply down_raises_failures.
  - repeat constructor; try (vm_compute; reflexivity); vm_compute;
      discriminate.
  - vm_compute; reflexivity.
  - split; [exact Hrunning|]. split; [exact Htests|].
    split; [exact Hsleeps|]. apply Hbroken, down_breaks.
Defined.

(** C2, as stated, fails: after a broken session the loop sleeps and goes
    on, but the next statement is executed on the DUT that was constructed
    before the loop; no DUT is constructed after the backoff. *)
Lemma C2_counterexample :
  let r := main release (doubles scripted quiet quiet quiet)
             {[ "max-queries" := "2" ]} 42 3
             (initial (start [disconnects])) in
  outcome r = Exit 0 /\
  tests (events r) = [Some broken_session; None] /\
  sleeps (events r) = [1000] /\
  connections (events r) = [dut_pqxx ""] /\
  recreates false (events r) = false.
Proof. vm_compute. by repeat split. Qed.

Lemma C2_witness :
  let s := initial (start [disconnects]) in
  let r := iteration (doubles scripted quiet quiet quiet) ∅
             [impedance_feedback] (dut_pqxx "") s in
  outcome r = Throw broken_session /\
  connections (events r) = [] /\
  outer_loop (doubles scripted quiet quiet quiet) ∅ 2
    [impedance_feedback] (dut_pqxx "") s =
    after (events r ++ [Sleep 1000])
      (outer_loop (doubles scripted quiet quiet quiet) ∅ 1
         [impedance_feedback] (dut_pqxx "")
         (State (sleep_for (doubles scripted quiet quiet quiet) 1000
                   (world (final r)))
            (queries_generated (final r)) (global_cerr_logger (final r)))).
Proof.
  apply (C2_backoff_then_same_harness (doubles scripted quiet quiet quiet) ∅
           [impedance_feedback] (dut_pqxx "") (initial (start [disconnects]))
           "select 0" broken_session 1).
  - apply doubles_well_behaved, quiet_raises_nothing.
  - apply scripted_raises_failures.
  - vm_compute. do 6 apply list_elem_of_further. apply list_elem_of_here.
  - reflexivity.
Defined.

Lemma C6_witness :
  let env := doubles scripted quiet quiet quiet in
  let loggers := [impedance_feedback; cerr_logger] in
  let s := initial (start [rejects]) in
  let r := generate_and_test env loggers (dut_pqxx "") s in
  exists raised,
    tests (events r) = [raised] /\
    match raised with
    | None =>
        notices (events r) =
          map (pair on_generated) loggers ++ map (pair on_executed) loggers /\
        outcome r = Normal tt /\
        inner_loop env ∅ 2 loggers (dut_pqxx "") s =
          after (events r) (inner_loop env ∅ 1 loggers (dut_pqxx "") (final r))
    | Some e =>
        notices (events r) =
          map (pair on_generated) loggers ++ map (pair on_error) loggers /\
        if is_broken e then
          outcome r = Throw e /\
          inner_loop env ∅ 2 loggers (dut_pqxx "") s =
            Result (Throw e) (events r) (final r) /\
          outcome (session env ∅ 2 loggers (dut_pqxx "") s) = Normal tt /\
          events (session env ∅ 2 loggers (dut_pqxx "") s) =
            events r ++ [Sleep 1000]
        else
          outcome r = Normal tt /\
          inner_loop env ∅ 2 loggers (dut_pqxx "") s =
            after (events r) (inner_loop env ∅ 1 loggers (dut_pqxx "") (final r))
    end.
Proof.
  apply (C6_classification_dispatch (doubles scripted quiet quiet quiet) ∅
           [impedance_feedback; cerr_logger] (dut_pqxx "")
           (initial (start [rejects])) (initial (start [rejects])) 1).
  - apply doubles_well_behaved, quiet_raises_nothing.
  - apply scripted_raises_failures.
  - reflexivity.
Defined.



(** * Observer failures *)

(** C3. The claim holds for the [error] hook only. With the loggers of
    [--log-to] and [--verbose], which are [impedance_feedback],
    [pqxx_logger] and [cerr_logger] in this order, a [generated] hook of
    the [pqxx_logger] that raises a [runtime_error] on the first statement
    ends the process with status 1, and the [generated] hook of the
    [cerr_logger] is never called; an [executed] hook that raises does the
    same after the first execution, and the [executed] hook of the
    [cerr_logger] is never called. *)
Theorem C3_generated_or_executed_hook_failure_ends_the_run :
  let options : gmap string string :=
    {[ "log-to" := "dbname=log"; "verbose" := "" ]} in
  let log := pqxx_logger "" "dbname=log" (schema_pqxx "") in
  let r_generated :=
    main release (doubles reliable log_database_down quiet quiet)
      options 42 3 (initial (start [])) in
  let r_executed :=
    main release (doubles reliable quiet log_database_down quiet)
      options 42 3 (initial (start [])) in
  configured_loggers options = [impedance_feedback; log; cerr_logger] /\
  (outcome r_generated = Exit 1 /\
   statements (events r_generated) = [42] /\
   notices (events r_generated) =
     [(on_generated, impedance_feedback); (on_generated, log)]) /\
  (outcome r_executed = Exit 1 /\
   statements (events r_executed) = [42] /\
   notices (events r_executed) =
     [(on_generated, impedance_feedback); (on_generated, log);
      (on_generated, cerr_logger);
      (on_executed, impedance_feedback); (on_executed, log)]).
Proof. vm_compute. by repeat split. Qed.

(** The sibling path: an [error] hook that raises a [runtime_error] is
    reported on [cerr], the next logger is notified, and the loop goes on
    to the next statement. *)
Example error_hook_failure_is_isolated :
  let options : gmap string string :=
    {[ "log-to" := "dbname=log"; "verbose" := ""; "max-queries" := "2" ]} in
  let log := pqxx_logger "" "dbname=log" (schema_pqxx "") in
  let r := main release (doubles scripted quiet quiet log_database_down)
             options 42 3 (initial (start [rejects])) in
  outcome r = Exit 0 /\
  statements (events r) = [42; 43] /\
  notices (events r) =
    [(on_generated, impedance_feedback); (on_generated, log);
     (on_generated, cerr_logger);
     (on_error, impedance_feedback); (on_error, log);
     (on_error, cerr_logger);
     (on_generated, impedance_feedback); (on_generated, log);
     (on_generated, cerr_logger);
     (on_executed, impedance_feedback); (on_executed, log);
     (on_executed, cerr_logger)] /\
  Cerr (endl +:+ "log failed: pqxx_logger: connection to log lost" +:+ endl)
    ∈ events r.
Proof.
  vm_compute. repeat split.
  repeat first [apply list_elem_of_here | apply list_elem_of_further].
Qed.

(** Lines 52 to 57: with a report that returns, the handler of SIGINT ends
    the process with status 1. *)
Lemma cerr_log_handler_exits {W prod} (env : collaborators W prod) w q g :
  well_behaved env ->
  outcome (cerr_log_handler env (State w q g)) = Exit 1.
Proof.
  intros Hwb. unfold cerr_log_handler, mbind, M_bind, bind; simpl.
  destruct g; simpl; [|done].
  unfold do_report, call; simpl.
  pose proof (report_returns env Hwb w) as Hr.
  destruct (report env w) as [r w']; simpl in *. by subst r.
Qed.

(** The claim on the exit status does hold of a run that an exception
    ends, whatever raised it. *)
Example bad_seed_reaches_the_handler :
  nonzero_only_on_failure release (doubles reliable quiet quiet quiet)
    {[ "seed" := "forty-two" ]} 42 false 3 (initial (start [])).
Proof.
  intros n _ _. right. right. exists (logic_error "stoi").
  vm_compute. reflexivity.
Qed.

(** In a build without SQLite, [--sqlite] makes [main] return 1 at line
    106, before any schema is loaded and without any exception. *)
Example sqlite_is_not_built_in :
  let r := main without_sqlite (doubles reliable quiet quiet quiet)
             {[ "sqlite" := "fuzz.db" ]} 42 3 (initial (start [])) in
  outcome r = Exit 1 /\
  events r =
    [Cerr ("sqlsmith unreleased" +:+ endl);
     Cerr ("Sorry, sqlsmith was compiled without SQLite support." +:+ endl)].
Proof. vm_compute. by split. Qed.

(** * The dry run *)

(** C8. A dry run constructs no DUT and executes nothing, but its ceiling
    is checked after the statement is printed: with [--max-queries=0] it
    prints one statement before it returns 0, where the executing loop
    generates none. *)
Theorem C8_dry_run_with_zero_ceiling_prints_one_statement :
  let r := main release (doubles reliable quiet quiet quiet)
             {[ "dry-run" := ""; "max-queries" := "0" ]} 42 3
             (initial (start [])) in
  let r' := main release (doubles reliable quiet quiet quiet)
              {[ "max-queries" := "0" ]} 42 3 (initial (start [])) in
  outcome r = Exit 0 /\
  statements (events r) = [42] /\
  connections (events r) = [] /\
  tests (events r) = [] /\
  outcome r' = Exit 0 /\
  statements (events r') = [].
Proof. vm_compute. by repeat split. Qed.

(** * Examples *)

Example stol_plain : stol "5" = inr 5.
Proof. reflexivity. Qed.

Example stol_prefix : stol "  -12abc" = inr (-12).
Proof. reflexivity. Qed.

Example stol_empty : stol "" = inl (logic_error "stol").
Proof. reflexivity. Qed.

Example stol_out_of_range :
  stol "9223372036854775808" = inl (logic_error "stol").
Proof. reflexivity. Qed.

Example stoi_out_of_range : stoi "2147483648" = inl (logic_error "stoi").
Proof. reflexivity. Qed.

(** A run without failure meets both predicates that the runs with a
    failure do not. *)
Example run_without_failure :
  let r := main release (doubles scripted quiet quiet quiet)
             {[ "max-queries" := "2" ]} 42 3 (initial (start [])) in
  outcome r = Exit 0 /\
  tests (events r) = [None; None] /\
  recreates false (events r) = true /\
  all_timed false (events r) = true.
Proof. vm_compute. by repeat split. Qed.

(** An option that is not a number ends the process with status 1 although
    the schema is loaded and no collaborator raised. *)
Example seed_that_is_no_number :
  let r := main release (doubles reliable quiet quiet quiet)
             {[ "seed" := "forty-two" ]} 42 3 (initial (start [])) in
  outcome r = Exit 1 /\
  events r =
    [Cerr ("sqlsmith unreleased" +:+ endl);
     Cout ("=====:  :======" +:+ endl);
     NewSchema (schema_pqxx "") None; FillScope (schema_pqxx "") None;
     NewLogger impedance_feedback None; Cerr ("stoi" +:+ endl)].
Proof. vm_compute. by split. Qed.

(** Without [--seed], two processes seed the generator differently, and the
    doubles then generate different statements. *)
Example seed_is_the_process_id :
  let run pid := main release (doubles reliable quiet quiet quiet)
                   {[ "dry-run" := ""; "max-queries" := "2" ]} pid 3
                   (initial (start [])) in
  seeds (events (run 41)) = [41] /\
  statements (events (run 41)) = [41; 42] /\
  seeds (events (run 42)) = [42] /\
  statements (events (run 42)) = [42; 43].
Proof. vm_compute. by repeat split. Qed.

(** * The arguments of [main] *)

Lemma append_nil_l (s : string) : "" +:+ s = s.
Proof. reflexivity. Qed.

Lemma append_cons a (p s : string) : String a p +:+ s = String a (p +:+ s).
Proof. reflexivity. Qed.

Lemma append_assoc (a b c : string) : (a +:+ b) +:+ c = a +:+ (b +:+ c).
Proof.
  induction a as [|x a IH]; [done|]. by rewrite !append_cons, IH.
Qed.

Lemma append_nil_r (a : string) : a +:+ "" = a.
Proof. induction a as [|x a IH]; [done|]. by rewrite append_cons, IH. Qed.

Lemma append_inv_l (l s s' : string) : l +:+ s = l +:+ s' -> s = s'.
Proof.
  induction l as [|a l IH]; [done|]. rewrite !append_cons. intros [= H]. auto.
Qed.

Lemma strip_prefix_Some p s s' : strip_prefix p s = Some s' <-> s = p +:+ s'.
Proof.
  revert s. induction p as [|a p IH]; intros s; simpl.
  - rewrite append_nil_l. split; congruence.
  - rewrite append_cons. destruct s as [|b s]; [split; discriminate|].
    destruct (Ascii.eqb_spec a b) as [->|Hne].
    + rewrite IH. split; congruence.
    + split; [discriminate|]. intros [= -> _]. done.
Qed.

Section Paths.

Variable boost : bool.

Lemma elem_of_paths_Lit l s c p :
  p ∈ paths boost (Lit l) s c <-> exists s', s = l +:+ s' /\ p = Path l s' c.
Proof.
  simpl. destruct (strip_prefix l s) as [s'|] eqn:H.
  - apply strip_prefix_Some in H. rewrite list_elem_of_singleton. split.
    + intros ->. by exists s'.
    + intros (s'' & Hs & ->). subst s. f_equal. by apply append_inv_l in Hs.
  - split; [by intros ?%elem_of_nil|]. intros (s' & Hs & _).
    apply strip_prefix_Some in Hs. congruence.
Qed.

Lemma elem_of_paths_Seq r1 r2 s c p :
  p ∈ paths boost (Seq r1 r2) s c <->
  exists p1 p2,
    p1 ∈ paths boost r1 s c /\ p2 ∈ paths boost r2 (rest p1) (caps p1) /\
    p = Path (matched p1 +:+ matched p2) (rest p2) (caps p2).
Proof.
  simpl. rewrite list_elem_of_bind. split.
  - intros (p1 & Hp & H1). apply list_elem_of_bind in Hp as (p2 & Hp & H2).
    apply list_elem_of_singleton in Hp. by exists p1, p2.
  - intros (p1 & p2 & H1 & H2 & ->). exists p1. split; [|done].
    apply list_elem_of_bind. exists p2. split; [|done]. by apply list_elem_of_singleton.
Qed.

Lemma elem_of_paths_Group n r s c p :
  p ∈ paths boost (Group n r) s c <->
  exists p1,
    p1 ∈ paths boost r s c /\
    p = Path (matched p1) (rest p1) (<[n := matched p1]> (caps p1)).
Proof.
  simpl. rewrite list_elem_of_bind. split.
  - intros (p1 & Hp & H1). apply list_elem_of_singleton in Hp. by exists p1.
  - intros (p1 & H1 & ->). exists p1. split; [|done]. by apply list_elem_of_singleton.
Qed.

Lemma elem_of_paths_Opt r s c p :
  p ∈ paths boost (Opt r) s c <-> p ∈ paths boost r s c \/ p = Path "" s c.
Proof. simpl. by rewrite elem_of_app, list_elem_of_singleton. Qed.

Lemma elem_of_paths_Alt r1 r2 s c p :
  p ∈ paths boost (Alt r1 r2) s c <->
  p ∈ paths boost r1 s c \/ p ∈ paths boost r2 s c.
Proof. simpl. by rewrite elem_of_app. Qed.

(** The alternation of the option names matches one of them. *)
Lemma elem_of_paths_names s c p :
  p ∈ paths boost
        (Alt (Lit "help") (Alt (Lit "log-to") (Alt (Lit "verbose")
        (Alt (Lit "target") (Alt (Lit "sqlite") (Alt (Lit "monetdb")
        (Alt (Lit "version") (Alt (Lit "dump-all-graphs") (Alt (Lit "seed")
        (Alt (Lit "dry-run") (Lit "max-queries"))))))))))) s c <->
  exists name s', name ∈ option_names /\ s = name +:+ s' /\ p = Path name s' c.
Proof.
  rewrite !elem_of_paths_Alt, !elem_of_paths_Lit. unfold option_names.
  split.
  - intros H.
    repeat (destruct H as [(s' & Hs & Hp)|H];
            [eexists _, s'; split; [|done]; set_solver|]).
    destruct H as (s' & Hs & Hp). eexists _, s'. split; [|done]. set_solver.
  - intros (name & s' & Hin & Hs & Hp).
    rewrite !elem_of_cons, elem_of_nil in Hin.
    repeat (destruct Hin as [->|Hin]; [eauto 20|]). done.
Qed.

(** The characters [(?:.|\n)] matches. *)
Lemma elem_of_paths_any s c p :
  p ∈ paths boost (Alt Dot (Lit endl)) s c <->
  exists a s', s = String a s' /\ value_char boost a = true /\
               p = Path (String a "") s' c.
Proof.
  rewrite elem_of_paths_Alt, elem_of_paths_Lit. unfold endl. simpl.
  destruct s as [|a s].
  { split; [intros [[]%elem_of_nil|(? & [=] & _)]|intros (? & ? & [=] & _)]. }
  unfold dot, value_char, line_terminator. split.
  - intros [Hp|(s' & Hs & ->)].
    + destruct (Ascii.eqb_spec a "010") as [->|_]; simpl in Hp.
      * rewrite orb_false_r in Hp. destruct boost; simpl in Hp;
          [|by apply elem_of_nil in Hp].
        apply list_elem_of_singleton in Hp as ->. by eexists _, _.
      * destruct (boost || negb (Ascii.eqb a "013")) eqn:Ha;
          [|by apply elem_of_nil in Hp].
        apply list_elem_of_singleton in Hp as ->. by eexists _, _.
    + rewrite append_cons, append_nil_l in Hs. injection Hs as -> ->.
      exists "010"%char, s'. split; [done|]. split; [|done]. by rewrite orb_true_r.
  - intros (a' & s' & [= <- <-] & Ha & ->).
    destruct (Ascii.eqb_spec a "010") as [->|Hlf].
    + right. exists s. by rewrite append_cons, append_nil_l.
    + left. simpl. rewrite Ha. by apply list_elem_of_singleton.
Qed.

Lemma iterate_any_sound fuel s c p :
  p ∈ iterate (paths boost (Alt Dot (Lit endl))) fuel s c ->
  s = matched p +:+ rest p /\ caps p = c /\ every (value_char boost) (matched p) = true.
Proof.
  revert s c p. induction fuel as [|fuel IH]; intros s c p; simpl.
  - by intros ->%list_elem_of_singleton.
  - rewrite elem_of_app, list_elem_of_singleton, list_elem_of_bind.
    intros [(p1 & Hp & (a & s' & -> & Ha & ->)%elem_of_paths_any)| ->]; [|done].
    simpl in Hp. apply list_elem_of_bind in Hp as (p2 & ->%list_elem_of_singleton & Hp2).
    apply IH in Hp2 as (-> & -> & Hv). simpl.
    rewrite !append_cons, !append_nil_l. simpl. by rewrite Ha, Hv.
Qed.

Lemma iterate_any_complete fuel v s' c :
  every (value_char boost) v = true -> (String.length v <= fuel)%nat ->
  Path v s' c ∈ iterate (paths boost (Alt Dot (Lit endl))) fuel (v +:+ s') c.
Proof.
  revert v. induction fuel as [|fuel IH]; intros v Hv Hlen.
  - destruct v; [|simpl in Hlen; lia]. simpl. by apply list_elem_of_singleton.
  - destruct v as [|a v].
    { simpl. apply elem_of_app. right. by apply list_elem_of_singleton. }
    simpl in Hv. apply andb_true_iff in Hv as [Ha Hv].
    change (iterate ?f (S fuel) ?s c) with
      ((p1 ← f s c;
        match matched p1 with
        | EmptyString => []
        | _ => p2 ← iterate f fuel (rest p1) (caps p1);
               [Path (matched p1 +:+ matched p2) (rest p2) (caps p2)]
        end) ++ [Path "" s c]).
    apply elem_of_app. left. apply list_elem_of_bind.
    exists (Path (String a "") (v +:+ s') c). split.
    + simpl. apply list_elem_of_bind. exists (Path v s' c).
      split; [by apply list_elem_of_singleton|]. apply IH; [done|]. simpl in Hlen. lia.
    + apply elem_of_paths_any. by exists a, (v +:+ s').
Qed.

(** The ways [optregex] matches all of an argument. *)
Lemma elem_of_paths_optregex s p :
  p ∈ paths boost optregex s ∅ /\ rest p = "" <->
  exists name,
    name ∈ option_names /\
    (s = "--" +:+ name /\ p = Path s "" {[1%nat := name]} \/
     exists value,
       s = "--" +:+ name +:+ "=" +:+ value /\
       every (value_char boost) value = true /\
       p = Path s "" (<[2%nat := value]> {[1%nat := name]})).
Proof.
  unfold optregex. split.
  - intros [Hp Hrest].
    apply elem_of_paths_Seq in Hp
        as (p1 & p2 & (s1 & -> & ->)%elem_of_paths_Lit & Hp & ->).
    cbn [matched rest caps] in *.
    apply elem_of_paths_Seq in Hp as (p3 & p4 & Hp3 & Hp4 & ->).
    cbn [matched rest caps] in *.
    apply elem_of_paths_Group in Hp3 as (p5 & Hp5 & ->).
    cbn [matched rest caps] in *.
    apply elem_of_paths_names in Hp5 as (name & s2 & Hname & -> & ->).
    cbn [matched rest caps] in *.
    exists name. split; [done|]. rewrite insert_empty in Hp4.
    apply elem_of_paths_Opt in Hp4 as [Hp4| ->]; cbn [matched rest caps] in *.
    + right.
      apply elem_of_paths_Seq in Hp4
          as (p6 & p7 & (s3 & -> & ->)%elem_of_paths_Lit & Hp7 & ->).
      cbn [matched rest caps] in *.
      apply elem_of_paths_Group in Hp7 as (p8 & Hp8 & ->).
      cbn [matched rest caps] in *.
      apply iterate_any_sound in Hp8 as (-> & Hc & Hv).
      rewrite Hrest, append_nil_r in *.
      exists (matched p8). by rewrite Hc.
    + left. subst s2. by rewrite !append_nil_r.
  - intros (name & Hname & [[-> ->]|(value & -> & Hv & ->)]); (split; [|done]).
    + apply elem_of_paths_Seq.
      exists (Path "--" name ∅), (Path name "" {[1%nat := name]}).
      split; [apply elem_of_paths_Lit; by eexists|]. split; [|done].
      cbn [matched rest caps]. apply elem_of_paths_Seq.
      exists (Path name "" {[1%nat := name]}), (Path "" "" {[1%nat := name]}).
      split; [|split].
      * apply elem_of_paths_Group. exists (Path name "" ∅). split.
        -- apply elem_of_paths_names. exists name, "". by rewrite append_nil_r.
        -- cbn [matched rest caps]. by rewrite insert_empty.
      * apply elem_of_paths_Opt. by right.
      * cbn [matched rest caps]. by rewrite append_nil_r.
    + apply elem_of_paths_Seq.
      exists (Path "--" (name +:+ "=" +:+ value) ∅),
        (Path (name +:+ "=" +:+ value) "" (<[2%nat := value]> {[1%nat := name]})).
      split; [apply elem_of_paths_Lit; by eexists|]. split; [|done].
      cbn [matched rest caps]. apply elem_of_paths_Seq.
      exists (Path name ("=" +:+ value) {[1%nat := name]}),
        (Path ("=" +:+ value) "" (<[2%nat := value]> {[1%nat := name]})).
      split; [|split; [|done]].
      * apply elem_of_paths_Group. exists (Path name ("=" +:+ value) ∅). split.
        -- apply elem_of_paths_names. by exists name, ("=" +:+ value).
        -- cbn [matched rest caps]. by rewrite insert_empty.
      * apply elem_of_paths_Opt. left. apply elem_of_paths_Seq.
        exists (Path "=" value {[1%nat := name]}),
          (Path value "" (<[2%nat := value]> {[1%nat := name]})).
        split; [apply elem_of_paths_Lit; by eexists|]. split; [|done].
        apply elem_of_paths_Group. exists (Path value "" {[1%nat := name]}).
        split; [|done]. cbn [matched rest caps].
        change (paths boost (Star ?r) ?s ?c) with
          (iterate (paths boost r) (String.length s) s c).
        rewrite <- (append_nil_r value) at 2 3.
        apply iterate_any_complete; [done|]. by rewrite append_nil_r.
Qed.

End Paths.

Lemma option_name_unique name name' t t' :
  name ∈ option_names -> name' ∈ option_names ->
  name +:+ t = name' +:+ t' -> name = name' /\ t = t'.
Proof.
  unfold option_names. rewrite !elem_of_cons, !elem_of_nil.
  intros H H' Heq.
  repeat (destruct H as [->|H]); try done;
    repeat (destruct H' as [->|H']); try done;
    rewrite ?append_cons, ?append_nil_l in Heq; by simplify_eq.
Qed.

(** What [regex_match] gives for [optregex]. *)
Lemma regex_match_optregex boost s m :
  regex_match boost s optregex = Some m <->
  exists name,
    name ∈ option_names /\
    (s = "--" +:+ name /\ m = {[1%nat := name]} \/
     exists value,
       s = "--" +:+ name +:+ "=" +:+ value /\
       every (value_char boost) value = true /\
       m = <[2%nat := value]> {[1%nat := name]}).
Proof.
  unfold regex_match.
  assert (Hsound : forall p,
    p ∈ filter (fun p => rest p = "") (paths boost optregex s ∅) ->
    exists name,
      name ∈ option_names /\
      (s = "--" +:+ name /\ caps p = {[1%nat := name]} \/
       exists value,
         s = "--" +:+ name +:+ "=" +:+ value /\
         every (value_char boost) value = true /\
         caps p = <[2%nat := value]> {[1%nat := name]})).
  { intros p [Hrest Hp]%list_elem_of_filter.
    destruct (proj1 (elem_of_paths_optregex boost s p) (conj Hp Hrest))
      as (name & Hn & [[-> ->]|(v & -> & Hv & ->)]); exists name; eauto 10. }
  split.
  - destruct (head _) as [p|] eqn:Hh; [|done]. intros [= <-].
    apply Hsound. by apply head_Some_elem_of.
  - intros (name & Hn & Hcases).
    assert (exists p, p ∈ filter (fun p => rest p = "") (paths boost optregex s ∅))
      as [p Hp].
    { destruct Hcases as [[Hs _]|(v & Hs & Hv & _)].
      - exists (Path s "" {[1%nat := name]}). apply list_elem_of_filter.
        apply and_comm, elem_of_paths_optregex. exists name. eauto.
      - exists (Path s "" (<[2%nat := v]> {[1%nat := name]})).
        apply list_elem_of_filter.
        apply and_comm, elem_of_paths_optregex. exists name. eauto 10. }
    destruct (head _) as [p'|] eqn:Hh;
      [|apply head_None in Hh; rewrite Hh in Hp; by apply elem_of_nil in Hp].
    simpl. f_equal. apply head_Some_elem_of in Hh.
    destruct (Hsound _ Hh) as (name' & Hn' & Hcases').
    destruct Hcases as [[-> ->]|(v & -> & Hv & ->)];
      destruct Hcases' as [[Hs' ->]|(v' & Hs' & Hv' & ->)];
      rewrite ?append_cons, ?append_nil_l in Hs'; injection Hs'; clear Hs';
      intros Hs'.
    + rewrite <- (append_nil_r name), <- (append_nil_r name') in Hs'.
      by apply option_name_unique in Hs' as [-> _].
    + rewrite <- (append_nil_r name) in Hs'.
      by apply option_name_unique in Hs' as [_ ?].
    + rewrite <- (append_nil_r name') in Hs'.
      by apply option_name_unique in Hs' as [_ ?].
    + apply option_name_unique in Hs' as [-> [= ->]]; done.
Qed.


Section Parsing.

Context {W prod : Type}.
Variable boost : bool.

Lemma parse_options_run args options (s : state W) :
  parse_options (prod:=prod) boost args options s =
    Result (Normal (options_of boost args options)) (cannot_parse boost args) s.
Proof.
  revert options. induction args as [|arg args IH]; intros options; [done|].
  simpl. unfold parse_option, assignment, cannot_parse. simpl.
  destruct (regex_match boost arg optregex) as [m|]; simpl.
  - rewrite bind_ret. apply IH.
  - rewrite bind_assoc, bind_emit, bind_ret. unfold cannot_parse in IH.
    by rewrite IH.
Qed.

Lemma assignment_name arg : (assignment boost arg).1 ∈ option_names.
Proof.
  unfold assignment.
  destruct (regex_match boost arg optregex) as [m|] eqn:Hm;
    [|apply list_elem_of_here].
  apply regex_match_optregex in Hm
      as (name & Hn & [[-> ->]|(v & -> & Hv & ->)]); simpl; unfold sub_match.
  - by rewrite lookup_singleton_eq.
  - by rewrite lookup_insert_ne, lookup_singleton_eq.
Qed.

Lemma options_of_snoc args arg options :
  options_of boost (args ++ [arg]) options =
    <[(assignment boost arg).1 := (assignment boost arg).2]>
      (options_of boost args options).
Proof. unfold options_of. by rewrite foldl_app. Qed.

Lemma assigned_snoc key args arg :
  assigned boost key (args ++ [arg]) =
    assigned boost key args ++
    (if decide ((assignment boost arg).1 = key)
     then [(assignment boost arg).2] else []).
Proof.
  unfold assigned. rewrite project_app. simpl.
  by destruct (decide ((assignment boost arg).1 = key)).
Qed.

Lemma lookup_options_of args options key :
  options_of boost args options !! key =
    match last (assigned boost key args) with
    | Some v => Some v
    | None => options !! key
    end.
Proof.
  induction args as [|arg args IH] using rev_ind; [done|].
  rewrite options_of_snoc, assigned_snoc.
  destruct (decide ((assignment boost arg).1 = key)) as [<-|Hne].
  - by rewrite lookup_insert_eq, last_snoc.
  - by rewrite lookup_insert_ne, app_nil_r.
Qed.

Lemma lookup_options_of_name args key :
  is_Some (options_of boost args ∅ !! key) -> key ∈ option_names.
Proof.
  rewrite lookup_options_of, lookup_empty.
  destruct (last (assigned boost key args)) as [v|] eqn:Hl; [|by intros [? ?]].
  intros _. apply last_Some_elem_of in Hl. revert Hl. unfold assigned.
  induction args as [|arg args IH]; simpl; [by intros ?%elem_of_nil|].
  destruct (decide ((assignment boost arg).1 = key)) as [<-|Hne]; [|done].
  intros _. apply assignment_name.
Qed.

End Parsing.

(** * The command line *)

(** X1. The arguments [main] recognises (line 64): an argument is matched
    by [optregex], with [name] as its first group and [value] as its
    second, exactly when [name] is one of the eleven option names and the
    argument is [--name=value], or [--name] with the empty value. A value
    holds any character, but a carriage return where [std::regex] does the
    matching. *)
Theorem X1_arguments_recognised boost arg name value :
  (exists m, regex_match boost arg optregex = Some m /\
             sub_match m 1 = name /\ sub_match m 2 = value) <->
  name ∈ option_names /\ every (value_char boost) value = true /\
  (arg = "--" +:+ name +:+ "=" +:+ value \/ value = "" /\ arg = "--" +:+ name).
Proof.
  split.
  - intros (m & Hm & <- & <-).
    apply regex_match_optregex in Hm
        as (name & Hn & [[-> ->]|(v & -> & Hv & ->)]); unfold sub_match.
    + rewrite lookup_singleton_eq, lookup_singleton_ne by done. simpl. eauto.
    + rewrite lookup_insert_ne, lookup_singleton_eq, lookup_insert_eq by done.
      simpl. eauto.
  - intros (Hn & Hv & [-> |[-> ->]]).
    + exists (<[2%nat := value]> {[1%nat := name]}). split.
      * apply regex_match_optregex. eauto 10.
      * unfold sub_match.
        by rewrite lookup_insert_ne, lookup_singleton_eq, lookup_insert_eq.
    + exists {[1%nat := name]}. split.
      * apply regex_match_optregex. eauto 10.
      * unfold sub_match.
        by rewrite lookup_singleton_eq, lookup_singleton_ne.
Qed.

Section CommandLine.

Context {W prod : Type}.
Variable boost : bool.
Variable cfg : build.
Variable env : collaborators W prod.
Variable pid : Z.

Lemma main_usage_or_run options fuel :
  main cfg env options pid fuel =
    (emit (Cerr (PACKAGE_NAME cfg +:+ " " +:+ GITREV cfg +:+ endl));;
     usage_or_run cfg env pid options fuel).
Proof. reflexivity. Qed.

Lemma main_argv_run argv fuel s :
  main_argv boost cfg env pid argv fuel s =
    after (Cerr (PACKAGE_NAME cfg +:+ " " +:+ GITREV cfg +:+ endl) ::
           cannot_parse boost (tail argv))
      (usage_or_run cfg env pid (options_of boost (tail argv) ∅) fuel s).
Proof.
  unfold main_argv. rewrite bind_emit.
  rewrite (bind_normal _ _ _ _ _ _ (parse_options_run boost _ _ s)).
  by rewrite after_after.
Qed.

Lemma help_assigned args arg :
  arg ∈ args -> (assignment boost arg).1 = "help" ->
  count (options_of boost args ∅) "help" = true.
Proof.
  intros Hin Ha. unfold count. apply bool_decide_eq_true.
  rewrite lookup_options_of.
  assert (H : assigned boost "help" args <> []).
  { unfold assigned. induction Hin as [arg args|arg arg' args Hin IH]; simpl.
    - by rewrite decide_True.
    - destruct (decide _); [done|]. by apply IH. }
  destruct (assigned boost "help" args) as [|v vs] using rev_ind; [done|].
  by rewrite last_snoc.
Qed.

(** What names [help]: the option itself, and what cannot be parsed. *)
Lemma assignment_help arg :
  regex_match boost arg optregex = None \/ arg = "--help" \/
  (exists v, arg = "--help=" +:+ v) ->
  (assignment boost arg).1 = "help".
Proof.
  unfold assignment.
  destruct (regex_match boost arg optregex) as [m|] eqn:Hm; [|done].
  intros [?|Harg]; [done|]. simpl.
  assert (Hhelp : "help" ∈ option_names) by apply list_elem_of_here.
  apply regex_match_optregex in Hm
      as (name & Hn & [[-> ->]|(v & -> & Hv & ->)]); unfold sub_match;
    rewrite ?lookup_singleton_eq, ?lookup_insert_ne, ?lookup_singleton_eq by done;
    simpl; destruct Harg as [Harg|[v' Harg]];
    rewrite ?append_cons, ?append_nil_l in Harg; injection Harg; clear Harg;
    intros Harg.
  - rewrite <- (append_nil_r name), <- (append_nil_r "help") in Harg.
    by apply option_name_unique in Harg as [-> _].
  - rewrite <- (append_nil_r name) in Harg.
    change (String "h" (String "e" (String "l" (String "p" (String "=" v')))))
      with ("help" +:+ "=" +:+ v') in Harg.
    by apply option_name_unique in Harg as [-> _].
  - rewrite <- (append_nil_r "help") in Harg.
    by apply option_name_unique in Harg as [-> _].
  - change (String "h" (String "e" (String "l" (String "p" (String "=" v')))))
      with ("help" +:+ "=" +:+ v') in Harg.
    by apply option_name_unique in Harg as [-> _].
Qed.

End CommandLine.

(** X2. An argument that cannot be parsed makes [main] print the usage:
    when one of the arguments is not recognised, or is [--help],
    [main] writes to [cerr] its banner, one line [Cannot parse option] for
    each argument that is not recognised, in their order, and the help
    text, and returns 0. It calls no collaborator and leaves the world as
    it is, whatever the other arguments ask for. *)
Theorem X2_unparsable_argument_prints_usage
    {W prod} (boost : bool) (cfg : build) (env : collaborators W prod)
    (pid : Z) (argv : list string) (arg : string) (fuel : nat) (s : state W) :
  arg ∈ tail argv ->
  regex_match boost arg optregex = None \/ arg = "--help" \/
  (exists v, arg = "--help=" +:+ v) ->
  main_argv boost cfg env pid argv fuel s =
    Result (Exit 0)
      (Cerr (PACKAGE_NAME cfg +:+ " " +:+ GITREV cfg +:+ endl) ::
       cannot_parse boost (tail argv) ++ [Cerr (help_text cfg)])
      s.
Proof.
  intros Hin Harg. rewrite main_argv_run. unfold usage_or_run.
  rewrite (help_assigned boost _ _ Hin (assignment_help boost _ Harg)).
  by rewrite bind_emit.
Qed.

(** X3. The loop over [argv] (lines 66 to 75) always completes, calls no
    collaborator and writes nothing but the lines [Cannot parse option].
    In the map it leaves, an option has the value that the last argument
    naming it gives, an argument that cannot be parsed counting as
    [--help]; and every key of the map is one of the eleven option
    names. *)
Theorem X3_last_argument_wins
    {W prod} (boost : bool) (args : list string) (s : state W) :
  exists options,
    parse_options (prod:=prod) boost args ∅ s =
      Result (Normal options) (cannot_parse boost args) s /\
    (forall key, options !! key = last (assigned boost key args)) /\
    (forall key, is_Some (options !! key) -> key ∈ option_names).
Proof.
  exists (options_of boost args ∅). split; [apply parse_options_run|]. split.
  - intros key. rewrite lookup_options_of, lookup_empty.
    by destruct (last _).
  - apply lookup_options_of_name.
Qed.

(** X4. [main] from its arguments is [main] on the map the arguments
    assign: the same outcome, the same final state, and the same events
    but for the lines [Cannot parse option], which follow the banner. *)
Theorem X4_main_of_the_arguments
    {W prod} (boost : bool) (cfg : build) (env : collaborators W prod)
    (pid : Z) (argv : list string) (fuel : nat) (s : state W) :
  let r := main cfg env (options_of boost (tail argv) ∅) pid fuel s in
  main_argv boost cfg env pid argv fuel s =
    Result (outcome r)
      (Cerr (PACKAGE_NAME cfg +:+ " " +:+ GITREV cfg +:+ endl) ::
       cannot_parse boost (tail argv) ++ tail (events r))
      (final r).
Proof.
  intros r. subst r. rewrite main_argv_run, main_usage_or_run, bind_emit.
  by destruct (usage_or_run _ _ _ _ _ _).
Qed.

Lemma X2_witness :
  main_argv false release (doubles reliable quiet quiet quiet) 42
    ["sqlsmith"; "--seed"; "5"] 3 (initial (start [])) =
    Result (Exit 0)
      (Cerr (PACKAGE_NAME release +:+ " " +:+ GITREV release +:+ endl) ::
       cannot_parse false (tail ["sqlsmith"; "--seed"; "5"]) ++
       [Cerr (help_text release)])
      (initial (start [])).
Proof.
  apply (X2_unparsable_argument_prints_usage false release
           (doubles reliable quiet quiet quiet) 42
           ["sqlsmith"; "--seed"; "5"] "5" 3 (initial (start []))).
  - simpl. repeat first [apply list_elem_of_here | apply list_elem_of_further].
  - left. vm_compute. reflexivity.
Defined.

(** * What every run does *)

Section EveryRun.

Context {W prod : Type}.
Variable cfg : build.
Variable env : collaborators W prod.
Variable options : gmap string string.
Variable pid : Z.

Lemma inner_loop_of_rounds fuel loggers dut :
  emits of_rounds (inner_loop env options fuel loggers dut).
Proof.
  induction fuel as [|fuel IH]; simpl; [emission|].
  apply emits_bind; [|done].
  unfold iteration, check_ceiling, generate_and_test, execute, classify,
    log_error, do_report.
  emission; apply emits_emit; simpl; auto.
Qed.

Lemma outer_loop_of_rounds fuel loggers dut :
  emits of_rounds (outer_loop env options fuel loggers dut).
Proof.
  induction fuel as [|fuel IH]; [emission|].
  change (outer_loop env options (S fuel) loggers dut) with
    (session env options (S fuel) loggers dut;;
     outer_loop env options fuel loggers dut).
  apply emits_bind; [|done]. unfold session.
  apply emits_try_catch; [apply inner_loop_of_rounds|].
  intros e s. unfold sleep; simpl. by repeat constructor.
Qed.

Lemma outer_loop_never_returns fuel loggers dut :
  never_returns (outer_loop env options fuel loggers dut).
Proof.
  induction fuel as [|fuel IH]; intros s a; [done|].
  change (outer_loop env options (S fuel) loggers dut) with
    (session env options (S fuel) loggers dut;;
     outer_loop env options fuel loggers dut).
  unfold mbind, M_bind, bind.
  destruct (outcome (session env options (S fuel) loggers dut s)); simpl;
    done.
Qed.

(** The events of [main] are of the class [P] when those of its parts
    are. *)
Lemma main_emits (P : event prod -> Prop) fuel :
  (forall text, P (Cerr text)) ->
  emits P (set_up cfg env options) ->
  (forall n, P (Seed n)) ->
  (forall loggers, emits P (run cfg env options fuel loggers)) ->
  emits P (main cfg env options pid fuel).
Proof.
  intros Hcerr Hset Hseed Hrun. unfold main.
  apply emits_bind; [by apply emits_emit|intros _].
  apply emits_if; [emission|]. apply emits_if; [emission|].
  apply emits_bind; [|intros; emission].
  apply emits_try_catch; [|intros; emission].
  unfold main_body. apply emits_bind; [done|].
  intros loggers. apply emits_bind; [|done].
  eapply emits_weaken; [|apply seed_rng_emits]. by intros ev [n ->].
Qed.

(** The events of lines 148 to 243 are of the class [P] when those of the
    dry-run loop, the construction of the DUT and the two loops are. *)
Lemma run_emits_by_parts (P : event prod -> Prop) fuel loggers :
  (forall ev, of_dry_run ev -> P ev) ->
  emits P (make_dut cfg env options) ->
  P (Open "ssquery.log") -> P (Open "allqueries.log") ->
  (forall ev, of_rounds ev -> P ev) ->
  emits P (run cfg env options fuel loggers).
Proof.
  intros Hdry Hdut Ho1 Ho2 Hrounds. unfold run.
  apply emits_bind.
  { apply emits_if; [|emission].
    apply (emits_weaken of_dry_run); [done|]. apply dry_run_loop_emits. }
  intros _. apply emits_bind; [done|]. intros dut.
  apply emits_bind; [by apply emits_emit|intros _].
  apply emits_bind; [by apply emits_emit|intros _].
  apply emits_bind_never; [apply outer_loop_never_returns|].
  apply (emits_weaken of_rounds); [done|]. apply outer_loop_of_rounds.
Qed.

Lemma make_dut_emits (P : event prod -> Prop) :
  (forall text, P (Cerr text)) ->
  (forall x, P (NewDut (configured_dut options) x)) ->
  emits P (make_dut cfg env options).
Proof.
  intros Hcerr Hdut. unfold make_dut, configured_dut, new_dut, no_sqlite in *.
  destruct (count options "sqlite"), (count options "monetdb"); emission.
Qed.

End EveryRun.

(** X5. How [main] ends, whatever its collaborators do: it returns 0 or 1,
    or an exception that does not derive from [std::exception] leaves it
    (line 245 catches the others), or it is still running when the fuel
    is spent; it never runs off its end. The two loops of lines 183 to 241
    never complete, so that lines 242 and 243 are never reached: the only
    file [main] ever closes is [ssquery.current]. *)
Theorem X5_how_main_ends
    {W prod} (cfg : build) (env : collaborators W prod)
    (options : gmap string string) (pid : Z) (fuel : nat) (s : state W) :
  let r := main cfg env options pid fuel s in
  ends_main (outcome r) /\
  Forall (fun file => file = "ssquery.current") (closes (events r)) /\
  (forall loggers dut s' a,
     outcome (outer_loop env options fuel loggers dut s') <> Normal a).
Proof.
  intros r. subst r. split; [|split].
  - unfold main. rewrite bind_emit.
    destruct (count options "help"); [by left|].
    destruct (count options "version"); [by left|].
    pose proof (main_body_exits cfg env options pid fuel s) as Hexits.
    destruct (main_body cfg env options pid fuel s)
      as [[a|e|n|] t s'] eqn:Hbody; simpl in *.
    + rewrite (bind_normal _ _ _ _ _ _ (try_catch_normal _ _ _ _ _ _ _ Hbody)).
      by left.
    + destruct (is_std_exception e) eqn:He.
      * unfold mbind, M_bind, bind, try_catch. rewrite Hbody; simpl.
        rewrite He; simpl. by right.
      * by rewrite (bind_throw _ _ _ _ _ _
                      (try_catch_passed _ _ _ _ _ _ _ Hbody He)).
    + rewrite (bind_exit _ _ _ _ _ _ (try_catch_exit _ _ _ _ _ _ _ Hbody)).
      simpl. destruct (Hexits n eq_refl) as [->|(-> & _)]; [by left|by right].
    + by rewrite (bind_out_of_fuel _ _ _ _ _
                    (try_catch_out_of_fuel _ _ _ _ _ _ Hbody)).
  - assert (H : emits (fun ev => forall file, closed ev = Some file ->
                                  file = "ssquery.current")
                  (main cfg env options pid fuel)).
    { apply main_emits; try done.
      - apply (emits_weaken of_set_up); [by intros []|apply set_up_emits].
      - intros loggers. apply run_emits_by_parts; try done.
        + by intros [].
        + by apply make_dut_emits.
        + intros ev Hev f; destruct ev; simpl in *; try done.
          by intros [= <-]. }
    specialize (H s). unfold closes.
    induction H as [|ev t Hev _ IH]; simpl; [constructor|].
    destruct (closed ev) as [file|] eqn:Hc; [|done].
    constructor; [by apply Hev|done].
  - intros loggers dut s' a. apply outer_loop_never_returns.
Qed.

(** X6. A dry run touches neither a DUT nor a file: with [--dry-run] the
    events of [main] are outputs, the construction of the schema and the
    loggers, the seeding of the generator, the generation of statements
    and the [generated] hooks. No DUT is constructed, no statement is
    executed, no file is opened or written, no [executed] or [error] hook
    is called, and the run never sleeps. *)
Theorem X6_dry_run_touches_nothing
    {W prod} (cfg : build) (env : collaborators W prod)
    (options : gmap string string) (pid : Z) (fuel : nat) (s : state W) :
  count options "dry-run" = true ->
  Forall of_dry_main (events (main cfg env options pid fuel s)).
Proof.
  intros Hdry. apply main_emits; try done.
  - apply (emits_weaken of_set_up); [by intros []|apply set_up_emits].
  - intros loggers. apply (emits_weaken of_dry_run); [by intros []|].
    by apply run_dry_emits.
Qed.

(** ** Counting events *)

Section Counting.

Context {W prod B : Type}.
Variable f : event prod -> option B.

Local Abbreviation M := (M W prod).

Lemma at_most_emits {A} (P : event prod -> Prop) (m : M A) :
  (forall ev, P ev -> f ev = None) -> emits P m -> at_most 0 f m.
Proof. intros HP Hm s. by rewrite (project_emitted P f _ HP (Hm s)). Qed.

Lemma at_most_bind {A C} n1 n2 (m : M A) (k : A -> M C) :
  at_most n1 f m -> (forall a, at_most n2 f (k a)) ->
  at_most (n1 + n2) f (m ≫= k).
Proof.
  intros Hm Hk s. unfold mbind, M_bind, bind.
  specialize (Hm s). destruct (outcome (m s)) as [a| | |]; simpl; try lia.
  rewrite project_app, length_app. specialize (Hk a (final (m s))). lia.
Qed.

Lemma at_most_try_catch {A} n1 n2 (m : M A) handles h :
  at_most n1 f m -> (forall e, at_most n2 f (h e)) ->
  at_most (n1 + n2) f (try_catch m handles h).
Proof.
  intros Hm Hh s. unfold try_catch.
  specialize (Hm s). destruct (outcome (m s)) as [|e| |]; simpl; try lia.
  destruct (handles e); simpl; [|lia].
  rewrite project_app, length_app. specialize (Hh e (final (m s))). lia.
Qed.

Lemma at_most_call n g ev : (1 <= n)%nat -> at_most n f (call g ev : M unit).
Proof.
  intros Hn s. unfold call. destruct (g (world s)) as [r w]; simpl.
  destruct (f (ev r)); simpl; lia.
Qed.

Lemma elem_of_project {A} (g : A -> option B) (t : list A) y :
  y ∈ project g t -> exists x, x ∈ t /\ g x = Some y.
Proof.
  induction t as [|x t IH]; simpl; [by intros ?%elem_of_nil|].
  destruct (g x) as [y'|] eqn:Hx.
  - intros [->|Hy]%elem_of_cons.
    + exists x. split; [by left|done].
    + destruct (IH Hy) as (x' & Hin & Hg). exists x'. split; [by right|done].
  - intros Hy. destruct (IH Hy) as (x' & Hin & Hg).
    exists x'. split; [by right|done].
Qed.

End Counting.

Section Databases.

Context {W prod : Type}.
Variable cfg : build.
Variable env : collaborators W prod.
Variable options : gmap string string.
Variable pid : Z.

Lemma configured_same_database :
  same_database (configured_schema options) (configured_dut options).
Proof.
  unfold configured_schema, configured_dut.
  by destruct (count options "sqlite"), (count options "monetdb").
Qed.

(** Every schema and every DUT [main] constructs is the configured
    one. *)
Lemma main_constructs_configured fuel :
  emits (fun ev =>
           (forall sch, loaded ev = Some sch -> sch = configured_schema options) /\
           (forall d, connected ev = Some d -> d = configured_dut options))
    (main cfg env options pid fuel).
Proof.
  apply main_emits; try done.
  - unfold set_up, load_schema, make_loggers, new_schema, new_logger,
      no_sqlite, banner, configured_schema.
    destruct (count options "sqlite"), (count options "monetdb"); emission;
      apply emits_call; intros r; split; simpl; intros ? [= <-]; done.
  - intros loggers. apply run_emits_by_parts; try done.
    + by intros [].
    + apply make_dut_emits; [done|]. intros x. split; simpl; [done|].
      by intros d [= <-].
    + by intros [].
Qed.

Lemma main_loads_once fuel : at_most 1 loaded (main cfg env options pid fuel).
Proof.
  unfold main.
  apply (at_most_bind loaded 0 1);
    [apply (at_most_emits _ (fun ev => loaded ev = None)); [done|emission]|].
  intros _.
  destruct (count options "help");
    [intros s; simpl; lia|].
  destruct (count options "version"); [intros s; simpl; lia|].
  apply (at_most_bind loaded 1 0);
    [|intros; apply (at_most_emits _ (fun ev => loaded ev = None));
      [done|emission]].
  apply (at_most_try_catch loaded 1 0);
    [|intros; apply (at_most_emits _ (fun ev => loaded ev = None));
      [done|emission]].
  unfold main_body.
  apply (at_most_bind loaded 1 0).
  - unfold set_up. apply (at_most_bind loaded 1 0).
    + unfold load_schema, banner, new_schema, no_sqlite.
      destruct (count options "sqlite"), (HAVE_LIBSQLITE3 cfg),
        (count options "monetdb");
        first
          [ apply (at_most_bind loaded 0 1);
            [apply (at_most_emits _ (fun ev => loaded ev = None));
             [done|emission]|];
            intros _; apply (at_most_bind loaded 1 0);
            [by apply at_most_call|]; intros _ s; simpl; lia
          | intros s; simpl; lia ].
    + intros sch.
      apply (at_most_emits _ (fun ev => loaded ev = None)); [done|].
      unfold make_loggers, new_logger. emission.
  - intros loggers.
    apply (at_most_emits _ (fun ev => loaded ev = None)); [done|].
    apply emits_bind.
    + eapply emits_weaken; [|apply seed_rng_emits]. by intros ev [n ->].
    + intros _. apply (emits_weaken of_run); [by intros []|apply run_emits].
Qed.

Lemma main_connects_once fuel :
  at_most 1 connected (main cfg env options pid fuel).
Proof.
  unfold main.
  apply (at_most_bind connected 0 1);
    [apply (at_most_emits _ (fun ev => connected ev = None)); [done|emission]|].
  intros _.
  destruct (count options "help"); [intros s; simpl; lia|].
  destruct (count options "version"); [intros s; simpl; lia|].
  apply (at_most_bind connected 1 0);
    [|intros; apply (at_most_emits _ (fun ev => connected ev = None));
      [done|emission]].
  apply (at_most_try_catch connected 1 0);
    [|intros; apply (at_most_emits _ (fun ev => connected ev = None));
      [done|emission]].
  unfold main_body.
  apply (at_most_bind connected 0 1).
  { apply (at_most_emits _ of_set_up); [by intros []|apply set_up_emits]. }
  intros loggers. apply (at_most_bind connected 0 1).
  { apply (at_most_emits _ (fun ev => exists n, ev = Seed n));
      [by intros ev [n ->]|apply seed_rng_emits]. }
  intros _. unfold run. apply (at_most_bind connected 0 1).
  { apply (at_most_emits _ of_dry_run); [by intros []|].
    apply emits_if; [apply dry_run_loop_emits|emission]. }
  intros _. apply (at_most_bind connected 1 0).
  - unfold make_dut, new_dut, no_sqlite.
    destruct (count options "sqlite"), (HAVE_LIBSQLITE3 cfg),
      (count options "monetdb");
      first
        [ apply (at_most_bind connected 1 0);
          [by apply at_most_call|]; intros _ s; simpl; lia
        | intros s; simpl; lia ].
  - intros dut. apply (at_most_emits _ (fun ev => connected ev = None)); [done|].
    apply emits_bind; [by apply emits_emit|intros _].
    apply emits_bind; [by apply emits_emit|intros _].
    apply emits_bind_never; [apply outer_loop_never_returns|].
    apply (emits_weaken of_rounds); [by intros []|apply outer_loop_of_rounds].
Qed.

End Databases.

(** X7. One database for the schema and for the executions: whatever the
    collaborators do and however often the session breaks, [main]
    constructs at most one schema and at most one DUT, and the DUT stands
    for the database the schema was read from, SQLite, MonetDB or
    PostgreSQL, with the same connection string. *)
Theorem X7_one_schema_one_dut_same_database
    {W prod} (cfg : build) (env : collaborators W prod)
    (options : gmap string string) (pid : Z) (fuel : nat) (s : state W) :
  let t := events (main cfg env options pid fuel s) in
  (length (schemas t) <= 1)%nat /\
  (length (connections t) <= 1)%nat /\
  (forall sch d, sch ∈ schemas t -> d ∈ connections t -> same_database sch d).
Proof.
  intros t. subst t. split; [apply main_loads_once|].
  split; [apply main_connects_once|].
  intros sch d Hsch Hd.
  pose proof (main_constructs_configured cfg env options pid fuel s) as H.
  rewrite Forall_forall in H.
  apply elem_of_project in Hsch as (ev1 & Hin1 & H1).
  apply elem_of_project in Hd as (ev2 & Hin2 & H2).
  rewrite (proj1 (H ev1 Hin1) sch H1), (proj2 (H ev2 Hin2) d H2).
  apply configured_same_database.
Qed.

(** * Runs that meet no failure of the set-up *)

Section Reaches.

Context {W prod : Type}.
Variable cfg : build.
Variable env : collaborators W prod.
Variable options : gmap string string.
Variable pid : Z.
Hypothesis Hsets : sets_up env.
Hypothesis Hsqlite : count options "sqlite" = true -> HAVE_LIBSQLITE3 cfg = true.

Lemma load_schema_runs w q g :
  load_schema cfg env options (State w q g) =
    Result (Normal (configured_schema options))
      [Cout ("=====: " +:+ database options +:+ " :======" +:+ endl);
       NewSchema (configured_schema options) None]
      (State (schema_new env (configured_schema options) w).2 q g).
Proof.
  unfold load_schema, configured_schema, database, banner.
  destruct (count options "sqlite") eqn:Hs.
  - rewrite (Hsqlite eq_refl).
    by rewrite bind_emit, (new_schema_succeeds env Hsets).
  - destruct (count options "monetdb");
      by rewrite bind_emit, (new_schema_succeeds env Hsets).
Qed.

Lemma make_loggers_runs w q g :
  exists w',
    make_loggers env options (configured_schema options) (State w q g) =
      Result (Normal (configured_loggers options))
        (concat (map (fun l => NewLogger l None ::
                               match l with
                               | cerr_logger => [Signal]
                               | _ => []
                               end)
                   (configured_loggers options)))
        (State w' q (count options "verbose" || g)).
Proof.
  unfold make_loggers, configured_loggers.
  step (new_logger_succeeds env Hsets impedance_feedback w q g).
  destruct (count options "log-to"), (count options "verbose"),
    (count options "dump-all-graphs"); simpl;
  repeat first
    [ rewrite bind_assoc
    | rewrite bind_ret
    | rewrite bind_emit
    | rewrite (bind_normal (new_logger env _) _ _ _ _ _
                 (new_logger_succeeds env Hsets _ _ _ _))
    | rewrite bind_set_global_cerr_logger
    | rewrite (new_logger_succeeds env Hsets) ]; by eexists.
Qed.

Lemma set_up_runs w q g :
  exists w',
    set_up cfg env options (State w q g) =
      Result (Normal (configured_loggers options)) (set_up_events options)
        (State w' 0 (count options "verbose" || g)).
Proof.
  destruct (make_loggers_runs
              (fill_scope env (configured_schema options)
                 (schema_new env (configured_schema options) w).2).2 0 g)
    as (w2 & H2).
  exists w2. unfold set_up. step (load_schema_runs w q g).
  rewrite bind_set_queries_generated.
  step (call_returns (prod:=prod) _ (FillScope (configured_schema options))
          (schema_new env (configured_schema options) w).2 0 g
          (scope_fills env Hsets (configured_schema options) _)).
  by rewrite H2.
Qed.

Lemma make_dut_runs w q g :
  make_dut cfg env options (State w q g) =
    Result (Normal (configured_dut options))
      [NewDut (configured_dut options) None]
      (State (dut_new env (configured_dut options) w).2 q g).
Proof.
  unfold make_dut, configured_dut.
  destruct (count options "sqlite") eqn:Hs.
  - rewrite (Hsqlite eq_refl). apply (new_dut_succeeds env Hsets).
  - destruct (count options "monetdb"); apply (new_dut_succeeds env Hsets).
Qed.

End Reaches.

Lemma stoa_raises lo hi name str e :
  stoa lo hi name str = inl e -> e = logic_error name.
Proof.
  unfold stoa. destruct (strtol str) as [v|]; [|congruence].
  destruct (_ && _); congruence.
Qed.

Lemma starts_seed_of cfg options pid :
  starts cfg options -> exists n, seed_of options pid n.
Proof.
  intros Hstarts. unfold seed_of. destruct (count options "seed") eqn:Hs.
  - apply (seed_parses cfg options Hstarts Hs).
  - by exists pid.
Qed.

Section Seeding.

Context {W prod : Type}.
Variable cfg : build.
Variable env : collaborators W prod.
Variable options : gmap string string.
Variable pid : Z.
Hypothesis Hsets : sets_up env.
Hypothesis Hhelp : count options "help" = false.
Hypothesis Hversion : count options "version" = false.
Hypothesis Hsqlite : count options "sqlite" = true -> HAVE_LIBSQLITE3 cfg = true.

(** Lines 99 to 146 of a run that starts. *)
Lemma main_body_seeds w n :
  seed_of options pid n ->
  exists w',
    forall fuel,
      main_body cfg env options pid fuel (initial w) =
        after (set_up_events options ++ [Seed n])
          (run cfg env options fuel (configured_loggers options)
             (State w' 0 (count options "verbose"))).
Proof.
  intros Hn.
  destruct (set_up_runs cfg env options Hsets Hsqlite w 0 false) as (w1 & H1).
  rewrite orb_false_r in H1.
  assert (Hrun :
    seed_rng env options pid (State w1 0 (count options "verbose")) =
      Result (Normal tt) [Seed n]
        (State (rng_seed env n w1) 0 (count options "verbose"))).
  { unfold seed_rng, seed_of in *. destruct (count options "seed").
    - rewrite Hn. simpl. by rewrite bind_ret.
    - subst n. by rewrite bind_ret. }
  exists (rng_seed env n w1). intros fuel.
  unfold main_body, initial. step H1. step Hrun.
  by rewrite after_after.
Qed.

(** Line 146 when the seed is no [int]. *)
Lemma main_body_bad_seed w e :
  count options "seed" = true -> stoi (opt options "seed") = inl e ->
  exists w',
    forall fuel,
      main_body cfg env options pid fuel (initial w) =
        Result (Throw e) (set_up_events options)
          (State w' 0 (count options "verbose")).
Proof.
  intros Hs He.
  destruct (set_up_runs cfg env options Hsets Hsqlite w 0 false) as (w1 & H1).
  rewrite orb_false_r in H1. exists w1. intros fuel.
  unfold main_body, initial. step H1. unfold seed_rng. rewrite Hs, He. simpl.
  unfold mbind, M_bind, bind, after; simpl. by rewrite app_nil_r.
Qed.

(** Lines 97 to 250 around the outer [try] block: status 0 when the block
    completes, status 1 with the message of the exception when it raises
    a [std::exception]. *)
Lemma usage_or_run_of_body fuel s :
  usage_or_run cfg env pid options fuel s =
    let r := main_body cfg env options pid fuel s in
    match outcome r with
    | Normal _ => Result (Exit 0) (events r) (final r)
    | Throw e =>
        if is_std_exception e
        then Result (Exit 1) (events r ++ [Cerr (what e +:+ endl)]) (final r)
        else r
    | _ => r
    end.
Proof.
  unfold usage_or_run. rewrite Hhelp, Hversion.
  unfold mbind, M_bind, bind, try_catch.
  destruct (main_body cfg env options pid fuel s) as [[a|e|n|] t s'];
    simpl; try done.
  - unfold after; simpl. by rewrite app_nil_r.
  - by destruct (is_std_exception e).
Qed.

Lemma main_of_body fuel s :
  main cfg env options pid fuel s =
    after [greeting cfg]
      (let r := main_body cfg env options pid fuel s in
       match outcome r with
       | Normal _ => Result (Exit 0) (events r) (final r)
       | Throw e =>
           if is_std_exception e
           then Result (Exit 1) (events r ++ [Cerr (what e +:+ endl)]) (final r)
           else r
       | _ => r
       end).
Proof.
  rewrite main_usage_or_run, bind_emit. by rewrite usage_or_run_of_body.
Qed.

End Seeding.

(** X8. A seed that is no [int] ends the run with status 1: when what
    [--seed] gives has no leading number or one out of the range of
    [int], [main] loads the schema, fills the scope and constructs the
    loggers, then writes [stoi] to [cerr] and returns 1. The generator is
    not seeded, no statement is generated and no DUT is constructed. *)
Theorem X8_seed_that_is_no_int
    {W prod} (cfg : build) (env : collaborators W prod)
    (options : gmap string string) (pid : Z) (fuel : nat) (w : W) (e : exn) :
  sets_up env ->
  count options "help" = false -> count options "version" = false ->
  (count options "sqlite" = true -> HAVE_LIBSQLITE3 cfg = true) ->
  count options "seed" = true -> stoi (opt options "seed") = inl e ->
  exists w',
    main cfg env options pid fuel (initial w) =
      Result (Exit 1)
        (greeting cfg :: set_up_events options ++ [Cerr ("stoi" +:+ endl)])
        (State w' 0 (count options "verbose")).
Proof.
  intros Hsets Hhelp Hversion Hsqlite Hseed He.
  destruct (main_body_bad_seed cfg env options pid Hsets Hsqlite w e Hseed He)
    as (w' & Hbody).
  exists w'. rewrite (main_of_body cfg env options pid Hhelp Hversion).
  rewrite Hbody. simpl. by rewrite (stoa_raises _ _ _ _ _ He).
Qed.

(** * The dry run, whatever the ceiling *)

Section DryRounds.

Context {W prod : Type}.
Variable env : collaborators W prod.
Variable options : gmap string string.
Variable loggers : list logger.
Hypothesis Hwb : well_behaved env.

(** What a round of the dry-run loop does, before it looks at the
    ceiling. *)
Lemma dry_run_step_runs w q g :
  exists gen w',
    dry_run_step env options loggers (State w q g) =
      Result
        (if count options "max-queries" then
           match stol (opt options "max-queries") with
           | inl e => Throw e
           | inr n => if n <=? wrap_long (q + 1) then Exit 0 else Normal tt
           end
         else Normal tt)
        (dry_block env loggers gen) (State w' (wrap_long (q + 1)) g).
Proof.
  destruct (factory_builds_one env w q g Hwb) as (gen & w1 & Hgen).
  destruct (for_each_returns (fun l => generated env l gen)
              (fun l => Generated l gen) loggers w1 q g
              (fun l w => generated_returns env Hwb l gen w)) as [w2 Hw2].
  exists gen, w2. unfold dry_run_step, dry_block.
  step Hgen. rewrite bind_emit. step Hw2. rewrite bind_emit.
  rewrite bind_get_queries_generated, bind_set_queries_generated.
  destruct (count options "max-queries"); [|done].
  rewrite bind_get_queries_generated.
  destruct (stol (opt options "max-queries")) as [e|n]; simpl; [done|].
  rewrite bind_ret. unfold after; simpl.
  by destruct (n <=? wrap_long (q + 1)).
Qed.

Lemma dry_run_loop_unbounded fuel w q g :
  count options "max-queries" = false ->
  exists gens w' q',
    dry_run_loop env options fuel loggers (State w q g) =
      Result OutOfFuel (concat (map (dry_block env loggers) gens))
        (State w' q' g) /\
    length gens = fuel.
Proof.
  intros Hoff. revert w q. induction fuel as [|fuel IH]; intros w q.
  - by exists [], w, q.
  - destruct (dry_run_step_runs w q g) as (gen & w1 & Hstep).
    rewrite Hoff in Hstep.
    destruct (IH w1 (wrap_long (q + 1))) as (gens & w' & q' & Hloop & Hlen).
    exists (gen :: gens), w', q'. split; [|by rewrite <- Hlen].
    simpl. step Hstep. by rewrite Hloop.
Qed.

Lemma dry_run_loop_invalid fuel w q g e :
  count options "max-queries" = true ->
  stol (opt options "max-queries") = inl e ->
  exists gen w',
    dry_run_loop env options (S fuel) loggers (State w q g) =
      Result (Throw e) (dry_block env loggers gen)
        (State w' (wrap_long (q + 1)) g).
Proof.
  intros Hon He. destruct (dry_run_step_runs w q g) as (gen & w1 & Hstep).
  rewrite Hon, He in Hstep. exists gen, w1. simpl.
  by rewrite (bind_throw _ _ _ _ _ _ Hstep).
Qed.

Lemma dry_run_loop_ceiling N fuel w q g :
  count options "max-queries" = true ->
  stol (opt options "max-queries") = inr N ->
  LONG_MIN <= q < LONG_MAX ->
  (Z.to_nat (Z.max (q + 1) N - q) <= fuel)%nat ->
  exists gens w',
    dry_run_loop env options fuel loggers (State w q g) =
      Result (Exit 0) (concat (map (dry_block env loggers) gens))
        (State w' (Z.max (q + 1) N) g) /\
    length gens = Z.to_nat (Z.max (q + 1) N - q).
Proof.
  intros Hon HN. pose proof (stol_in_range _ _ HN) as Hrange.
  revert w q. induction fuel as [|fuel IH]; intros w q Hq Hfuel; [lia|].
  destruct (dry_run_step_runs w q g) as (gen & w1 & Hstep).
  rewrite Hon, HN, wrap_long_in_range in Hstep
    by (unfold LONG_MIN, LONG_MAX in *; lia).
  simpl. destruct (N <=? q + 1) eqn:Hlast.
  - exists [gen], w1. rewrite (bind_exit _ _ _ _ _ _ Hstep).
    replace (Z.max (q + 1) N) with (q + 1) by lia.
    simpl. rewrite app_nil_r. split; [done|]. lia.
  - destruct (IH w1 (q + 1)) as (gens & w' & Hloop & Hlen);
      [unfold LONG_MIN, LONG_MAX in *; lia|lia|].
    replace (Z.max (q + 1 + 1) N) with (Z.max (q + 1) N) in * by lia.
    exists (gen :: gens), w'. step Hstep. rewrite Hloop. split; [done|].
    simpl. rewrite Hlen. lia.
Qed.

Lemma dry_blocks_statements gens :
  statements (concat (map (dry_block env loggers) gens)) = gens.
Proof.
  induction gens as [|gen gens IH]; [done|].
  unfold statements in *. simpl. rewrite !project_app, IH.
  by rewrite project_map_none.
Qed.

Lemma dry_blocks_prints gens :
  prints (concat (map (dry_block env loggers) gens)) =
    concat (map (fun gen => [out env gen; ";" +:+ endl]) gens).
Proof.
  induction gens as [|gen gens IH]; [done|].
  unfold prints in *. simpl. rewrite !project_app, IH.
  by rewrite project_map_none.
Qed.

End DryRounds.

Lemma logger_events_silent {prod B} (f : event prod -> option B) loggers :
  (forall l x, f (NewLogger l x) = None) -> f Signal = None ->
  project f
    (concat (map (fun l => NewLogger l None ::
                           match l with
                           | cerr_logger => [Signal]
                           | _ => []
                           end) loggers)) = [].
Proof.
  intros H1 H2. induction loggers as [|l ls IH]; [done|].
  simpl. rewrite H1, project_app, IH, app_nil_r. destruct l; simpl; by rewrite ?H2.
Qed.

Lemma set_up_events_prints {prod} options :
  prints (prod:=prod) (set_up_events options) =
    ["=====: " +:+ database options +:+ " :======" +:+ endl].
Proof.
  unfold prints, set_up_events. simpl. f_equal.
  by apply logger_events_silent.
Qed.

Lemma set_up_events_statements {prod} options :
  statements (prod:=prod) (set_up_events options) = [].
Proof.
  unfold statements, set_up_events. simpl. by apply logger_events_silent.
Qed.

(** X9. A dry run prints as many statements as the ceiling says, but at
    least one: with [--dry-run] and [--max-queries=N], [main] loads the
    schema, constructs the loggers, seeds the generator, and goes
    [max(1, N)] times through generation, output of the statement, the
    [generated] hooks and output of [;] and a new line; then it returns 0.
    What it writes to [cout] is the line that names the database and the
    statements, each followed by [;] and a new line. *)
Theorem X9_dry_run_prints_the_ceiling_or_one
    {W prod} (cfg : build) (env : collaborators W prod)
    (options : gmap string string) (pid N : Z) (fuel : nat) (w : W) :
  sets_up env -> well_behaved env -> starts cfg options ->
  count options "dry-run" = true ->
  count options "max-queries" = true ->
  stol (opt options "max-queries") = inr N ->
  (Z.to_nat (Z.max 1 N) <= fuel)%nat ->
  let r := main cfg env options pid fuel (initial w) in
  exists n gens,
    seed_of options pid n /\
    length gens = Z.to_nat (Z.max 1 N) /\
    outcome r = Exit 0 /\
    events r =
      greeting cfg :: set_up_events options ++ Seed n ::
      concat (map (dry_block env (configured_loggers options)) gens) /\
    statements (events r) = gens /\
    prints (events r) =
      ("=====: " +:+ database options +:+ " :======" +:+ endl) ::
      concat (map (fun gen => [out env gen; ";" +:+ endl]) gens).
Proof.
  intros Hsets Hwb Hstarts Hdry Hon HN Hfuel r. subst r.
  destruct (starts_seed_of cfg options pid Hstarts) as [n Hn].
  destruct (main_body_seeds cfg env options pid Hsets
              (sqlite_built cfg options Hstarts) w n Hn) as (w1 & Hbody).
  destruct (dry_run_loop_ceiling env options (configured_loggers options) Hwb
              N fuel w1 0 (count options "verbose") Hon HN
              ltac:(unfold LONG_MIN, LONG_MAX; lia)
              ltac:(by rewrite Z.sub_0_r))
    as (gens & w' & Hloop & Hlen).
  rewrite Z.sub_0_r in Hlen.
  exists n, gens. split; [done|]. split; [done|].
  rewrite (main_of_body cfg env options pid (no_help cfg options Hstarts)
             (no_version cfg options Hstarts)).
  rewrite Hbody. unfold run. rewrite Hdry.
  rewrite (bind_exit _ _ _ _ _ _ Hloop).
  unfold after. cbn [outcome events final]. rewrite <- app_assoc.
  split; [done|]. split; [done|].
  pose proof (set_up_events_statements (prod:=prod) options) as Hs.
  pose proof (set_up_events_prints (prod:=prod) options) as Hp.
  pose proof (dry_blocks_statements env (configured_loggers options) gens) as Hs'.
  pose proof (dry_blocks_prints env (configured_loggers options) gens) as Hp'.
  unfold statements, prints in *.
  rewrite !project_app, Hs, Hp, Hs', Hp'. by split.
Qed.

(** X10. A dry run without ceiling never ends: with [--dry-run] and no
    [--max-queries], [main] prints one statement for each round of fuel
    it is given and is still running when the fuel is spent. *)
Theorem X10_dry_run_without_ceiling_never_ends
    {W prod} (cfg : build) (env : collaborators W prod)
    (options : gmap string string) (pid : Z) (fuel : nat) (w : W) :
  sets_up env -> well_behaved env -> starts cfg options ->
  count options "dry-run" = true ->
  count options "max-queries" = false ->
  let r := main cfg env options pid fuel (initial w) in
  exists n gens,
    seed_of options pid n /\
    length gens = fuel /\
    outcome r = OutOfFuel /\
    events r =
      greeting cfg :: set_up_events options ++ Seed n ::
      concat (map (dry_block env (configured_loggers options)) gens).
Proof.
  intros Hsets Hwb Hstarts Hdry Hoff r. subst r.
  destruct (starts_seed_of cfg options pid Hstarts) as [n Hn].
  destruct (main_body_seeds cfg env options pid Hsets
              (sqlite_built cfg options Hstarts) w n Hn) as (w1 & Hbody).
  destruct (dry_run_loop_unbounded env options (configured_loggers options) Hwb
              fuel w1 0 (count options "verbose") Hoff)
    as (gens & w' & q' & Hloop & Hlen).
  exists n, gens. split; [done|]. split; [done|].
  rewrite (main_of_body cfg env options pid (no_help cfg options Hstarts)
             (no_version cfg options Hstarts)).
  rewrite Hbody. unfold run. rewrite Hdry.
  rewrite (bind_out_of_fuel _ _ _ _ _ Hloop).
  unfold after. cbn [outcome events final]. by rewrite <- app_assoc.
Qed.

Lemma outer_loop_invalid {W prod} (env : collaborators W prod) options fuel
    loggers dut w q g e :
  count options "max-queries" = true ->
  stol (opt options "max-queries") = inl e ->
  outer_loop env options (S fuel) loggers dut (State w q g) =
    Result (Throw e) [] (State w (wrap_long (q + 1)) g).
Proof.
  intros Hon He.
  pose proof (check_ceiling_invalid env options w q g e Hon He) as Hcheck.
  assert (Hit : iteration env options loggers dut (State w q g) =
                Result (Throw e) [] (State w (wrap_long (q + 1)) g))
    by (unfold iteration; by rewrite (bind_throw _ _ _ _ _ _ Hcheck)).
  assert (Hinner : inner_loop env options (S fuel) loggers dut (State w q g) =
                   Result (Throw e) [] (State w (wrap_long (q + 1)) g))
    by (simpl; by rewrite (bind_throw _ _ _ _ _ _ Hit)).
  change (outer_loop env options (S fuel) loggers dut) with
    (session env options (S fuel) loggers dut;;
     outer_loop env options fuel loggers dut).
  unfold session.
  by rewrite (bind_throw _ _ _ _ _ _
                (try_catch_passed _ _ _ _ _ _ _ Hinner (stol_raises _ _ He))).
Qed.

(** X11. A ceiling that is no [long] ends the run with status 1, but not
    before the set-up: when what [--max-queries] gives has no leading
    number or one out of the range of [long], [main] writes [stol] to
    [cerr] and returns 1 at the first look at the ceiling. A run that
    executes its statements has by then constructed the DUT and opened,
    and so emptied, the two log files, and has generated nothing; a dry
    run has by then printed one statement. *)
Theorem X11_ceiling_that_is_no_long
    {W prod} (cfg : build) (env : collaborators W prod)
    (options : gmap string string) (pid : Z) (fuel : nat) (w : W) (e : exn) :
  sets_up env -> well_behaved env -> starts cfg options ->
  count options "max-queries" = true ->
  stol (opt options "max-queries") = inl e ->
  (0 < fuel)%nat ->
  let r := main cfg env options pid fuel (initial w) in
  exists n,
    seed_of options pid n /\
    outcome r = Exit 1 /\
    if count options "dry-run" then
      exists gen,
        events r =
          greeting cfg :: set_up_events options ++ Seed n ::
          dry_block env (configured_loggers options) gen ++
          [Cerr ("stol" +:+ endl)]
    else events r = preamble cfg options n ++ [Cerr ("stol" +:+ endl)].
Proof.
  intros Hsets Hwb Hstarts Hon He Hfuel r. subst r.
  destruct fuel as [|fuel]; [lia|].
  destruct (starts_seed_of cfg options pid Hstarts) as [n Hn].
  destruct (main_body_seeds cfg env options pid Hsets
              (sqlite_built cfg options Hstarts) w n Hn) as (w1 & Hbody).
  exists n. split; [done|].
  rewrite (main_of_body cfg env options pid (no_help cfg options Hstarts)
             (no_version cfg options Hstarts)).
  rewrite Hbody. unfold run.
  pose proof (stoa_raises _ _ _ _ _ He) as ->.
  destruct (count options "dry-run").
  - destruct (dry_run_loop_invalid env options (configured_loggers options) Hwb
                fuel w1 0 (count options "verbose") _ Hon He)
      as (gen & w' & Hloop).
    rewrite (bind_throw _ _ _ _ _ _ Hloop).
    unfold after. cbn [outcome events final is_std_exception logic_error what].
    split; [done|]. exists gen. by rewrite <- !app_assoc.
  - rewrite bind_ret.
    step (make_dut_runs cfg env options Hsets
            (sqlite_built cfg options Hstarts) w1 0 (count options "verbose")).
    do 2 rewrite bind_emit.
    rewrite (bind_throw _ _ _ _ _ _
               (outer_loop_invalid env options fuel (configured_loggers options)
                  (configured_dut options) _ 0 (count options "verbose") _
                  Hon He)).
    unfold after. cbn [outcome events final is_std_exception logic_error what].
    split; [done|]. unfold preamble.
    cbn [app]. rewrite <- !app_assoc. by cbn [app].
Qed.

(** * The files of a run *)

Section Logs.

Context {W prod : Type}.
Variable env : collaborators W prod.
Variable loggers : list logger.
Variable dut : dut_base.

Lemma round_logs raised t :
  round env loggers dut raised t ->
  exists gen,
    statements t = [gen] /\
    writes "allqueries.log" t = [line env gen] /\
    writes "ssquery.current" t = [line env gen] /\
    writes "ssquery.log" t = match raised with
                             | None => [line env gen]
                             | Some _ => []
                             end.
Proof.
  intros (b & (gen & tail & -> & Htail) & ->). exists gen.
  assert (Hback : forall B (f : event prod -> option B),
            (forall ms, f (Sleep ms) = None) -> project f (backoff raised) = []).
  { intros B f Hf. unfold backoff. destruct (broken raised); [|done].
    simpl. by rewrite Hf. }
  unfold statements, writes, prelude, opening, line.
  rewrite !project_app, !Hback by done. simpl.
  rewrite !project_app, !project_map_none by done. simpl.
  unfold follows in Htail. destruct raised as [e|].
  - destruct Htail as (_ & Hclass & _).
    rewrite !(project_of_classify _ tail) by (done || by intros []). done.
  - destruct Htail as (start & stop & ->). unfold epilogue.
    rewrite !project_app, !project_map_none by done. done.
Qed.

Lemma rounds_logs outcomes rounds :
  Forall2 (round env loggers dut) outcomes rounds ->
  writes "allqueries.log" (concat rounds) =
    map (line env) (statements (concat rounds)) /\
  writes "ssquery.current" (concat rounds) =
    map (line env) (statements (concat rounds)) /\
  writes "ssquery.log" (concat rounds) =
    project (accepted env) (zip (statements (concat rounds)) outcomes).
Proof.
  induction 1 as [|raised t outcomes rounds Hround _ (IH1 & IH2 & IH3)];
    simpl; [done|].
  destruct (round_logs raised t Hround) as (gen & Hs & H1 & H2 & H3).
  unfold writes, statements in *.
  rewrite !project_app, Hs, H1, H2, H3, IH1, IH2, IH3. simpl.
  unfold accepted at 2. simpl. by destruct raised.
Qed.

Lemma rounds_timings outcomes rounds :
  Forall2 (round env loggers dut) outcomes rounds ->
  length (timings (concat rounds)) =
    length (filter (fun raised => raised = None) outcomes).
Proof.
  induction 1 as [|raised t outcomes rounds (b & Hb & ->) _ IH]; simpl; [done|].
  unfold timings in *. rewrite !project_app, !length_app, IH.
  fold (timings b). rewrite (block_timings _ _ _ _ _ Hb).
  rewrite filter_cons. unfold backoff.
  destruct raised as [e|]; simpl; [|done]. by destruct (is_broken e).
Qed.

End Logs.

Section Shape.

Context {W prod : Type}.
Variable cfg : build.
Variable env : collaborators W prod.
Variable options : gmap string string.
Variable pid : Z.
Hypothesis Hsets : sets_up env.
Hypothesis Hwb : well_behaved env.
Hypothesis Hdut : dut_raises_failures env.
Hypothesis Hexecutes : executes cfg options.

(** The events of a run that executes its statements: the preamble, one
    round for each statement, and the last report when the ceiling ends
    the run. *)
Lemma main_rounds fuel w :
  ceiling_within options fuel ->
  exists n outcomes rounds s',
    seed_of options pid n /\
    Forall2 (round env (configured_loggers options) (configured_dut options))
      outcomes rounds /\
    main cfg env options pid fuel (initial w) =
      Result (if count options "max-queries" then Exit 0 else OutOfFuel)
        (preamble cfg options n ++ concat rounds ++
         (if count options "max-queries"
          then last_report (count options "verbose") else []))
        s'.
Proof.
  intros Hceiling. destruct Hexecutes as [Hstarts Hdry].
  destruct (starts_seed_of cfg options pid Hstarts) as [n Hn].
  destruct (main_body_seeds cfg env options pid Hsets
              (sqlite_built cfg options Hstarts) w n Hn) as (w1 & Hbody).
  assert (Hloop : exists outcomes rounds s',
    Forall2 (round env (configured_loggers options) (configured_dut options))
      outcomes rounds /\
    outer_loop env options fuel (configured_loggers options)
      (configured_dut options)
      (State (dut_new env (configured_dut options) w1).2 0
         (count options "verbose")) =
      Result (if count options "max-queries" then Exit 0 else OutOfFuel)
        (concat rounds ++
         (if count options "max-queries"
          then last_report (count options "verbose") else []))
        s').
  { unfold ceiling_within in Hceiling.
    destruct (count options "max-queries") eqn:Hon.
    - destruct Hceiling as (N & HN & Hmax & Hfuel).
      destruct (outer_loop_bounded env options (configured_loggers options)
                  (configured_dut options) Hwb Hdut N Hon HN Hmax fuel
                  (dut_new env (configured_dut options) w1).2 0
                  (count options "verbose") ltac:(lia)
                  ltac:(by rewrite Z.sub_0_r))
        as (outcomes & rounds & w' & Hloop & Hrounds & _).
      by eexists outcomes, rounds, _.
    - destruct (outer_loop_unbounded env options (configured_loggers options)
                  (configured_dut options) Hwb Hdut Hon fuel
                  (dut_new env (configured_dut options) w1).2 0
                  (count options "verbose"))
        as (outcomes & rounds & w' & Hloop & Hrounds & _).
      exists outcomes, rounds. eexists. split; [done|].
      by rewrite app_nil_r. }
  destruct Hloop as (outcomes & rounds & s' & Hrounds & Hloop).
  exists n, outcomes, rounds, s'. split; [done|]. split; [done|].
  rewrite (main_of_body cfg env options pid (no_help cfg options Hstarts)
             (no_version cfg options Hstarts)).
  rewrite Hbody. unfold run. rewrite Hdry, bind_ret.
  step (make_dut_runs cfg env options Hsets
          (sqlite_built cfg options Hstarts) w1 0 (count options "verbose")).
  do 2 rewrite bind_emit. unfold preamble.
  destruct (count options "max-queries").
  - rewrite (bind_exit _ _ _ _ _ _ Hloop).
    unfold after. cbn [outcome events final app]. f_equal.
    rewrite <- !app_assoc. by cbn [app].
  - rewrite (bind_out_of_fuel _ _ _ _ _ Hloop).
    unfold after. cbn [outcome events final app]. f_equal.
    rewrite <- !app_assoc. by cbn [app].
Qed.

End Shape.

Lemma preamble_silent {prod B} cfg options n (f : event prod -> option B) :
  (forall text, f (Cerr text) = None) -> (forall text, f (Cout text) = None) ->
  (forall s x, f (NewSchema s x) = None) ->
  (forall s x, f (FillScope s x) = None) ->
  (forall l x, f (NewLogger l x) = None) -> f Signal = None ->
  (forall n, f (Seed n) = None) -> (forall d x, f (NewDut d x) = None) ->
  (forall file, f (Open file) = None) ->
  project f (preamble cfg options n) = [].
Proof.
  intros H1 H2 H3 H4 H5 H6 H7 H8 H9. unfold preamble, set_up_events, greeting.
  cbn [app project]. rewrite H1, H2, H3, H4, project_app.
  rewrite logger_events_silent by done. simpl. by rewrite H7, H8, !H9.
Qed.

Section StreamLaws.

Context {prod : Type}.
Variable writable : string -> bool.
Variable seconds : Z -> Z -> string.
Variable f : string.

Local Abbreviation record := (record_on (prod:=prod) writable seconds f).

(** A stream that is not open stays so, and its file as it is, when the
    file cannot be written. *)
Lemma unwritable_unchanged (t : list (event prod)) c :
  writable f = false ->
  foldl record (Stream c false) t = Stream c false.
Proof.
  intros Hw. induction t as [|ev t IH]; [done|]. simpl.
  replace (record (Stream c false) ev) with (Stream c false); [done|].
  unfold record_on. destruct ev; simpl; try done.
  - destruct (decide _); [|done]. by rewrite Hw.
  - by destruct (decide _).
  - by destruct (decide _).
  - by destruct (decide _).
Qed.

(** Between its opening and its closing a stream takes what is inserted. *)
Lemma steady_appends (t : list (event prod)) c :
  Forall (steady f) t ->
  foldl record (Stream (Some c) true) t =
    Stream (Some (c +:+ joined (project (appended seconds f) t))) true.
Proof.
  intros Ht. revert c. induction Ht as [|ev t Hev _ IH]; intros c.
  - simpl. unfold joined. simpl. by rewrite append_nil_r.
  - cbn [foldl project].
    destruct (appended seconds f ev) as [text|] eqn:Hev'.
    + replace (record (Stream (Some c) true) ev)
        with (Stream (Some (c +:+ text)) true).
      * rewrite IH. unfold joined. cbn [foldr]. by rewrite append_assoc.
      * unfold record_on. destruct ev; try done. all: by rewrite Hev'.
    + replace (record (Stream (Some c) true) ev) with (Stream (Some c) true);
        [apply IH|].
      unfold record_on. destruct ev; try done; simpl in *.
      all: try by rewrite Hev'.
      all: by rewrite decide_False.
Qed.

Lemma steady_closed (t : list (event prod)) c :
  Forall (steady f) t ->
  foldl record (Stream c false) t = Stream c false.
Proof.
  intros Ht. induction Ht as [|ev t Hev _ IH]; [done|]. simpl.
  replace (record (Stream c false) ev) with (Stream c false); [done|].
  unfold record_on. destruct ev; simpl in *; try done.
  - by rewrite decide_False.
  - by destruct (decide _).
  - by rewrite decide_False.
  - by destruct (decide _).
Qed.

End StreamLaws.

(** ** What the log files hold *)

Lemma project_ext {A B} (f g : A -> option B) (t : list A) :
  (forall x, f x = g x) -> project f t = project g t.
Proof. intros H. induction t as [|x t IH]; simpl; [done|]. by rewrite H, IH. Qed.

Lemma appended_written {prod} seconds (f : string) (ev : event prod) :
  f <> "ssquery.log" -> appended seconds f ev = written f ev.
Proof. intros Hf. destruct ev; simpl; try done. by rewrite decide_False. Qed.

Section Entries.

Context {W prod : Type}.
Variable env : collaborators W prod.
Variable loggers : list logger.
Variable dut : dut_base.
Variable seconds : Z -> Z -> string.

Lemma round_steady f raised t :
  f <> "ssquery.current" -> round env loggers dut raised t ->
  Forall (steady (prod:=prod) f) t.
Proof.
  intros Hf (b & (gen & tail & -> & Htail) & ->).
  assert (Hc : "ssquery.current" <> f) by done.
  unfold prelude, opening. rewrite !Forall_app.
  repeat split.
  - constructor; [done|]. apply Forall_app. split.
    + apply Forall_forall. by intros ev (l & -> & _)%list_elem_of_fmap.
    + by repeat constructor.
  - constructor; [done|]. unfold follows in Htail.
    destruct raised as [e|].
    + destruct Htail as (_ & Hclass & _).
      eapply Forall_impl; [exact Hclass|]. by intros [].
    + destruct Htail as (start & stop & ->). unfold epilogue.
      apply Forall_app. split; [|by repeat constructor].
      apply Forall_forall. by intros ev (l & -> & _)%list_elem_of_fmap.
  - unfold backoff. destruct (broken raised); by repeat constructor.
Qed.

(** What a statement adds to [ssquery.log]: nothing, or its timing and
    its line. *)
Lemma round_entries raised t :
  round env loggers dut raised t ->
  project (appended seconds "ssquery.log") t = [] /\
    timings t = [] /\ writes "ssquery.log" t = [] \/
  exists tm l,
    project (appended seconds "ssquery.log") t =
      [timing_line seconds tm.1 tm.2; l] /\
    timings t = [tm] /\ writes "ssquery.log" t = [l].
Proof.
  intros (b & (gen & tail & -> & Htail) & ->).
  assert (Hback : forall B (f : event prod -> option B),
            (forall ms, f (Sleep ms) = None) -> project f (backoff raised) = []).
  { intros B f Hf. unfold backoff. destruct (broken raised); [|done].
    simpl. by rewrite Hf. }
  unfold timings, writes, prelude, opening.
  rewrite !project_app, !Hback by done. simpl.
  rewrite !project_app, !project_map_none by done. simpl.
  unfold follows in Htail. destruct raised as [e|].
  - destruct Htail as (_ & Hclass & _).
    rewrite !(project_of_classify _ tail) by (done || by intros []). by left.
  - destruct Htail as (start & stop & ->). unfold epilogue.
    rewrite !project_app, !project_map_none by done. simpl.
    right. by exists (start, stop), (out env gen +:+ ";" +:+ endl).
Qed.

Lemma rounds_entries outcomes rounds :
  Forall2 (round env loggers dut) outcomes rounds ->
  joined (project (appended seconds "ssquery.log") (concat rounds)) =
    joined (zip_with (log_entry seconds) (timings (concat rounds))
              (writes "ssquery.log" (concat rounds))).
Proof.
  induction 1 as [|raised t outcomes rounds Hround _ IH]; simpl; [done|].
  destruct (round_entries raised t Hround)
    as [(H1 & H2 & H3)|(tm & l & H1 & H2 & H3)];
    unfold timings, writes in *; rewrite !project_app, H1, H2, H3; simpl;
    [done|].
  unfold joined in *. cbn [foldr]. rewrite IH. unfold log_entry.
  by rewrite append_assoc.
Qed.

End Entries.

(** After the events that precede the loops, the stream on a log file that
    can be written is open and the file empty. *)
Lemma preamble_opens {prod} writable seconds cfg options n f st :
  f = "ssquery.log" \/ f = "allqueries.log" -> writable f = true ->
  foldl (record_on (prod:=prod) writable seconds f) st
    (preamble cfg options n) = Stream (Some "") true.
Proof.
  intros Hf Hw. unfold preamble.
  change (greeting cfg :: set_up_events options ++ ?l)
    with ((greeting cfg :: set_up_events options) ++ l).
  rewrite foldl_app. destruct Hf as [-> | ->]; simpl; by rewrite Hw.
Qed.

Section Filling.

Context {W prod : Type}.
Variable cfg : build.
Variable env : collaborators W prod.
Variable options : gmap string string.
Variable pid : Z.
Variable writable : string -> bool.
Variable seconds : Z -> Z -> string.
Hypothesis Hsets : sets_up env.
Hypothesis Hwb : well_behaved env.
Hypothesis Hdut : dut_raises_failures env.
Hypothesis Hexecutes : executes cfg options.

(** A log file that can be written holds what the run inserted into its
    stream. *)
Lemma main_fills_logs fuel w f old :
  ceiling_within options fuel ->
  f = "ssquery.log" \/ f = "allqueries.log" -> writable f = true ->
  let t := events (main cfg env options pid fuel (initial w)) in
  file_after writable seconds f old t =
    Some (joined (project (appended seconds f) t)).
Proof.
  intros Hceiling Hf Hw t. subst t.
  destruct (main_rounds cfg env options pid Hsets Hwb Hdut Hexecutes fuel w
              Hceiling)
    as (n & outcomes & rounds & s' & _ & Hrounds & ->).
  cbn [events]. unfold file_after.
  rewrite foldl_app, preamble_opens by done.
  rewrite steady_appends.
  - rewrite (project_app _ (preamble cfg options n)), preamble_silent by done.
    by rewrite append_nil_l.
  - apply Forall_app. split.
    + apply Forall_concat.
      eapply Forall2_Forall_r; [exact Hrounds|].
      apply Forall_forall. intros raised _ t. apply round_steady.
      by destruct Hf as [-> | ->].
    + destruct (count options "max-queries"); [|constructor].
      unfold last_report. destruct (count options "verbose");
        by repeat constructor.
Qed.

End Filling.

(** X12. What the log files hold. In a run that executes its statements,
    with a statement factory and loggers that are well behaved and a DUT
    that raises nothing but [dut::failure]s, [main] inserts into the
    stream on [allqueries.log] the line of every statement that is
    generated, in the order of generation and whatever becomes of the
    statement, and into the stream on [ssquery.log], in the same order,
    the timing and the line of those statements only whose execution
    succeeded. [main] opens both streams once, before the loops, and
    tests the state of neither: a file that can be written holds just
    these insertions, with nothing left of what it held before the run; a
    file that cannot be written is as it was before, and the run is the
    same. *)
Theorem X12_what_the_log_files_hold
    {W prod} (cfg : build) (env : collaborators W prod)
    (options : gmap string string) (pid : Z) (fuel : nat) (w : W)
    (writable : string -> bool) (seconds : Z -> Z -> string)
    (old : option string) :
  sets_up env -> well_behaved env -> dut_raises_failures env ->
  executes cfg options -> ceiling_within options fuel ->
  let t := events (main cfg env options pid fuel (initial w)) in
  writes "allqueries.log" t = map (line env) (statements t) /\
  writes "ssquery.log" t =
    project (accepted env) (zip (statements t) (tests t)) /\
  length (timings t) = length (writes "ssquery.log" t) /\
  file_after writable seconds "allqueries.log" old t =
    (if writable "allqueries.log"
     then Some (joined (map (line env) (statements t)))
     else old) /\
  file_after writable seconds "ssquery.log" old t =
    (if writable "ssquery.log"
     then Some (joined (zip_with (log_entry seconds) (timings t)
                          (project (accepted env)
                             (zip (statements t) (tests t)))))
     else old).
Proof.
  intros Hsets Hwb Hdut Hexecutes Hceiling t. subst t.
  pose proof (fun f => main_fills_logs cfg env options pid writable seconds
                Hsets Hwb Hdut Hexecutes fuel w f old Hceiling) as Hfills.
  cbn zeta in Hfills.
  destruct (main_rounds cfg env options pid Hsets Hwb Hdut Hexecutes fuel w
              Hceiling)
    as (n & outcomes & rounds & s' & _ & Hrounds & Hmain).
  rewrite Hmain in *. cbn [events] in *.
  destruct (rounds_logs env _ _ _ _ Hrounds) as (H1 & _ & H3).
  pose proof (rounds_tests env _ _ _ _ Hrounds) as Htests.
  pose proof (rounds_timings env _ _ _ _ Hrounds) as Htimings.
  pose proof (rounds_entries env _ _ seconds _ _ Hrounds) as Hentries.
  assert (Htail : forall B (f : event prod -> option B),
            (forall x, f (Report x) = None) ->
            project f (if count options "max-queries"
                       then last_report (count options "verbose") else []) = []).
  { intros B f Hf. destruct (count options "max-queries"); [|done].
    by apply last_report_silent. }
  assert (Hlen : length (timings (concat rounds)) =
                 length (writes "ssquery.log" (concat rounds))).
  { rewrite Htimings, H3.
    pose proof (rounds_statements env _ _ _ _ Hrounds) as Hlen.
    unfold statements in *. revert Hlen. clear.
    generalize (project statement (concat rounds)). intros gens.
    revert gens. induction outcomes as [|raised outcomes IH];
      intros [|gen gens] [=]; [done|].
    rewrite filter_cons. cbn [zip zip_with project]. unfold accepted at 1.
    destruct raised as [e|]; cbn [snd].
    - rewrite decide_False by done. by apply IH.
    - rewrite decide_True by done. cbn [length]. f_equal. by apply IH. }
  unfold writes, statements, tests, timings in *.
  rewrite !project_app, !preamble_silent, !Htail in * by done.
  rewrite !app_nil_r in *. cbn [app] in *. rewrite Htests in *.
  split; [done|]. split; [done|]. split; [done|]. split.
  - destruct (writable "allqueries.log") eqn:Hw;
      [|unfold file_after; by rewrite unwritable_unchanged].
    rewrite (Hfills "allqueries.log") by auto.
    rewrite !project_app, preamble_silent, Htail by done.
    rewrite app_nil_r. cbn [app]. do 2 f_equal.
    rewrite <- H1. apply project_ext. intros ev. by apply appended_written.
  - destruct (writable "ssquery.log") eqn:Hw;
      [|unfold file_after; by rewrite unwritable_unchanged].
    rewrite (Hfills "ssquery.log") by auto.
    rewrite !project_app, preamble_silent, Htail by done.
    rewrite app_nil_r. cbn [app]. f_equal.
    by rewrite Hentries, H3.
Qed.

(** * The statement is on file before it is executed *)

Section Journal.

Context {W prod : Type}.

Local Abbreviation M := (M W prod).

Lemma journaled_untested (t : list (event prod)) :
  Forall untested t -> journaled t.
Proof.
  induction 1 as [|ev t Hev _ IH]; [constructor|]. by constructor.
Qed.

Lemma journaled_app (t1 t2 : list (event prod)) :
  journaled t1 -> journaled t2 -> journaled (t1 ++ t2).
Proof.
  intros H1 H2. induction H1 as [|ev t Hev _ IH|d stmt x t _ IH]; simpl;
    [done|by constructor|by constructor].
Qed.

Lemma journaled_before (t : list (event prod)) pre d stmt x post :
  journaled t -> t = pre ++ Test d stmt x :: post ->
  exists pre',
    pre = pre' ++
          [Write "allqueries.log" (stmt +:+ ";" +:+ endl);
           Open "ssquery.current";
           Write "ssquery.current" (stmt +:+ ";" +:+ endl);
           Close "ssquery.current"].
Proof.
  intros Ht. revert pre.
  induction Ht as [|ev t Hev _ IH|d0 stmt0 x0 t _ IH]; intros pre Heq.
  - by destruct pre.
  - destruct pre as [|ev' pre]; simpl in Heq; injection Heq as -> Heq;
      [done|].
    destruct (IH pre Heq) as [pre' ->]. by exists (ev' :: pre').
  - do 4 (destruct pre as [|? pre]; [done|]; simpl in Heq;
          injection Heq as <- Heq).
    destruct pre as [|ev' pre]; simpl in Heq; simplify_eq.
    + by exists [].
    + destruct (IH pre eq_refl) as [pre' ->].
      by eexists (_ :: _ :: _ :: _ :: _ :: pre').
Qed.

Lemma journals_emits {A} (m : M A) : emits untested m -> journals m.
Proof. intros H s. apply journaled_untested, H. Qed.

Lemma journals_bind {A C} (m : M A) (k : A -> M C) :
  journals m -> (forall a, journals (k a)) -> journals (m ≫= k).
Proof.
  intros Hm Hk s. unfold mbind, M_bind, bind.
  specialize (Hm s). destruct (outcome (m s)) as [a| | |]; simpl; try done.
  apply journaled_app; [done|apply Hk].
Qed.

Lemma journals_try_catch {A} (m : M A) handles h :
  journals m -> (forall e, journals (h e)) -> journals (try_catch m handles h).
Proof.
  intros Hm Hh s. unfold try_catch.
  specialize (Hm s). destruct (outcome (m s)) as [|e| |]; simpl; try done.
  destruct (handles e); simpl; [|done].
  apply journaled_app; [done|apply Hh].
Qed.

Variable env : collaborators W prod.

(** Lines 210 to 234: the file [ssquery.current] is written and closed,
    then the statement is executed. *)
Lemma execute_events loggers dut gen s :
  exists x tail,
    events (try_catch (execute env loggers dut gen) is_failure
              (classify env loggers gen) s) =
      opening env gen ++ Test dut (out env gen) x :: tail /\
    Forall untested tail.
Proof.
  set (rest := fun starttime : Z =>
         for_each loggers
           (fun l => call (executed env l gen) (Executed l gen));;
         now ← get_clock env;
         emit (Timing starttime now);;
         emit (prod:=prod) (W:=W)
           (Write "ssquery.log" (out env gen +:+ ";" +:+ endl))).
  assert (Hrest : forall starttime, emits untested (rest starttime))
    by (intros starttime; unfold rest; emission).
  assert (Hclass : forall e, emits untested (classify env loggers gen e))
    by (intros e; unfold classify, log_error; emission).
  destruct s as [w q g].
  destruct (test env dut (out env gen) (clock env w).2).1 as [e|] eqn:Htest.
  - exists (Some e). unfold try_catch.
    rewrite (execute_raises env loggers dut gen w q g e Htest).
    cbn [outcome events final]. destruct (is_failure e).
    + eexists. unfold after. cbn [events]. rewrite <- app_assoc.
      split; [reflexivity|]. apply Hclass.
    + exists []. split; [done|constructor].
  - exists None.
    assert (Hex : execute env loggers dut gen (State w q g) =
              after (opening env gen ++ [Test dut (out env gen) None])
                (rest (clock env w).1
                   (State (test env dut (out env gen) (clock env w).2).2 q g))).
    { unfold execute. do 3 rewrite bind_emit.
      step (get_clock_reads env w q g).
      step (call_returns (prod:=prod) _ (Test dut (out env gen)) _ q g Htest).
      by rewrite !after_after. }
    unfold try_catch. rewrite Hex.
    specialize (Hrest (clock env w).1
                  (State (test env dut (out env gen) (clock env w).2).2 q g)).
    destruct (rest _ _) as [[a|e|n|] t s']; unfold after;
      cbn [outcome events final] in *;
      try (exists t; by rewrite <- app_assoc).
    destruct (is_failure e); cbn [outcome events final];
      [|exists t; by rewrite <- app_assoc].
    exists (t ++ events (classify env loggers gen e s')).
    rewrite <- !app_assoc. split; [done|].
    apply Forall_app. split; [done|apply Hclass].
Qed.

Lemma generate_and_test_journals loggers dut :
  journals (generate_and_test env loggers dut).
Proof.
  unfold generate_and_test.
  apply journals_bind; [apply journals_emits; emission|intros gen].
  apply journals_bind; [apply journals_emits; emission|intros _].
  intros s. rewrite bind_emit.
  destruct (execute_events loggers dut gen s) as (x & tail & Hev & Htail).
  unfold after. simpl. rewrite Hev. unfold opening. simpl.
  apply journaled_test. by apply journaled_untested.
Qed.

Variable options : gmap string string.

Lemma outer_loop_journals fuel loggers dut :
  journals (outer_loop env options fuel loggers dut).
Proof.
  assert (Hinner : forall n, journals (inner_loop env options n loggers dut)).
  { induction n as [|n IH]; [apply journals_emits; emission|]. simpl.
    apply journals_bind; [|done]. unfold iteration.
    apply journals_bind; [|intros; apply generate_and_test_journals].
    apply journals_emits. unfold check_ceiling, do_report. emission. }
  induction fuel as [|fuel IH]; [apply journals_emits; emission|].
  change (outer_loop env options (S fuel) loggers dut) with
    (session env options (S fuel) loggers dut;;
     outer_loop env options fuel loggers dut).
  apply journals_bind; [|done]. unfold session.
  apply journals_try_catch; [apply Hinner|].
  intros e. apply journals_emits. intros s. unfold sleep; simpl.
  by repeat constructor.
Qed.

Variable cfg : build.
Variable pid : Z.

Lemma main_journals fuel : journals (main cfg env options pid fuel).
Proof.
  unfold main.
  apply journals_bind; [apply journals_emits; emission|intros _].
  destruct (count options "help"); [apply journals_emits; emission|].
  destruct (count options "version"); [apply journals_emits; emission|].
  apply journals_bind; [|intros; apply journals_emits; emission].
  apply journals_try_catch; [|intros; apply journals_emits; emission].
  unfold main_body. apply journals_bind.
  { apply journals_emits.
    apply (emits_weaken of_set_up); [by intros []|apply set_up_emits]. }
  intros loggers. apply journals_bind.
  { apply journals_emits. eapply emits_weaken; [|apply seed_rng_emits].
    by intros ev [n ->]. }
  intros _. unfold run. apply journals_bind.
  { apply journals_emits. apply (emits_weaken of_dry_run); [by intros []|].
    apply emits_if; [apply dry_run_loop_emits|emission]. }
  intros _. apply journals_bind.
  { apply journals_emits. unfold make_dut, new_dut, no_sqlite. emission. }
  intros dut. apply journals_bind; [apply journals_emits; emission|intros _].
  apply journals_bind; [apply journals_emits; emission|intros _].
  apply journals_bind; [apply outer_loop_journals|intros _].
  apply journals_emits; emission.
Qed.

End Journal.

(** ** Where the log files are opened *)

Section Opens.

Context {W prod : Type}.

Lemma opens_logs_untested (t : list (event prod)) :
  Forall untested t -> opens_logs t.
Proof. intros Ht. exists t, []. rewrite app_nil_r. by repeat split; [|left]. Qed.

Lemma opens_logs_after (t1 t2 : list (event prod)) :
  Forall untested t1 -> opens_logs t2 -> opens_logs (t1 ++ t2).
Proof.
  intros H1 (pre & loop & -> & Hpre & Hloop).
  exists (t1 ++ pre), loop. rewrite app_assoc.
  split; [done|]. split; [by apply Forall_app|done].
Qed.

(** What the handler of line 245 writes comes last. *)
Lemma opens_logs_cerr (t : list (event prod)) text :
  opens_logs t -> opens_logs (t ++ [Cerr text]).
Proof.
  intros (pre & loop & -> & Hpre & [->|(loop' & -> & Hrounds & Hjournal)]).
  - rewrite app_nil_r. apply opens_logs_untested, Forall_app.
    by repeat constructor.
  - exists pre. eexists. rewrite <- app_assoc. split; [reflexivity|].
    split; [done|]. right. exists (loop' ++ [Cerr text]).
    split; [done|]. split.
    + apply Forall_app. by repeat constructor.
    + apply journaled_app; [done|]. by repeat constructor.
Qed.

Lemma opens_logs_bind {A C} (m : M W prod A) (k : A -> M W prod C) :
  emits untested m -> (forall a s, opens_logs (events (k a s))) ->
  forall s, opens_logs (events ((m ≫= k) s)).
Proof.
  intros Hm Hk s. specialize (Hm s). unfold mbind, M_bind, bind.
  destruct (outcome (m s)) as [a| | |]; simpl;
    try by apply opens_logs_untested.
  by apply opens_logs_after.
Qed.

Variable cfg : build.
Variable env : collaborators W prod.
Variable options : gmap string string.
Variable pid : Z.

Lemma run_opens_logs fuel loggers s :
  opens_logs (events (run cfg env options fuel loggers s)).
Proof.
  revert s. unfold run. apply opens_logs_bind.
  { apply emits_if; [|emission].
    apply (emits_weaken of_dry_run); [by intros []|apply dry_run_loop_emits]. }
  intros _. apply opens_logs_bind.
  { unfold make_dut, new_dut, no_sqlite. emission. }
  intros dut s. do 2 rewrite bind_emit. unfold after. cbn [events app].
  exists []. eexists. split; [reflexivity|]. split; [constructor|].
  right. eexists. split; [reflexivity|]. split.
  - apply emits_bind_never; [apply outer_loop_never_returns|].
    apply outer_loop_of_rounds.
  - apply journals_bind; [apply outer_loop_journals|].
    intros _. apply journals_emits. emission.
Qed.

Lemma main_body_opens_logs fuel s :
  opens_logs (events (main_body cfg env options pid fuel s)).
Proof.
  revert s. unfold main_body. apply opens_logs_bind.
  { apply (emits_weaken of_set_up); [by intros []|apply set_up_emits]. }
  intros loggers. apply opens_logs_bind.
  { eapply emits_weaken; [|apply seed_rng_emits]. by intros ev [n ->]. }
  intros _. apply run_opens_logs.
Qed.

Lemma main_opens_logs fuel s :
  opens_logs (events (main cfg env options pid fuel s)).
Proof.
  destruct (count options "help") eqn:Hhelp.
  { unfold main. rewrite Hhelp. apply opens_logs_untested.
    by repeat constructor. }
  destruct (count options "version") eqn:Hversion.
  { unfold main. rewrite Hhelp, Hversion. apply opens_logs_untested.
    by repeat constructor. }
  rewrite (main_of_body cfg env options pid Hhelp Hversion).
  unfold after. cbn [events].
  apply opens_logs_after; [by repeat constructor|].
  pose proof (main_body_opens_logs fuel s) as Hbody.
  destruct (main_body cfg env options pid fuel s) as [[a|e|n|] t s'];
    cbn [outcome events final] in *; try done.
  destruct (is_std_exception e); cbn [events]; [|done].
  by apply opens_logs_cerr.
Qed.

End Opens.

Lemma split_at_test {prod} (pre0 loop pre post : list (event prod)) d stmt x :
  Forall untested pre0 ->
  pre0 ++ loop = pre ++ Test d stmt x :: post ->
  exists l, pre = pre0 ++ l /\ loop = l ++ Test d stmt x :: post.
Proof.
  intros Hpre. revert pre.
  induction Hpre as [|ev pre0 Hev _ IH]; intros pre Heq.
  - by exists pre.
  - destruct pre as [|ev' pre]; simpl in Heq; simplify_eq; [done|].
    destruct (IH pre) as (l & -> & ->); [done|]. by exists l.
Qed.

Lemma of_rounds_steady {prod} (f : string) (ev : event prod) :
  f <> "ssquery.current" -> of_rounds ev -> steady f ev.
Proof. intros Hf. destruct ev; simpl; try done; by intros ->. Qed.

Section Journaling.

Context {prod : Type}.
Variable writable : string -> bool.
Variable seconds : Z -> Z -> string.

(** Lines 206 and 211 to 213 and the file [ssquery.current]. *)
Lemma current_written (st : stream) (stmt : string) :
  writable "ssquery.current" = true ->
  content (foldl (record_on (prod:=prod) writable seconds "ssquery.current") st
             [Write "allqueries.log" (stmt +:+ ";" +:+ endl);
              Open "ssquery.current";
              Write "ssquery.current" (stmt +:+ ";" +:+ endl);
              Close "ssquery.current"]) =
    Some (stmt +:+ ";" +:+ endl).
Proof. intros Hw. simpl. by rewrite Hw. Qed.

(** Lines 181, 206 and 211 to 213 and the file [allqueries.log]. *)
Lemma log_written (st : stream) (l : list (event prod)) (stmt : string) :
  writable "allqueries.log" = true -> Forall of_rounds l ->
  exists lines,
    content (foldl (record_on writable seconds "allqueries.log") st
               ([Open "ssquery.log"; Open "allqueries.log"] ++ l ++
                [Write "allqueries.log" (stmt +:+ ";" +:+ endl);
                 Open "ssquery.current";
                 Write "ssquery.current" (stmt +:+ ";" +:+ endl);
                 Close "ssquery.current"])) =
      Some (lines +:+ stmt +:+ ";" +:+ endl).
Proof.
  intros Hw Hl. rewrite !foldl_app.
  replace (foldl (record_on writable seconds "allqueries.log") st
             [Open "ssquery.log"; Open "allqueries.log"])
    with (Stream (Some "") true) by (simpl; by rewrite Hw).
  rewrite steady_appends.
  2:{ eapply Forall_impl; [exact Hl|]. intros ev. by apply of_rounds_steady. }
  simpl. eexists. by rewrite append_assoc.
Qed.

End Journaling.


(** * The handler of SIGINT *)

Section Guards.

Context {W prod : Type}.

Local Abbreviation M := (M W prod).

Lemma guards_plain {A} (m : M A) :
  (forall s, global_cerr_logger (final (m s)) = global_cerr_logger s /\
             Signal ∉ events (m s)) ->
  guards m.
Proof. intros H s [Hs|Hin]; destruct (H s) as [-> Hnot]; done. Qed.

Lemma guards_bind {A C} (m : M A) (k : A -> M C) :
  guards m -> (forall a, guards (k a)) -> guards (m ≫= k).
Proof.
  intros Hm Hk s. unfold mbind, M_bind, bind.
  specialize (Hm s). destruct (outcome (m s)) as [a| | |]; simpl; try done.
  rewrite elem_of_app. intros [Hs|[Hin|Hin]]; apply Hk; auto.
Qed.

Lemma guards_try_catch {A} (m : M A) handles h :
  guards m -> (forall e, guards (h e)) -> guards (try_catch m handles h).
Proof.
  intros Hm Hh s. unfold try_catch.
  specialize (Hm s). destruct (outcome (m s)) as [|e| |]; simpl; try done.
  destruct (handles e); simpl; [|done].
  rewrite elem_of_app. intros [Hs|[Hin|Hin]]; apply Hh; auto.
Qed.

Lemma guards_for_each {A} (xs : list A) (k : A -> M unit) :
  (forall x, guards (k x)) -> guards (for_each xs k).
Proof.
  intros Hk. induction xs as [|x xs IH]; simpl.
  - apply guards_plain. intros s. split; [done|apply not_elem_of_nil].
  - apply (guards_bind (k x) (fun _ => for_each xs k)); [apply Hk|done].
Qed.

Lemma guards_if {A} (b : bool) (m1 m2 : M A) :
  guards m1 -> guards m2 -> guards (if b then m1 else m2).
Proof. by destruct b. Qed.

Lemma guards_emit ev : ev <> Signal -> guards (emit ev : M unit).
Proof.
  intros H. apply guards_plain. intros s. split; [done|].
  simpl. intros Hin%list_elem_of_singleton. by subst ev.
Qed.

Lemma guards_call g ev :
  (forall r, ev r <> Signal) -> guards (call g ev : M unit).
Proof.
  intros H. apply guards_plain. intros s. unfold call.
  destruct (g (world s)) as [r w]; simpl. split; [done|].
  intros Hin%list_elem_of_singleton. by destruct (H r).
Qed.

Lemma guards_lift {A} (r : exn + A) : guards (lift r : M A).
Proof.
  apply guards_plain. intros s. destruct r; (split; [done|apply not_elem_of_nil]).
Qed.

Lemma guards_factory (env : collaborators W prod) : guards (factory env).
Proof.
  apply guards_plain. intros s. unfold factory.
  destruct (statement_factory env (world s)) as [r w]; simpl.
  split; [done|]. by intros Hin%list_elem_of_singleton.
Qed.

Lemma guards_get_clock (env : collaborators W prod) :
  guards (get_clock (prod:=prod) env).
Proof.
  apply guards_plain. intros s. unfold get_clock.
  destruct (clock env (world s)). split; [done|apply not_elem_of_nil].
Qed.

Lemma guards_silent {A} (m : M A) :
  (forall s, events (m s) = [] /\
             global_cerr_logger (final (m s)) = global_cerr_logger s) ->
  guards m.
Proof.
  intros H. apply guards_plain. intros s. destruct (H s) as [-> ->].
  split; [done|apply not_elem_of_nil].
Qed.

End Guards.

Ltac guarding :=
  repeat first
    [ apply guards_lift
    | apply guards_get_clock
    | apply guards_factory
    | apply guards_emit; discriminate
    | apply guards_call; intros; discriminate
    | apply guards_for_each; intros
    | apply guards_try_catch; [|intros]
    | apply guards_bind; [|intros]
    | apply guards_if
    | apply guards_silent; intros; split; reflexivity ].

Section Handler.

Context {W prod : Type}.
Variable cfg : build.
Variable env : collaborators W prod.
Variable options : gmap string string.
Variable pid : Z.

Lemma set_up_guards : guards (set_up cfg env options).
Proof.
  unfold set_up, load_schema, make_loggers, new_schema, new_logger,
    no_sqlite, banner.
  apply guards_bind; [guarding|intros sch].
  apply guards_bind; [guarding|intros _].
  apply guards_bind; [guarding|intros _].
  apply guards_bind; [guarding|intros l].
  apply guards_bind; [guarding|intros loggers].
  apply guards_bind; [|intros; guarding].
  apply guards_if; [|guarding].
  apply guards_bind; [guarding|intros l'].
  intros s _. reflexivity.
Qed.

Lemma run_guards fuel loggers : guards (run cfg env options fuel loggers).
Proof.
  assert (Hdry : forall n, guards (dry_run_loop env options n loggers)).
  { induction n as [|n IH]; simpl; [guarding|].
    apply guards_bind; [|done]. unfold dry_run_step. guarding. }
  assert (Hinner : forall n dut, guards (inner_loop env options n loggers dut)).
  { induction n as [|n IH]; intros dut; simpl; [guarding|].
    apply guards_bind; [|done].
    unfold iteration, check_ceiling, generate_and_test, execute, classify,
      log_error, do_report. guarding. }
  assert (Houter : forall n dut, guards (outer_loop env options n loggers dut)).
  { induction n as [|n IH]; intros dut; [guarding|].
    change (outer_loop env options (S n) loggers dut) with
      (session env options (S n) loggers dut;;
       outer_loop env options n loggers dut).
    apply guards_bind; [|done]. unfold session.
    apply guards_try_catch; [apply Hinner|].
    intros e. apply guards_plain. intros s. unfold sleep; simpl.
    split; [done|]. by intros Hin%list_elem_of_singleton. }
  unfold run, make_dut, new_dut, no_sqlite.
  apply guards_bind; [apply guards_if; [apply Hdry|guarding]|intros _].
  apply guards_bind; [guarding|intros dut].
  apply guards_bind; [guarding|intros _].
  apply guards_bind; [guarding|intros _].
  apply guards_bind; [apply Houter|intros _]. guarding.
Qed.

Lemma main_guards fuel : guards (main cfg env options pid fuel).
Proof.
  unfold main. apply guards_bind; [guarding|intros _].
  apply guards_if; [guarding|]. apply guards_if; [guarding|].
  apply guards_bind; [|intros; guarding].
  apply guards_try_catch; [|intros; guarding].
  unfold main_body. apply guards_bind; [apply set_up_guards|intros loggers].
  apply guards_bind; [|intros; apply run_guards].
  unfold seed_rng. apply guards_bind; [guarding|intros n].
  apply guards_plain. intros s. unfold seed; simpl.
  split; [done|]. by intros Hin%list_elem_of_singleton.
Qed.

(** The handler is installed with [--verbose] only. *)
Lemma main_installs_when_verbose fuel :
  emits (fun ev => ev = Signal -> count options "verbose" = true)
    (main cfg env options pid fuel).
Proof.
  apply main_emits; try done.
  - unfold set_up, load_schema, make_loggers, new_schema, new_logger,
      no_sqlite, banner.
    destruct (count options "verbose"); emission.
  - intros loggers. apply (emits_weaken of_run); [by intros []|].
    apply run_emits.
Qed.

End Handler.

(** X14. The handler of SIGINT reports and ends the process. [main]
    installs the handler with [--verbose] only, and once it has set the
    pointer [global_cerr_logger], which nothing clears afterwards. While
    [main] is in one of its loops, which is where the fuel leaves a run,
    the logger the pointer refers to is alive, held by the vector
    [loggers]: the handler, run in that state, calls [report] once and,
    when the report returns, ends the process with status 1. Nothing is
    said of a signal that arrives once [main] has left the outer [try]
    block: the vector, and with it the logger, is destroyed there, while
    the pointer is still set. *)
Theorem X14_sigint_reports_and_exits
    {W prod} (cfg : build) (env : collaborators W prod)
    (options : gmap string string) (pid : Z) (fuel : nat) (w : W) :
  let r := main cfg env options pid fuel (initial w) in
  outcome r = OutOfFuel ->
  Signal ∈ events r ->
  count options "verbose" = true /\
  global_cerr_logger (final r) = true /\
  let x := (report env (world (final r))).1 in
  events (cerr_log_handler env (final r)) = [Report x] /\
  outcome (cerr_log_handler env (final r)) =
    match x with
    | None => Exit 1
    | Some e => Throw e
    end.
Proof.
  intros r _ Hin. subst r.
  pose proof (main_installs_when_verbose cfg env options pid fuel (initial w))
    as Hverbose.
  rewrite Forall_forall in Hverbose.
  split; [by apply (Hverbose Signal)|].
  pose proof (main_guards cfg env options pid fuel (initial w) (or_intror Hin))
    as Hset.
  split; [done|].
  destruct (final (main cfg env options pid fuel (initial w))) as [w' q g].
  simpl in Hset. subst g.
  unfold cerr_log_handler, mbind, M_bind, bind, do_report, call; simpl.
  by destruct (report env w') as [[e|] w'']; simpl.
Qed.

(** * The logger of errors *)

Section ErrorLog.

Context {W prod : Type}.
Variable cfg : build.
Variable env : collaborators W prod.
Variable options : gmap string string.
Variable pid : Z.

Lemma emits_bind_value {A C} (P : event prod -> Prop) (Q : A -> Prop)
    (m : M W prod A) (k : A -> M W prod C) :
  emits P m -> (forall s a, outcome (m s) = Normal a -> Q a) ->
  (forall a, Q a -> emits P (k a)) -> emits P (m ≫= k).
Proof.
  intros Hm HQ Hk s. unfold mbind, M_bind, bind.
  specialize (Hm s). specialize (HQ s).
  destruct (outcome (m s)) as [a| | |]; simpl; try done.
  apply Forall_app. split; [done|]. by apply Hk, HQ.
Qed.

Lemma load_schema_returns s sch :
  outcome (load_schema cfg env options s) = Normal sch ->
  sch = configured_schema options.
Proof.
  unfold load_schema, configured_schema, banner, new_schema, no_sqlite.
  destruct (count options "sqlite"), (HAVE_LIBSQLITE3 cfg),
    (count options "monetdb"); rewrite bind_emit;
    unfold mbind, M_bind, bind, call; simpl;
    try destruct (schema_new env _ (world s)) as [[e|] w']; simpl;
    congruence.
Qed.

Lemma main_logs_errors fuel :
  emits (fun ev =>
           forall target conninfo sch x,
             ev = NewLogger (pqxx_logger target conninfo sch) x ->
             count options "log-to" = true /\
             target = (if count options "sqlite" then opt options "sqlite"
                       else opt options "target") /\
             conninfo = opt options "log-to" /\
             sch = configured_schema options)
    (main cfg env options pid fuel).
Proof.
  apply main_emits; try done.
  - unfold set_up.
    apply (emits_bind_value _ (fun sch => sch = configured_schema options)).
    + unfold load_schema, new_schema, no_sqlite, banner. emission.
    + apply load_schema_returns.
    + intros sch ->. unfold make_loggers, new_logger.
      destruct (count options "log-to"); emission.
      apply emits_call. by intros r ? ? ? ? [= <- <- <- <-].
  - intros loggers. apply (emits_weaken of_run); [by intros []|].
    apply run_emits.
Qed.

End ErrorLog.

(** X15. The logger that [--log-to] asks for: whatever the collaborators
    do, the only [pqxx_logger] that [main] constructs is the one of line
    132, with the value of [--log-to], the schema that was loaded, and as
    the name of the database under test the value of [--sqlite] if that
    option is given and the value of [--target] if not. With [--monetdb]
    the errors are therefore logged under the [--target], empty when the
    option is absent, and not under the MonetDB database. *)
Theorem X15_error_log_names_the_target
    {W prod} (cfg : build) (env : collaborators W prod)
    (options : gmap string string) (pid : Z) (fuel : nat) (s : state W)
    (target conninfo : string) (sch : schema) (x : option exn) :
  NewLogger (pqxx_logger target conninfo sch) x
    ∈ events (main cfg env options pid fuel s) ->
  count options "log-to" = true /\
  conninfo = opt options "log-to" /\
  sch = configured_schema options /\
  target = (if count options "sqlite" then opt options "sqlite"
            else opt options "target") /\
  (count options "sqlite" = false -> count options "monetdb" = true ->
   sch = schema_monetdb (opt options "monetdb") /\
   target = opt options "target").
Proof.
  intros Hin.
  pose proof (main_logs_errors cfg env options pid fuel s) as H.
  rewrite Forall_forall in H.
  destruct (H _ Hin target conninfo sch x eq_refl) as (H1 & H2 & H3 & H4).
  split; [done|]. split; [done|]. split; [done|]. split; [done|].
  intros Hsqlite Hmonetdb. subst sch target.
  unfold configured_schema. by rewrite Hsqlite, Hmonetdb.
Qed.

(** * The version *)

Lemma assigned_help_parses {prod} boost args :
  assigned boost "help" args = [] -> cannot_parse (prod:=prod) boost args = [].
Proof.
  unfold assigned, cannot_parse, assignment.
  induction args as [|arg args IH]; simpl; [done|].
  destruct (regex_match boost arg optregex) as [m|]; simpl; [|done].
  destruct (decide (sub_match m 1 = "help")); [done|]. apply IH.
Qed.

(** X16. [--version] prints nothing but the banner: when every argument
    is recognised, none of them is [--help] and one of them is
    [--version], [main] writes its banner, the name of the package and
    the revision, to [cerr] and returns 0. It looks at no other option
    and calls no collaborator. *)
Theorem X16_version_is_the_banner
    {W prod} (boost : bool) (cfg : build) (env : collaborators W prod)
    (pid : Z) (argv : list string) (fuel : nat) (s : state W) :
  assigned boost "help" (tail argv) = [] ->
  assigned boost "version" (tail argv) <> [] ->
  main_argv boost cfg env pid argv fuel s =
    Result (Exit 0) [Cerr (PACKAGE_NAME cfg +:+ " " +:+ GITREV cfg +:+ endl)] s.
Proof.
  intros Hhelp Hversion. rewrite main_argv_run.
  rewrite (assigned_help_parses boost _ Hhelp).
  unfold usage_or_run, count.
  rewrite !lookup_options_of, Hhelp, lookup_empty. simpl.
  destruct (assigned boost "version" (tail argv)) as [|v vs] using rev_ind;
    [done|].
  by rewrite last_snoc.
Qed.

(** * Numbers on the command line *)

Lemma digit_pretty_N_char k :
  (k < 10)%N -> digit (pretty_N_char k) = Some (Z.of_N k).
Proof.
  intros Hk.
  assert (H : k ∈ [0; 1; 2; 3; 4; 5; 6; 7; 8; 9]%N).
  { rewrite !elem_of_cons. lia. }
  rewrite !elem_of_cons, elem_of_nil in H.
  repeat (destruct H as [->|H]; [reflexivity|]). done.
Qed.

Lemma isspace_pretty_N_char k : (k < 10)%N -> isspace (pretty_N_char k) = false.
Proof.
  intros Hk.
  assert (H : k ∈ [0; 1; 2; 3; 4; 5; 6; 7; 8; 9]%N).
  { rewrite !elem_of_cons. lia. }
  rewrite !elem_of_cons, elem_of_nil in H.
  repeat (destruct H as [->|H]; [reflexivity|]). done.
Qed.

Lemma digits_pretty_N_go x s :
  (0 < x)%N -> digits (pretty_N_go x s) None = digits s (Some (Z.of_N x)).
Proof.
  revert s. induction (N.lt_wf_0 x) as [x _ IH]; intros s Hx.
  rewrite pretty_N_go_step by done.
  assert (Hmod : (x `mod` 10 < 10)%N) by (apply N.mod_lt; lia).
  pose proof (N.div_mod x 10 ltac:(lia)) as Hdiv.
  destruct (decide (x `div` 10 = 0)%N) as [H0|Hne].
  - rewrite H0, pretty_N_go_0. simpl. rewrite digit_pretty_N_char by done.
    simpl. do 2 f_equal. lia.
  - rewrite IH; [|apply N.div_lt; lia|by apply N.neq_0_lt_0]. simpl.
    rewrite digit_pretty_N_char by done. simpl. do 2 f_equal. lia.
Qed.

Lemma pretty_N_go_head x s :
  (0 < x)%N ->
  exists k rest, (k < 10)%N /\ pretty_N_go x s = String (pretty_N_char k) rest.
Proof.
  revert s. induction (N.lt_wf_0 x) as [x _ IH]; intros s Hx.
  rewrite pretty_N_go_step by done.
  assert (Hmod : (x `mod` 10 < 10)%N) by (apply N.mod_lt; lia).
  destruct (decide (x `div` 10 = 0)%N) as [H0|Hne].
  - rewrite H0, pretty_N_go_0. by eexists _, _.
  - apply IH; [apply N.div_lt; lia|by apply N.neq_0_lt_0].
Qed.

Lemma strtol_pretty (n : Z) : strtol (pretty n) = Some n.
Proof.
  destruct n as [|p|p]; [done| |].
  - change (pretty (Z.pos p)) with (pretty_N_go (N.pos p) "").
    destruct (pretty_N_go_head (N.pos p) "" ltac:(lia)) as (k & rest & Hk & Heq).
    pose proof (digits_pretty_N_go (N.pos p) "" ltac:(lia)) as Hd.
    unfold strtol. rewrite Heq in *. simpl skip_space.
    rewrite (isspace_pretty_N_char k Hk).
    assert (Hminus : pretty_N_char k <> "-"%char /\ pretty_N_char k <> "+"%char).
    { pose proof (digit_pretty_N_char k Hk) as Hdig.
      split; intros Hc; rewrite Hc in Hdig; discriminate. }
    destruct Hminus as [H1 H2].
    destruct (pretty_N_char k) as [[] [] [] [] [] [] [] []]; try done.
  - change (pretty (Z.neg p)) with ("-" +:+ pretty_N_go (N.pos p) "").
    pose proof (digits_pretty_N_go (N.pos p) "" ltac:(lia)) as Hd.
    unfold strtol. simpl.
    change ("" +:+ pretty_N_go (N.pos p) "") with (pretty_N_go (N.pos p) "").
    by rewrite Hd.
Qed.

Lemma stol_pretty (n : Z) : LONG_MIN <= n <= LONG_MAX -> stol (pretty n) = inr n.
Proof.
  intros Hn. unfold stol, stoa. rewrite strtol_pretty.
  destruct (LONG_MIN <=? n) eqn:H1, (n <=? LONG_MAX) eqn:H2; simpl; try done; lia.
Qed.

Lemma every_pretty_N_go (f : ascii -> bool) x s :
  (forall k, f (pretty_N_char k) = true) ->
  every f (pretty_N_go x s) = every f s.
Proof.
  intros Hf. revert s. induction (N.lt_wf_0 x) as [x _ IH]; intros s.
  destruct (decide (x = 0)%N) as [->|Hx]; [by rewrite pretty_N_go_0|].
  rewrite pretty_N_go_step by lia. rewrite IH by (apply N.div_lt; lia).
  simpl. by rewrite Hf.
Qed.

Lemma every_pretty boost (n : Z) : every (value_char boost) (pretty n) = true.
Proof.
  assert (Hchar : forall k, value_char boost (pretty_N_char k) = true).
  { intros k. unfold value_char. apply orb_true_iff. right.
    unfold pretty_N_char.
    repeat (match goal with |- context [match ?x with _ => _ end] =>
              destruct x end; try reflexivity). }
  destruct n as [|p|p]; [by destruct boost| |].
  - change (pretty (Z.pos p)) with (pretty_N_go (N.pos p) "").
    by rewrite every_pretty_N_go.
  - change (pretty (Z.neg p)) with (String "-" (pretty_N_go (N.pos p) "")).
    simpl. rewrite every_pretty_N_go by done. simpl.
    unfold value_char. by rewrite orb_true_r.
Qed.

(** X17. A dry run from the command line: the arguments [--dry-run] and
    [--max-queries=N], with [N] a [long] in decimal notation, make [main]
    load the schema of the PostgreSQL database with the empty connection
    string, construct the [impedance_feedback] logger, seed the generator
    with the process ID, print [max(1, N)] statements and return 0. *)
Theorem X17_dry_run_from_the_command_line
    {W prod} (boost : bool) (cfg : build) (env : collaborators W prod)
    (pid N : Z) (fuel : nat) (w : W) :
  sets_up env -> well_behaved env ->
  LONG_MIN <= N <= LONG_MAX ->
  (Z.to_nat (Z.max 1 N) <= fuel)%nat ->
  let r := main_argv boost cfg env pid
             ["sqlsmith"; "--dry-run"; "--max-queries=" +:+ pretty N] fuel
             (initial w) in
  exists gens,
    length gens = Z.to_nat (Z.max 1 N) /\
    outcome r = Exit 0 /\
    events r =
      [Cerr (PACKAGE_NAME cfg +:+ " " +:+ GITREV cfg +:+ endl);
       Cout ("=====:  :======" +:+ endl);
       NewSchema (schema_pqxx "") None; FillScope (schema_pqxx "") None;
       NewLogger impedance_feedback None; Seed pid] ++
      concat (map (dry_block env [impedance_feedback]) gens).
Proof.
  intros Hsets Hwb HN Hfuel r. subst r.
  set (options := <["max-queries" := pretty N]> {["dry-run" := ""]}
                  : gmap string string).
  assert (Hdry : assignment boost "--dry-run" = ("dry-run", "")).
  { unfold assignment.
    assert (regex_match boost "--dry-run" optregex = Some {[1%nat := "dry-run"]})
      as ->.
    { apply regex_match_optregex. exists "dry-run". split; [|by left].
      unfold option_names. rewrite !elem_of_cons. tauto. }
    done. }
  assert (Hmax : assignment boost ("--max-queries=" +:+ pretty N) =
                 ("max-queries", pretty N)).
  { unfold assignment.
    assert (regex_match boost ("--max-queries=" +:+ pretty N) optregex =
            Some (<[2%nat := pretty N]> {[1%nat := "max-queries"]})) as ->.
    { apply regex_match_optregex. exists "max-queries". split.
      - unfold option_names. rewrite !elem_of_cons. tauto.
      - right. exists (pretty N). split; [done|]. split; [|done].
        apply every_pretty. }
    unfold sub_match.
    by rewrite lookup_insert_ne, lookup_singleton_eq, lookup_insert_eq. }
  assert (Hoptions : options_of boost
                       (tail ["sqlsmith"; "--dry-run";
                              "--max-queries=" +:+ pretty N]) ∅ = options).
  { unfold options_of. cbn [tail foldl]. rewrite Hdry, Hmax. cbn [fst snd].
    by rewrite insert_empty. }
  assert (Hparse : cannot_parse (prod:=prod) boost
                     (tail ["sqlsmith"; "--dry-run";
                            "--max-queries=" +:+ pretty N]) = []).
  { apply assigned_help_parses. unfold assigned. cbn [tail project].
    by rewrite Hdry, Hmax. }
  assert (Hcount : forall key,
            count options key =
              bool_decide (key = "max-queries" \/ key = "dry-run")).
  { intros key. unfold count, options.
    destruct (decide (key = "max-queries")) as [->|H1].
    - rewrite lookup_insert_eq. by rewrite !bool_decide_eq_true_2 by eauto.
    - rewrite lookup_insert_ne by done.
      destruct (decide (key = "dry-run")) as [->|H2].
      + rewrite lookup_singleton_eq. by rewrite !bool_decide_eq_true_2 by eauto.
      + rewrite lookup_singleton_ne by done.
        rewrite !bool_decide_eq_false_2; [done|tauto|by intros [? ?]]. }
  assert (Hopt : opt options "max-queries" = pretty N /\
                 opt options "target" = "").
  { unfold opt, options. by rewrite lookup_insert_eq, lookup_insert_ne. }
  destruct Hopt as [Hopt Htarget].
  assert (Hn : seed_of options pid pid)
    by (unfold seed_of; by rewrite Hcount).
  assert (Hsqlite : count options "sqlite" = true -> HAVE_LIBSQLITE3 cfg = true)
    by (by rewrite Hcount).
  destruct (main_body_seeds cfg env options pid Hsets Hsqlite w pid Hn)
    as (w1 & Hbody).
  destruct (dry_run_loop_ceiling env options (configured_loggers options) Hwb
              N fuel w1 0 (count options "verbose")
              ltac:(by rewrite Hcount)
              ltac:(rewrite Hopt; by apply stol_pretty)
              ltac:(unfold LONG_MIN, LONG_MAX; lia)
              ltac:(by rewrite Z.sub_0_r))
    as (gens & w' & Hloop & Hlen).
  rewrite Z.sub_0_r in Hlen. exists gens. split; [done|].
  rewrite main_argv_run, Hoptions, Hparse.
  rewrite (usage_or_run_of_body cfg env options pid)
    by (by rewrite Hcount).
  rewrite Hbody. unfold run. rewrite (Hcount "dry-run").
  rewrite bool_decide_eq_true_2 by (by right).
  rewrite (bind_exit _ _ _ _ _ _ Hloop).
  unfold after. cbn [outcome events final app]. split; [done|].
  unfold set_up_events, database, configured_schema, configured_loggers.
  rewrite !Hcount, Htarget. cbn. by rewrite <- !app_assoc.
Qed.

(** * The exit status *)

(** ** Broken sessions and sleeps *)

Section Heals.

Context {prod : Type}.
Implicit Types t : list (event prod).

Lemma heals_app t1 t2 : heals t1 -> heals t2 -> heals (t1 ++ t2).
Proof.
  unfold heals, sleeps, tests. intros H1 H2.
  by rewrite !project_app, filter_app, map_app, H1, H2.
Qed.

Lemma heals_idle t : Forall idle t -> heals t.
Proof.
  intros Ht. unfold heals, sleeps, tests.
  rewrite !(project_emitted idle); try done; by intros ev [].
Qed.

Lemma installs_elem_of t : installs t = true -> Signal ∈ t.
Proof.
  induction t as [|ev t IH]; [done|].
  destruct ev; simpl; try (intros H; right; by apply IH). intros _. by left.
Qed.

End Heals.

Section Healing.

Context {W prod : Type}.
Variable env : collaborators W prod.

Lemma heals_rounds loggers dut outcomes (rounds : list (list (event prod))) :
  Forall2 (round env loggers dut) outcomes rounds -> heals (concat rounds).
Proof.
  intros H. unfold heals.
  by rewrite (rounds_sleeps _ _ _ _ _ H), (rounds_tests _ _ _ _ _ H).
Qed.

Lemma heals_bind {A C} (m : M W prod A) (k : A -> M W prod C) :
  emits idle m -> (forall a s, heals (events (k a s))) ->
  forall s, heals (events ((m ≫= k) s)).
Proof.
  intros Hm Hk s. specialize (Hm s). unfold mbind, M_bind, bind.
  destruct (outcome (m s)) as [a| | |]; simpl; try by apply heals_idle.
  apply heals_app; [by apply heals_idle|apply Hk].
Qed.

Lemma heals_never {A C} (m : M W prod A) (k : A -> M W prod C) :
  never_returns m -> (forall s, heals (events (m s))) ->
  forall s, heals (events ((m ≫= k) s)).
Proof.
  intros Hm Hq s. specialize (Hq s). specialize (Hm s).
  unfold mbind, M_bind, bind.
  destruct (outcome (m s)) as [a|e|n|]; simpl; try done.
  by destruct (Hm a).
Qed.

Variable options : gmap string string.
Variable loggers : list logger.
Variable dut : dut_base.
Hypothesis Hwb : well_behaved env.
Hypothesis Hdut : dut_raises_failures env.

Section Valid.

Hypothesis Hvalid :
  count options "max-queries" = false \/
  exists N, stol (opt options "max-queries") = inr N.

(** The inner loop, whatever the ceiling and the fuel: the statements it
    has gone through, and then it is out of fuel, or at the ceiling, or
    left by a broken session. *)
Lemma inner_loop_rounds fuel s :
  exists outcomes blocks o t s',
    inner_loop env options fuel loggers dut s =
      Result o (concat blocks ++ t) s' /\
    Forall2 (round env loggers dut) outcomes blocks /\
    ((o = OutOfFuel \/ o = Exit 0) /\ Forall idle t \/
     exists raised e,
       raised = Some e /\ is_broken e = true /\ o = Throw e /\
       block env loggers dut raised t).
Proof.
  revert s. induction fuel as [|fuel IH]; intros [w q g].
  { exists [], [], OutOfFuel, []. eexists. split; [done|].
    split; [constructor|]. left. split; [by left|constructor]. }
  change (inner_loop env options (S fuel) loggers dut) with
    (iteration env options loggers dut;;
     inner_loop env options fuel loggers dut).
  destruct (check_ceiling_cases env options w q g)
    as [[q' Hcheck]|(o & t & s' & Hcheck & Ho & Ht)].
  - destruct (generate_and_test_cases env loggers dut w q' g Hwb Hdut)
      as (raised & b & w1 & Hrun & Hb & _).
    assert (Hit : iteration env options loggers dut (State w q g) =
                  Result (verdict raised) b (State w1 q' g)).
    { unfold iteration. step Hcheck. rewrite Hrun. apply after_nil. }
    destruct (broken raised) eqn:Hbroken.
    + destruct (verdict_throw raised Hbroken) as (e & -> & He & Hv).
      exists [], [], (Throw e), b. eexists.
      rewrite Hv in Hit. rewrite (bind_throw _ _ _ _ _ _ Hit).
      split; [done|]. split; [constructor|]. right. by exists (Some e), e.
    + rewrite (verdict_normal raised Hbroken) in Hit.
      destruct (IH (State w1 q' g))
        as (outcomes & blocks & o & t & s' & Hloop & Hrounds & Hend).
      exists (raised :: outcomes), (b :: blocks), o, t, s'.
      step Hit. rewrite Hloop. unfold after; simpl. rewrite <- app_assoc.
      split; [done|]. split; [|done].
      constructor; [|done]. exists b. split; [done|].
      unfold backoff. rewrite Hbroken. by rewrite app_nil_r.
  - exists [], [], o, t, s'.
    assert (Hit : iteration env options loggers dut (State w q g) =
                  Result o t s').
    { unfold iteration, mbind, M_bind, bind. rewrite Hcheck; simpl.
      destruct o; try done. by destruct (Ho a). }
    assert (Hexit : o = Exit 0).
    { destruct (check_ceiling_valid env options Hwb Hvalid w q g)
        as [[q' Hc]|(t' & s'' & Hc)]; rewrite Hcheck in Hc.
      - injection Hc as -> _ _. by destruct (Ho tt).
      - by injection Hc as -> _ _. }
    subst o. rewrite (bind_exit _ _ _ _ _ _ Hit).
    split; [done|]. split; [constructor|]. left. split; [by right|].
    eapply Forall_impl; [exact Ht|]. by intros ev [x ->].
Qed.

Lemma outer_loop_rounds fuel s :
  exists outcomes rounds o t s',
    outer_loop env options fuel loggers dut s =
      Result o (concat rounds ++ t) s' /\
    Forall2 (round env loggers dut) outcomes rounds /\
    (o = OutOfFuel \/ o = Exit 0) /\ Forall idle t.
Proof.
  revert s. induction fuel as [|fuel IH]; intros s.
  { exists [], [], OutOfFuel, [], s. split; [done|].
    split; [constructor|]. split; [by left|constructor]. }
  change (outer_loop env options (S fuel) loggers dut) with
    (session env options (S fuel) loggers dut;;
     outer_loop env options fuel loggers dut).
  destruct (inner_loop_rounds (S fuel) s)
    as (outcomes & blocks & o & t & [w1 q1 g1] & Hloop & Hrounds & Hend).
  destruct Hend as [[Ho Ht]|(raised & e & Hr & He & -> & Hb)].
  - exists outcomes, blocks, o, t, (State w1 q1 g1).
    split; [|done]. unfold session. destruct Ho as [-> | ->].
    + by rewrite (bind_out_of_fuel _ _ _ _ _
                    (try_catch_out_of_fuel _ _ _ _ _ _ Hloop)).
    + by rewrite (bind_exit _ _ _ _ _ _ (try_catch_exit _ _ _ _ _ _ _ Hloop)).
  - destruct (IH (State (sleep_for env 1000 w1) q1 g1))
      as (outcomes' & rounds' & o & t' & s' & Hrest & Hrounds' & Hend).
    exists (outcomes ++ raised :: outcomes'),
           (blocks ++ (t ++ [Sleep 1000]) :: rounds'), o, t', s'.
    step (session_backoff env options loggers dut _ _ _ _ _ _ _ Hloop He).
    rewrite Hrest. unfold after; simpl.
    split; [|split; [|done]].
    + rewrite concat_app; simpl. by rewrite <- !app_assoc.
    + apply Forall2_app; [done|]. constructor; [|done].
      by apply (round_of_broken env loggers dut raised e).
Qed.

End Valid.

(** Whatever the ceiling and the fuel, the outer loop sleeps 1000 ms once
    for each session that broke. *)
Lemma outer_loop_heals fuel s :
  heals (events (outer_loop env options fuel loggers dut s)).
Proof.
  destruct (count options "max-queries") eqn:Hon;
    [destruct (stol (opt options "max-queries")) as [e|N] eqn:Hstol|].
  - destruct fuel as [|fuel]; [done|]. destruct s as [w q g].
    change (outer_loop env options (S fuel) loggers dut) with
      (session env options (S fuel) loggers dut;;
       outer_loop env options fuel loggers dut).
    assert (Hin : inner_loop env options (S fuel) loggers dut (State w q g) =
                  Result (Throw e) [] (State w (wrap_long (q + 1)) g)).
    { change (inner_loop env options (S fuel) loggers dut) with
        (iteration env options loggers dut;;
         inner_loop env options fuel loggers dut).
      apply bind_throw. unfold iteration. apply bind_throw.
      by apply check_ceiling_invalid. }
    unfold session.
    by rewrite (bind_throw _ _ _ _ _ _
                  (try_catch_passed _ _ _ _ _ _ _ Hin (stol_raises _ _ Hstol))).
  - destruct (outer_loop_rounds (or_intror (ex_intro _ N Hstol)) fuel s)
      as (outcomes & rounds & o & t & s' & -> & Hrounds & _ & Ht).
    apply heals_app; [by eapply heals_rounds|by apply heals_idle].
  - destruct (outer_loop_rounds (or_introl Hon) fuel s)
      as (outcomes & rounds & o & t & s' & -> & Hrounds & _ & Ht).
    apply heals_app; [by eapply heals_rounds|by apply heals_idle].
Qed.

End Healing.

Section Exit.

Context {W prod : Type}.
Variable cfg : build.
Variable env : collaborators W prod.
Variable options : gmap string string.
Variable pid : Z.
Hypothesis Hwb : well_behaved env.
Hypothesis Hdut : dut_raises_failures env.

Lemma main_body_heals fuel s :
  heals (events (main_body cfg env options pid fuel s)).
Proof.
  revert s. unfold main_body. apply heals_bind.
  { apply (emits_weaken of_set_up); [by intros []|apply set_up_emits]. }
  intros loggers. apply heals_bind.
  { eapply emits_weaken; [|apply seed_rng_emits]. by intros ev [n ->]. }
  intros _. unfold run. apply heals_bind.
  { apply emits_if; [|emission].
    apply (emits_weaken of_dry_run); [by intros []|apply dry_run_loop_emits]. }
  intros _. apply heals_bind.
  { unfold make_dut, new_dut, no_sqlite. emission. }
  intros dut. apply heals_bind; [by apply emits_emit|].
  intros _. apply heals_bind; [by apply emits_emit|].
  intros _. apply heals_never.
  - apply outer_loop_never_returns.
  - intros s. by apply outer_loop_heals.
Qed.

(** A non-zero status of [main] is 1, and comes from line 106 or from the
    handler of line 245, whatever the collaborators do. *)
Lemma main_exits_one fuel s n :
  outcome (main cfg env options pid fuel s) = Exit n -> n <> 0 ->
  n = 1 /\
  (count options "sqlite" = true /\ HAVE_LIBSQLITE3 cfg = false \/
   exists e,
     outcome (main_body cfg env options pid fuel s) = Throw e /\
     is_std_exception e = true).
Proof.
  destruct (count options "help") eqn:Hhelp.
  { unfold main. rewrite Hhelp. by intros [= <-]. }
  destruct (count options "version") eqn:Hversion.
  { unfold main. rewrite Hhelp, Hversion. by intros [= <-]. }
  rewrite (main_of_body cfg env options pid Hhelp Hversion).
  pose proof (main_body_exits cfg env options pid fuel s) as Hexits.
  destruct (main_body cfg env options pid fuel s) as [[a|e|n'|] t s'];
    cbn [outcome events final after] in *; try done.
  - by intros [= <-].
  - destruct (is_std_exception e) eqn:He; cbn [outcome]; [|done].
    intros [= <-] _. split; [done|]. right. by exists e.
  - intros [= <-] Hn.
    destruct (Hexits n' eq_refl) as [->|(-> & Hs & Hb)]; [done|].
    split; [done|by left].
Qed.

(** With a statement factory and loggers that are well behaved and a DUT
    that raises [dut::failure]s only: how [main] ends once a statement
    has been executed, and when it sleeps. *)
Lemma main_ends fuel s :
  let r := main cfg env options pid fuel s in
  (forall n, outcome r = Exit n -> n <> 0 -> tests (events r) = []) /\
  (forall e, outcome r = Throw e -> tests (events r) = []) /\
  (forall a, outcome r <> Normal a) /\
  heals (events r).
Proof.
  intros r. subst r.
  destruct (count options "help") eqn:Hhelp.
  { unfold main. rewrite Hhelp. by split; [|split; [|split]]. }
  destruct (count options "version") eqn:Hversion.
  { unfold main. rewrite Hhelp, Hversion. by split; [|split; [|split]]. }
  rewrite (main_of_body cfg env options pid Hhelp Hversion).
  pose proof (main_body_quits cfg env options pid fuel s Hwb Hdut) as Hquits.
  pose proof (main_body_heals fuel s) as Hheals.
  assert (Hgreeting : forall t : list (event prod),
            heals t -> heals (greeting cfg :: t)).
  { intros t Ht. apply (heals_app [_]); [|done].
    apply heals_idle. by repeat constructor. }
  unfold quits_untested in Hquits.
  destruct (main_body cfg env options pid fuel s) as [[a|e|n'|] t s'];
    cbn [outcome events final after app] in *.
  - split; [|split; [|split]]; try done; try by apply Hgreeting.
    by intros n [= <-].
  - destruct (is_std_exception e) eqn:He; cbn [outcome events final].
    + split; [|split; [|split]]; try done.
      * intros n _ _. unfold tests in *. simpl.
        by rewrite project_app, Hquits.
      * apply Hgreeting, heals_app; [done|].
        apply heals_idle. by repeat constructor.
    + split; [|split; [|split]]; try done; by apply Hgreeting.
  - split; [|split; [|split]]; try done; try by apply Hgreeting.
    intros n [= <-] Hn. by apply Hquits.
  - split; [|split; [|split]]; try done; by apply Hgreeting.
Qed.

End Exit.

(** Lines 52 to 57, run where [main] left the pointer set. *)
Lemma cerr_log_handler_reports {W prod} (env : collaborators W prod) w q :
  let x := (report env w).1 in
  events (cerr_log_handler (prod:=prod) env (State w q true)) = [Report x] /\
  outcome (cerr_log_handler (prod:=prod) env (State w q true)) =
    match x with
    | None => Exit 1
    | Some e => Throw e
    end.
Proof.
  unfold cerr_log_handler, mbind, M_bind, bind, do_report, call; simpl.
  by destruct (report env w) as [[e|] w']; simpl.
Qed.

(** The process is [main], or [main] cut short in its loops by the handler
    of SIGINT. *)
Lemma process_cases {W prod} cfg (env : collaborators W prod) options pid
    sigint fuel w :
  let r0 := main cfg env options pid fuel (initial w) in
  let r := process cfg env options pid sigint fuel (initial w) in
  r = r0 \/
  sigint = true /\ count options "verbose" = true /\
  outcome r0 = OutOfFuel /\
  exists x,
    events r = events r0 ++ [Report x] /\
    outcome r = match x with
                | None => Exit 1
                | Some e => Throw e
                end /\
    x = (report env (world (final r0))).1.
Proof.
  intros r0 r. subst r. unfold process. fold r0.
  destruct (outcome r0) eqn:Ho; try by left.
  destruct sigint; [|by left].
  destruct (installs (events r0)) eqn:Hin; [|by left].
  apply installs_elem_of in Hin. right.
  pose proof (main_installs_when_verbose cfg env options pid fuel
                (initial w)) as Hverbose.
  rewrite Forall_forall in Hverbose.
  pose proof (main_guards cfg env options pid fuel (initial w)
                (or_intror Hin)) as Hset.
  fold r0 in Hset. split; [done|]. split; [by apply (Hverbose Signal)|].
  split; [done|]. destruct (final r0) as [w' q g]. simpl in Hset. subst g.
  destruct (cerr_log_handler_reports env w' q) as [Hev Hout].
  eexists. unfold after. cbn [outcome events final]. rewrite Hev, Hout.
  by repeat split.
Qed.


(** * The seed *)

Section ParallelLaws.

Context {W prod : Type}.
Variable R : relation W.

Local Abbreviation M := (M W prod).

Lemma parallel_ret {A} (Q : A -> A -> Prop) a1 a2 :
  Q a1 a2 -> parallel R Q (ret a1 : M A) (ret a2).
Proof. intros HQ s1 s2 Hs. split; [by split|exact Hs]. Qed.

Lemma parallel_throw {A} (Q : A -> A -> Prop) e :
  parallel R Q (throw e : M A) (throw e).
Proof. intros s1 s2 Hs. split; [by split|exact Hs]. Qed.

Lemma parallel_return {A} (Q : A -> A -> Prop) n :
  parallel R Q (return_ n : M A) (return_ n).
Proof. intros s1 s2 Hs. split; [by split|exact Hs]. Qed.

Lemma parallel_out_of_fuel {A} (Q : A -> A -> Prop) :
  parallel R Q (out_of_fuel : M A) out_of_fuel.
Proof. intros s1 s2 Hs. split; [by split|exact Hs]. Qed.

Lemma parallel_lift {A} (r : exn + A) : parallel R eq (lift r : M A) (lift r).
Proof. destruct r; [apply parallel_throw|by apply parallel_ret]. Qed.

Lemma parallel_emit (ev1 ev2 : event prod) :
  untimed ev1 = untimed ev2 -> parallel R eq (emit ev1 : M unit) (emit ev2).
Proof.
  intros Hev s1 s2 Hs. split; [|exact Hs]. split; [done|]. simpl.
  by rewrite Hev.
Qed.

Lemma parallel_bind {A C} (Q : A -> A -> Prop) (Q' : C -> C -> Prop)
    (m1 m2 : M A) (k1 k2 : A -> M C) :
  parallel R Q m1 m2 ->
  (forall a1 a2, Q a1 a2 -> parallel R Q' (k1 a1) (k2 a2)) ->
  parallel R Q' (m1 ≫= k1) (m2 ≫= k2).
Proof.
  intros Hm Hk s1 s2 Hs. destruct (Hm s1 s2 Hs) as [[Ho Hev] Hfinal].
  unfold mbind, M_bind, bind.
  destruct (outcome (m1 s1)) as [a1|e1|n1|],
           (outcome (m2 s2)) as [a2|e2|n2|]; try done.
  destruct (Hk a1 a2 Ho _ _ Hfinal) as [[Ho' Hev'] Hfinal'].
  unfold same_run, after. cbn [outcome events final].
  by rewrite !map_app, Hev, Hev'.
Qed.

Lemma parallel_try_catch {A} (Q : A -> A -> Prop) (m1 m2 : M A) handles
    (h1 h2 : exn -> M A) :
  parallel R Q m1 m2 -> (forall e, parallel R Q (h1 e) (h2 e)) ->
  parallel R Q (try_catch m1 handles h1) (try_catch m2 handles h2).
Proof.
  intros Hm Hh s1 s2 Hs. destruct (Hm s1 s2 Hs) as [[Ho Hev] Hfinal].
  unfold try_catch.
  destruct (outcome (m1 s1)) as [a1|e1|n1|] eqn:H1,
           (outcome (m2 s2)) as [a2|e2|n2|] eqn:H2; try done;
    try (unfold same_run; by rewrite H1, H2).
  subst e2. destruct (handles e1); [|unfold same_run; by rewrite H1, H2].
  destruct (Hh e1 _ _ Hfinal) as [[Ho' Hev'] Hfinal'].
  unfold same_run, after. cbn [outcome events final].
  by rewrite !map_app, Hev, Hev'.
Qed.

Lemma parallel_for_each {A} (xs : list A) (k1 k2 : A -> M unit) :
  (forall x, parallel R eq (k1 x) (k2 x)) ->
  parallel R eq (for_each xs k1) (for_each xs k2).
Proof.
  intros Hk. induction xs as [|x xs IH]; simpl; [by apply parallel_ret|].
  apply (parallel_bind eq eq (k1 x) (k2 x)); [apply Hk|]. by intros _ _ _.
Qed.

Lemma parallel_if {A} (Q : A -> A -> Prop) (b : bool) (m1 m2 m1' m2' : M A) :
  parallel R Q m1 m1' -> parallel R Q m2 m2' ->
  parallel R Q (if b then m1 else m2) (if b then m1' else m2').
Proof. by destruct b. Qed.

Lemma parallel_call (f : W -> option exn * W) (ev : option exn -> event prod) :
  respects R f -> (forall x, untimed (ev x) = ev x) ->
  parallel R eq (call f ev) (call f ev).
Proof.
  intros Hf Hev [w1 q1 g1] [w2 q2 g2] (Hw & Hq & Hg). simpl in *.
  destruct (Hf w1 w2 Hw) as [Hr Hw']. unfold call. simpl.
  destruct (f w1) as [r1 w1'], (f w2) as [r2 w2']. simpl in *. subst r2.
  repeat split; try done. by destruct r1.
Qed.

Lemma parallel_get_queries_generated :
  parallel R eq (get_queries_generated : M Z) get_queries_generated.
Proof. intros s1 s2 Hs. repeat split; try done; apply Hs. Qed.

Lemma parallel_set_queries_generated q :
  parallel R eq (set_queries_generated q : M unit) (set_queries_generated q).
Proof. intros s1 s2 Hs. repeat split; try done; apply Hs. Qed.

Lemma parallel_get_global_cerr_logger :
  parallel R eq (get_global_cerr_logger : M bool) get_global_cerr_logger.
Proof. intros s1 s2 Hs. repeat split; try done; apply Hs. Qed.

Lemma parallel_set_global_cerr_logger b :
  parallel R eq (set_global_cerr_logger b : M unit) (set_global_cerr_logger b).
Proof. intros s1 s2 Hs. repeat split; try done; apply Hs. Qed.

Lemma same_run_bind {A C} (Q : A -> A -> Prop) (Q' : C -> C -> Prop)
    (m1 m2 : M A) (k1 k2 : A -> M C) s1 s2 :
  same_run Q (m1 s1) (m2 s2) ->
  (forall a1 a2,
     outcome (m1 s1) = Normal a1 -> outcome (m2 s2) = Normal a2 -> Q a1 a2 ->
     same_run Q' (k1 a1 (final (m1 s1))) (k2 a2 (final (m2 s2)))) ->
  same_run Q' ((m1 ≫= k1) s1) ((m2 ≫= k2) s2).
Proof.
  intros [Ho Hev] Hk. unfold mbind, M_bind, bind.
  destruct (m1 s1) as [[a1|e1|n1|] t1 s1'], (m2 s2) as [[a2|e2|n2|] t2 s2'];
    try done.
  destruct (Hk a1 a2 eq_refl eq_refl Ho) as [Ho' Hev'].
  unfold same_run, after in *. cbn [outcome events final] in *.
  by rewrite !map_app, Hev, Hev'.
Qed.

Lemma same_run_outcome (r1 r2 : result W prod unit) :
  same_run eq r1 r2 -> outcome r1 = outcome r2.
Proof.
  intros [Ho _].
  destruct (outcome r1) as [[]| | |], (outcome r2) as [[]| | |]; try done;
    by subst.
Qed.

End ParallelLaws.

Lemma project_untimed {prod B} (f : event prod -> option B)
    (t1 t2 : list (event prod)) :
  (forall ev, f (untimed ev) = f ev) ->
  map untimed t1 = map untimed t2 -> project f t1 = project f t2.
Proof.
  intros Hf. revert t2. induction t1 as [|ev1 t1 IH]; intros [|ev2 t2];
    simpl; try done.
  intros [= Hev Ht]. rewrite <- (Hf ev1), <- (Hf ev2), Hev.
  by rewrite (IH t2 Ht).
Qed.

(** ** Two runs of [main] *)

Ltac paralleling :=
  repeat first
    [ apply parallel_lift
    | apply parallel_return
    | apply parallel_throw
    | apply parallel_out_of_fuel
    | apply parallel_get_queries_generated
    | apply parallel_set_queries_generated
    | apply parallel_get_global_cerr_logger
    | apply parallel_set_global_cerr_logger
    | apply parallel_emit; reflexivity
    | apply parallel_ret; reflexivity
    | apply parallel_for_each; intros
    | apply parallel_try_catch; [|intros]
    | apply parallel_if
    | eapply (parallel_bind _ eq); [|intros ? ? <-] ].

Section TwoRuns.

Context {W prod : Type}.
Variable cfg : build.
Variable env : collaborators W prod.
Variable options : gmap string string.
Variables alike in_step : relation W.
Hypothesis Henv : reproducible env alike in_step.

Local Abbreviation M := (M W prod).

Lemma set_up_parallel :
  parallel alike eq (set_up cfg env options) (set_up cfg env options).
Proof.
  destruct Henv.
  unfold set_up, load_schema, make_loggers, new_schema, new_logger,
    no_sqlite, banner.
  paralleling; try (apply parallel_call; [done|by intros]); paralleling.
Qed.

Lemma factory_parallel : parallel in_step eq (factory env) (factory env).
Proof.
  intros [w1 q1 g1] [w2 q2 g2] (Hw & Hq & Hg). simpl in *.
  destruct (statement_factory_in_step env _ _ Henv w1 w2 Hw) as [Hr Hw'].
  unfold factory. simpl.
  destruct (statement_factory env w1) as [r1 w1'],
           (statement_factory env w2) as [r2 w2']. simpl in *. subst r2.
  repeat split; try done. by destruct r1.
Qed.

Lemma get_clock_parallel :
  parallel in_step (fun _ _ => True) (get_clock env : M Z) (get_clock env).
Proof.
  intros [w1 q1 g1] [w2 q2 g2] (Hw & Hq & Hg). simpl in *.
  pose proof (clock_in_step env _ _ Henv w1 w2 Hw) as Hw'.
  unfold get_clock. simpl.
  by destruct (clock env w1) as [t1 w1'], (clock env w2) as [t2 w2'].
Qed.

Lemma sleep_parallel ms : parallel in_step eq (sleep env ms) (sleep env ms).
Proof.
  intros [w1 q1 g1] [w2 q2 g2] (Hw & Hq & Hg). simpl in *.
  repeat split; try done. by apply (sleep_for_in_step env _ _ Henv).
Qed.

(** Line 146: the generators are in step from here on. *)
Lemma seed_parallel n s1 s2 :
  agree alike s1 s2 ->
  same_run eq (seed env n s1) (seed (prod:=prod) env n s2) /\
  agree in_step (final (seed (prod:=prod) env n s1))
    (final (seed (prod:=prod) env n s2)).
Proof.
  intros (Hw & Hq & Hg). repeat split; try done.
  by apply (rng_seed_in_step env _ _ Henv).
Qed.

Lemma execute_parallel loggers dut gen :
  parallel in_step eq (execute env loggers dut gen)
    (execute env loggers dut gen).
Proof.
  destruct Henv. unfold execute.
  eapply (parallel_bind _ eq); [paralleling|intros _ _ _].
  eapply (parallel_bind _ eq); [paralleling|intros _ _ _].
  eapply (parallel_bind _ eq); [paralleling|intros _ _ _].
  eapply parallel_bind; [apply get_clock_parallel|intros start1 start2 _].
  eapply (parallel_bind _ eq); [by apply parallel_call|intros _ _ _].
  eapply (parallel_bind _ eq).
  { apply parallel_for_each. intros l. by apply parallel_call. }
  intros _ _ _.
  eapply parallel_bind; [apply get_clock_parallel|intros stop1 stop2 _].
  eapply (parallel_bind _ eq); [by apply parallel_emit|intros _ _ _].
  paralleling.
Qed.

Lemma generate_and_test_parallel loggers dut :
  parallel in_step eq (generate_and_test env loggers dut)
    (generate_and_test env loggers dut).
Proof.
  pose proof execute_parallel as Hexecute. destruct Henv.
  unfold generate_and_test.
  eapply (parallel_bind _ eq); [apply factory_parallel|intros gen ? <-].
  eapply (parallel_bind _ eq).
  { apply parallel_for_each. intros l. by apply parallel_call. }
  intros _ _ _.
  eapply (parallel_bind _ eq); [paralleling|intros _ _ _].
  apply parallel_try_catch; [apply Hexecute|intros e].
  unfold classify, log_error.
  eapply (parallel_bind _ eq); [|intros _ _ _; paralleling].
  apply parallel_for_each. intros l.
  apply parallel_try_catch; [by apply parallel_call|intros e'].
  paralleling.
Qed.

Lemma check_ceiling_parallel :
  parallel in_step eq (check_ceiling env options) (check_ceiling env options).
Proof.
  destruct Henv. unfold check_ceiling, do_report.
  paralleling; try (apply parallel_call; [done|by intros]); paralleling.
Qed.

Lemma outer_loop_parallel fuel loggers dut :
  parallel in_step eq (outer_loop env options fuel loggers dut)
    (outer_loop env options fuel loggers dut).
Proof.
  assert (Hinner : forall n,
            parallel in_step eq (inner_loop env options n loggers dut)
              (inner_loop env options n loggers dut)).
  { induction n as [|n IH]; simpl; [paralleling|].
    eapply (parallel_bind _ eq); [|intros _ _ _; apply IH].
    unfold iteration.
    eapply (parallel_bind _ eq); [apply check_ceiling_parallel|intros _ _ _].
    apply generate_and_test_parallel. }
  induction fuel as [|fuel IH]; [paralleling|].
  change (outer_loop env options (S fuel) loggers dut) with
    (session env options (S fuel) loggers dut;;
     outer_loop env options fuel loggers dut).
  eapply (parallel_bind _ eq); [|intros _ _ _; apply IH].
  unfold session. apply parallel_try_catch; [apply Hinner|intros e].
  apply sleep_parallel.
Qed.

Lemma dry_run_loop_parallel fuel loggers :
  parallel in_step eq (dry_run_loop env options fuel loggers)
    (dry_run_loop env options fuel loggers).
Proof.
  destruct Henv.
  induction fuel as [|fuel IH]; simpl; [paralleling|].
  eapply (parallel_bind _ eq); [|intros _ _ _; apply IH].
  unfold dry_run_step.
  eapply (parallel_bind _ eq); [apply factory_parallel|intros gen ? <-].
  eapply (parallel_bind _ eq); [paralleling|intros _ _ _].
  eapply (parallel_bind _ eq).
  { apply parallel_for_each. intros l. by apply parallel_call. }
  intros _ _ _. paralleling.
Qed.

Lemma run_parallel fuel loggers :
  parallel in_step eq (run cfg env options fuel loggers)
    (run cfg env options fuel loggers).
Proof.
  pose proof dry_run_loop_parallel as Hdry.
  pose proof outer_loop_parallel as Houter. destruct Henv.
  unfold run, make_dut, new_dut, no_sqlite.
  eapply (parallel_bind _ eq); [apply parallel_if; [apply Hdry|paralleling]|].
  intros _ _ _.
  eapply (parallel_bind _ eq).
  { paralleling; try (apply parallel_call; [done|by intros]); paralleling. }
  intros dut ? <-.
  eapply (parallel_bind _ eq); [paralleling|intros _ _ _].
  eapply (parallel_bind _ eq); [paralleling|intros _ _ _].
  eapply (parallel_bind _ eq); [apply Houter|intros _ _ _]. paralleling.
Qed.

(** Line 146, with the number of the option or the process ID. *)
Lemma seed_rng_parallel pid s1 s2 :
  agree alike s1 s2 ->
  same_run eq (seed_rng env options pid s1) (seed_rng env options pid s2) /\
  (forall a,
     outcome (seed_rng env options pid s1) = Normal a ->
     agree in_step (final (seed_rng env options pid s1))
       (final (seed_rng env options pid s2))).
Proof.
  intros Hs. unfold seed_rng.
  destruct (if count options "seed"
            then stoi (opt options "seed") else inr pid) as [e|n] eqn:Hn.
  - replace (if count options "seed"
             then lift (stoi (opt options "seed")) else ret pid)
      with (throw e : M Z); [done|].
    destruct (count options "seed"); [|done].
    by destruct (stoi (opt options "seed")); simplify_eq.
  - replace (if count options "seed"
             then lift (stoi (opt options "seed")) else ret pid)
      with (ret n : M Z).
    + rewrite !bind_ret. destruct (seed_parallel n s1 s2 Hs). by split.
    + destruct (count options "seed"); [|by simplify_eq].
      by destruct (stoi (opt options "seed")); simplify_eq.
Qed.

Variables pid1 pid2 : Z.
Hypothesis Hpid : count options "seed" = true \/ pid2 = pid1.

Lemma main_body_same_run fuel s1 s2 :
  agree alike s1 s2 ->
  same_run eq (main_body cfg env options pid1 fuel s1)
    (main_body cfg env options pid2 fuel s2).
Proof.
  intros Hs. unfold main_body.
  assert (Hseed : seed_rng env options pid2 = seed_rng env options pid1).
  { destruct Hpid as [Hon | ->]; [|done]. by apply seed_rng_of_option. }
  rewrite Hseed.
  destruct (set_up_parallel s1 s2 Hs) as [Hset Hfinal].
  apply (same_run_bind eq eq); [done|]. intros l1 ? _ _ <-.
  destruct (seed_rng_parallel pid1 _ _ Hfinal) as [Hrng Hfinal'].
  apply (same_run_bind eq eq); [done|]. intros [] [] Hnormal _ _.
  apply run_parallel. by apply (Hfinal' tt).
Qed.

Lemma main_same_run fuel s1 s2 :
  agree alike s1 s2 ->
  same_run eq (main cfg env options pid1 fuel s1)
    (main cfg env options pid2 fuel s2).
Proof.
  intros Hs.
  destruct (count options "help") eqn:Hhelp.
  { unfold main. by rewrite Hhelp. }
  destruct (count options "version") eqn:Hversion.
  { unfold main. by rewrite Hhelp, Hversion. }
  rewrite !(main_of_body cfg env options _ Hhelp Hversion).
  destruct (main_body_same_run fuel s1 s2 Hs) as [Ho Hev].
  destruct (main_body cfg env options pid1 fuel s1) as [[[]|e1|n1|] t1 s1'],
    (main_body cfg env options pid2 fuel s2) as [[[]|e2|n2|] t2 s2'];
    try done; unfold same_run, after in *;
    cbn [outcome events final app map] in *; try by rewrite Hev.
  subst e2. destruct (is_std_exception e1); cbn [outcome events app map].
  - by rewrite !map_app, Hev.
  - by rewrite Hev.
Qed.

End TwoRuns.


(** The doubles are reproducible: the scripted DUT does in one run what it
    does in the other, the clocks may differ, and the factory numbers the
    statements from the seed on. *)
Lemma doubles_reproducible harness on_generated on_executed on_error :
  (forall w1 w2,
     script w1 = script w2 -> next w1 = next w2 ->
     (harness w1).1 = (harness w2).1 /\
     script (harness w1).2 = script (harness w2).2 /\
     next (harness w1).2 = next (harness w2).2) ->
  reproducible (doubles harness on_generated on_executed on_error)
    (fun w1 w2 => script w1 = script w2)
    (fun w1 w2 => script w1 = script w2 /\ next w1 = next w2).
Proof.
  intros Hharness. constructor; try done.
  - by intros w1 w2 [H1 H2]; simpl; rewrite H2.
  - intros d stmt w1 w2 [H1 H2]. simpl.
    by destruct (Hharness w1 w2 H1 H2) as (? & ? & ?).
Qed.

Lemma scripted_reproducible w1 w2 :
  script w1 = script w2 -> next w1 = next w2 ->
  (scripted w1).1 = (scripted w2).1 /\
  script (scripted w1).2 = script (scripted w2).2 /\
  next (scripted w1).2 = next (scripted w2).2.
Proof.
  intros H1 H2. unfold scripted. rewrite H1.
  destruct (script w2) as [|r rest] eqn:Hs; simpl; [|done].
  by rewrite H1, Hs.
Qed.

(** * More runs of the doubles *)

Lemma X6_witness :
  Forall of_dry_main
    (events (main release (doubles reliable quiet quiet quiet)
               {[ "dry-run" := "" ]} 42 2 (initial (start [])))).
Proof.
  apply (X6_dry_run_touches_nothing release
           (doubles reliable quiet quiet quiet) {[ "dry-run" := "" ]} 42 2
           (initial (start []))).
  vm_compute; reflexivity.
Defined.

Lemma X8_witness :
  exists w',
    main release (doubles reliable quiet quiet quiet)
      {[ "seed" := "forty-two" ]} 42 3 (initial (start [])) =
      Result (Exit 1)
        (greeting release :: set_up_events {[ "seed" := "forty-two" ]} ++
         [Cerr ("stoi" +:+ endl)])
        (State w' 0 (count {[ "seed" := "forty-two" ]} "verbose")).
Proof.
  apply (X8_seed_that_is_no_int release (doubles reliable quiet quiet quiet)
           {[ "seed" := "forty-two" ]} 42 3 (start []) (logic_error "stoi")).
  - apply doubles_set_up.
  - vm_compute; reflexivity.
  - vm_compute; reflexivity.
  - reflexivity.
  - vm_compute; reflexivity.
  - vm_compute; reflexivity.
Defined.

Lemma X9_witness :
  let options : gmap string string :=
    {[ "dry-run" := ""; "max-queries" := "2" ]} in
  let env := doubles reliable quiet quiet quiet in
  let r := main release env options 42 2 (initial (start [])) in
  exists n gens,
    seed_of options 42 n /\
    length gens = Z.to_nat (Z.max 1 2) /\
    outcome r = Exit 0 /\
    events r =
      greeting release :: set_up_events options ++ Seed n ::
      concat (map (dry_block env (configured_loggers options)) gens) /\
    statements (events r) = gens /\
    prints (events r) =
      ("=====: " +:+ database options +:+ " :======" +:+ endl) ::
      concat (map (fun gen => [out env gen; ";" +:+ endl]) gens).
Proof.
  apply (X9_dry_run_prints_the_ceiling_or_one release
           (doubles reliable quiet quiet quiet)
           {[ "dry-run" := ""; "max-queries" := "2" ]} 42 2 2 (start [])).
  - apply doubles_set_up.
  - apply doubles_well_behaved, quiet_raises_nothing.
  - repeat constructor; try (vm_compute; reflexivity); vm_compute;
      discriminate.
  - vm_compute; reflexivity.
  - vm_compute; reflexivity.
  - vm_compute; reflexivity.
  - simpl; lia.
Defined.

Lemma X10_witness :
  let options : gmap string string := {[ "dry-run" := "" ]} in
  let env := doubles reliable quiet quiet quiet in
  let r := main release env options 42 3 (initial (start [])) in
  exists n gens,
    seed_of options 42 n /\
    length gens = 3%nat /\
    outcome r = OutOfFuel /\
    events r =
      greeting release :: set_up_events options ++ Seed n ::
      concat (map (dry_block env (configured_loggers options)) gens).
Proof.
  apply (X10_dry_run_without_ceiling_never_ends release
           (doubles reliable quiet quiet quiet) {[ "dry-run" := "" ]} 42 3
           (start [])).
  - apply doubles_set_up.
  - apply doubles_well_behaved, quiet_raises_nothing.
  - repeat constructor; try (vm_compute; reflexivity); vm_compute;
      discriminate.
  - vm_compute; reflexivity.
  - vm_compute; reflexivity.
Defined.

Lemma X11_witness :
  let options : gmap string string := {[ "max-queries" := "many" ]} in
  let env := doubles reliable quiet quiet quiet in
  let r := main release env options 42 1 (initial (start [])) in
  exists n,
    seed_of options 42 n /\
    outcome r = Exit 1 /\
    if count options "dry-run" then
      exists gen,
        events r =
          greeting release :: set_up_events options ++ Seed n ::
          dry_block env (configured_loggers options) gen ++
          [Cerr ("stol" +:+ endl)]
    else events r = preamble release options n ++ [Cerr ("stol" +:+ endl)].
Proof.
  apply (X11_ceiling_that_is_no_long release
           (doubles reliable quiet quiet quiet) {[ "max-queries" := "many" ]}
           42 1 (start []) (logic_error "stol")).
  - apply doubles_set_up.
  - apply doubles_well_behaved, quiet_raises_nothing.
  - repeat constructor; try (vm_compute; reflexivity); vm_compute;
      discriminate.
  - vm_compute; reflexivity.
  - vm_compute; reflexivity.
  - lia.
Defined.

Lemma X12_witness :
  let env := doubles scripted quiet quiet quiet in
  let t := events (main release env {[ "max-queries" := "3" ]} 42 4
                     (initial (start [rejects; disconnects; accepts]))) in
  let writable := fun f : string => bool_decide (f = "allqueries.log") in
  let seconds := fun start stop : Z => pretty (stop - start) in
  writes "allqueries.log" t = map (line env) (statements t) /\
  writes "ssquery.log" t =
    project (accepted env) (zip (statements t) (tests t)) /\
  length (timings t) = length (writes "ssquery.log" t) /\
  file_after writable seconds "allqueries.log" (Some "old") t =
    (if writable "allqueries.log"
     then Some (joined (map (line env) (statements t)))
     else Some "old") /\
  file_after writable seconds "ssquery.log" (Some "old") t =
    (if writable "ssquery.log"
     then Some (joined (zip_with (log_entry seconds) (timings t)
                          (project (accepted env)
                             (zip (statements t) (tests t)))))
     else Some "old").
Proof.
  intros env t writable seconds.
  apply (X12_what_the_log_files_hold release
           (doubles scripted quiet quiet quiet) {[ "max-queries" := "3" ]}
           42 4 (start [rejects; disconnects; accepts]) writable seconds
           (Some "old")).
  - apply doubles_set_up.
  - apply doubles_well_behaved, quiet_raises_nothing.
  - apply scripted_raises_failures.
  - repeat constructor; try (vm_compute; reflexivity); vm_compute;
      discriminate.
  - exists 3. split; [vm_compute; reflexivity|].
    split; [unfold LONG_MAX; lia|simpl; lia].
Defined.


Lemma X14_witness :
  let env := doubles reliable quiet quiet quiet in
  let r := main release env {[ "verbose" := "" ]} 42 2 (initial (start [])) in
  count {[ "verbose" := "" ]} "verbose" = true /\
  global_cerr_logger (final r) = true /\
  let x := (report env (world (final r))).1 in
  events (cerr_log_handler env (final r)) = [Report x] /\
  outcome (cerr_log_handler env (final r)) =
    match x with
    | None => Exit 1
    | Some e => Throw e
    end.
Proof.
  apply (X14_sigint_reports_and_exits release
           (doubles reliable quiet quiet quiet) {[ "verbose" := "" ]} 42 2
           (start [])).
  - vm_compute; reflexivity.
  - vm_compute.
    repeat first [apply list_elem_of_here | apply list_elem_of_further].
Defined.

Lemma X15_witness :
  let options : gmap string string :=
    {[ "monetdb" := "db"; "log-to" := "dbname=log" ]} in
  count options "log-to" = true /\
  "dbname=log" = opt options "log-to" /\
  schema_monetdb "db" = configured_schema options /\
  "" = (if count options "sqlite" then opt options "sqlite"
        else opt options "target") /\
  (count options "sqlite" = false -> count options "monetdb" = true ->
   schema_monetdb "db" = schema_monetdb (opt options "monetdb") /\
   "" = opt options "target").
Proof.
  apply (X15_error_log_names_the_target release
           (doubles reliable quiet quiet quiet)
           {[ "monetdb" := "db"; "log-to" := "dbname=log" ]} 42 0
           (initial (start [])) "" "dbname=log" (schema_monetdb "db") None).
  vm_compute.
  repeat first [apply list_elem_of_here | apply list_elem_of_further].
Defined.

Lemma X16_witness :
  main_argv false release (doubles reliable quiet quiet quiet) 42
    ["sqlsmith"; "--version"; "--seed=forty-two"] 3 (initial (start [])) =
    Result (Exit 0)
      [Cerr (PACKAGE_NAME release +:+ " " +:+ GITREV release +:+ endl)]
      (initial (start [])).
Proof.
  apply (X16_version_is_the_banner false release
           (doubles reliable quiet quiet quiet) 42
           ["sqlsmith"; "--version"; "--seed=forty-two"] 3
           (initial (start []))).
  - vm_compute; reflexivity.
  - vm_compute; discriminate.
Defined.

Lemma X17_witness :
  let env := doubles reliable quiet quiet quiet in
  let r := main_argv false release env 42
             ["sqlsmith"; "--dry-run"; "--max-queries=" +:+ pretty 2] 2
             (initial (start [])) in
  exists gens,
    length gens = Z.to_nat (Z.max 1 2) /\
    outcome r = Exit 0 /\
    events r =
      [Cerr (PACKAGE_NAME release +:+ " " +:+ GITREV release +:+ endl);
       Cout ("=====:  :======" +:+ endl);
       NewSchema (schema_pqxx "") None; FillScope (schema_pqxx "") None;
       NewLogger impedance_feedback None; Seed 42] ++
      concat (map (dry_block env [impedance_feedback]) gens).
Proof.
  apply (X17_dry_run_from_the_command_line false release
           (doubles reliable quiet quiet quiet) 42 2 2 (start [])).
  - apply doubles_set_up.
  - apply doubles_well_behaved, quiet_raises_nothing.
  - unfold LONG_MIN, LONG_MAX; lia.
  - simpl; lia.
Defined.

(** * The exit status and the seed on the doubles *)



